(** * NodeCache: a shallow embedding of [lib/node_cache.js]

    The development follows the class [NodeCache] of [lib/node_cache.js]
    method by method.

    Modelling decisions, all visible in the definitions below:

    - JavaScript values are the inductive type [jsval]; numbers are integers
      or [NaN] (type [num]), which is what the statistics arithmetic of the
      class can produce, and their arithmetic is exact, as the engine's is
      on the safe integers.  Values are immutable, so [clone] is the identity
      and the [useClones] switch only selects between two equal results.
      A function is an opaque value, and an object is a list of own fields.
    - [this.data] is a plain object ([{}]), so a read [this.data[key]]
      follows the prototype chain.  The state keeps the own properties of
      the object ([data], a finite map from property names to wrapped
      entries) and its prototype ([proto]): [Object.prototype] at first, and
      a wrapped entry once [this.data["__proto__"] = wrapper] has run.  A
      read ([data_read]) answers an own entry, or what the chain has under
      the name: the members of the installed wrapper, the functions of
      [Object.prototype], the prototype itself for [__proto__].  A numeric
      key reaches the object through its property name ([ToPropertyKey]).
      The object [mget] returns is modelled in the same way.
    - Two operations of the engine are taken as given ([Engine]): the text
      of a number beyond the safe integers, and the comparison of a
      string, an array, an object or a function with a number.
    - [this.stats] is an object that [getStats] hands out by reference.  The
      state keeps the identity of the current statistics object
      ([stats_id]) next to its contents, and the objects replaced by
      [flushAll] ([retired]), so that a write through a reference obtained
      earlier can be expressed ([mutate_stats]).
    - [Date.now()] reads the field [clock]; a public method runs to
      completion at one clock value and [tick] moves the clock between
      calls.  The timer of the periodic check is recorded as a pending
      delay ([checkTimeout]).  The function it will call is
      [this._checkData] without its instance: the model gives [_checkData]
      its receiver as an argument, and [timer_fires] is the call the timer
      makes.
    - Methods are computations in a state-and-exception monad [M]: a thrown
      error keeps the mutations made before the throw, as in the source.
    - The methods are modelled in their direct-return calling convention
      (no trailing callback): every [if (cb != null)] branch is dead. *)

From stdpp Require Import gmap strings list fin_maps pretty.
From Stdlib Require Import ZArith Lia.

Local Open Scope Z_scope.
Set Warnings "-register-all".

(** ** JavaScript values *)

Inductive num : Type :=
| Fin (z : Z)
| NaN.

Inductive jsval : Type :=
| VUndefined
| VNull
| VBool (b : bool)
| VNum (n : num)
| VStr (s : string)
| VArr (l : list jsval)
| VObj (fields : list (string * jsval))
| VFun (name : string).

Definition num_add (a b : num) : num :=
  match a, b with
  | Fin x, Fin y => Fin (x + y)
  | _, _ => NaN
  end.

Definition num_sub (a b : num) : num :=
  match a, b with
  | Fin x, Fin y => Fin (x - y)
  | _, _ => NaN
  end.

(** An operand that may be [undefined]: [ToNumber(undefined)] is [NaN]. *)
Definition operand (x : option Z) : num :=
  match x with
  | Some z => Fin z
  | None => NaN
  end.

Definition typeof (x : jsval) : string :=
  match x with
  | VUndefined => "undefined"
  | VNull => "object"
  | VBool _ => "boolean"
  | VNum _ => "number"
  | VStr _ => "string"
  | VArr _ => "object"
  | VObj _ => "object"
  | VFun _ => "function"
  end.

(** [ToBoolean]: what [!x] and [if (x)] test. *)
Definition truthy (x : jsval) : bool :=
  match x with
  | VUndefined | VNull => false
  | VBool b => b
  | VNum (Fin z) => negb (z =? 0)
  | VNum NaN => false
  | VStr s => negb (String.eqb s EmptyString)
  | VArr _ | VObj _ | VFun _ => true
  end.

(** [x == null] *)
Definition nullish (x : jsval) : bool :=
  match x with
  | VUndefined | VNull => true
  | _ => false
  end.

(** [x === null] *)
Definition is_null (x : jsval) : bool :=
  match x with
  | VNull => true
  | _ => false
  end.

(** [x !== 0] *)
Definition is_not_zero (x : jsval) : bool :=
  match x with
  | VNum (Fin 0) => false
  | _ => true
  end.

Definition strlen (s : string) : Z := Z.of_nat (String.length s).

(** ** The engine

    Two operations of the JavaScript engine are taken as given.
    [number_text z] is the text of the integer [z] when its magnitude is
    above [Number.MAX_SAFE_INTEGER]: the engine prints such a number from
    the shortest digits that determine its binary representation, padded
    with zeros, and in exponent form from 10^21 on.
    [lt_coerced x n] is the comparison [x < n] for an operand [x] that is a
    string, an array, an object or a function: the engine first converts
    [x] by [ToPrimitive] and the syntax of numeric strings. *)
Class Engine : Type := {
  number_text : Z -> string;
  lt_coerced : jsval -> Z -> bool
}.

(** The engine of the example states, none of which reaches either
    operation. *)
Definition example_engine : Engine := {|
  number_text := fun z => pretty z;
  lt_coerced := fun _ _ => false
|}.

(** ** Host functions: lodash predicates and [clone] *)

Definition isString (x : jsval) : bool :=
  match x with VStr _ => true | _ => false end.

Definition isArray (x : jsval) : bool :=
  match x with VArr _ => true | _ => false end.

Definition isNumber (x : jsval) : bool :=
  match x with VNum _ => true | _ => false end.

Definition isObject (x : jsval) : bool :=
  match x with VArr _ | VObj _ | VFun _ => true | _ => false end.

Definition MAX_SAFE_INTEGER : Z := 9007199254740991.

Fixpoint field (name : string) (fields : list (string * jsval)) : jsval :=
  match fields with
  | [] => VUndefined
  | (k, x) :: rest => if String.eqb k name then x else field name rest
  end.

(** [x.t] and [x.v] for a value [x] that is no wrapped entry: an own field
    of an object.  No other modelled value has a property of that name,
    of its own or from its prototype. *)
Definition member (name : string) (x : jsval) : jsval :=
  match x with
  | VObj fields => field name fields
  | _ => VUndefined
  end.

(** lodash [size]: the length of an array-like collection, otherwise the
    number of own enumerable properties. *)
Definition lodash_size (x : jsval) : Z :=
  match x with
  | VStr s => strlen s
  | VArr l => Z.of_nat (length l)
  | VObj fields =>
      match field "length" fields with
      | VNum (Fin n) =>
          if (0 <=? n) && (n <=? MAX_SAFE_INTEGER) then n
          else Z.of_nat (length fields)
      | _ => Z.of_nat (length fields)
      end
  | _ => 0
  end.

Definition clone (x : jsval) : jsval := x.

Definition hex_digit (n : N) : Ascii.ascii :=
  Ascii.ascii_of_N (if (n <? 10)%N then 48 + n else 87 + n)%N.

Definition quote_char (c : Ascii.ascii) : string :=
  let n := Ascii.N_of_ascii c in
  let bs := String (Ascii.ascii_of_N 92) EmptyString in
  if (n =? 34)%N then bs +:+ String c EmptyString
  else if (n =? 92)%N then bs +:+ bs
  else if (n =? 8)%N then bs +:+ "b"
  else if (n =? 12)%N then bs +:+ "f"
  else if (n =? 10)%N then bs +:+ "n"
  else if (n =? 13)%N then bs +:+ "r"
  else if (n =? 9)%N then bs +:+ "t"
  else if (n <? 32)%N then
    bs +:+ "u00" +:+ String (hex_digit (n / 16)) (String (hex_digit (n mod 16)) EmptyString)
  else String c EmptyString.

Fixpoint quote_chars (s : string) : string :=
  match s with
  | EmptyString => EmptyString
  | String c rest => quote_char c +:+ quote_chars rest
  end.

Definition dq : string := String (Ascii.ascii_of_N 34) EmptyString.

Definition quote (s : string) : string := dq +:+ quote_chars s +:+ dq.

Fixpoint join_comma (l : list string) : string :=
  match l with
  | [] => EmptyString
  | [s] => s
  | s :: rest => s +:+ "," +:+ join_comma rest
  end.

(** ** Options, entries, statistics, notifications *)

Record cache_options : Type := {
  forceString : bool;
  objectValueSize : Z;
  arrayValueSize : Z;
  stdTTL : Z;
  checkperiod : Z;
  useClones : bool;
  errorOnMissing : bool
}.

Definition default_options : cache_options := {|
  forceString := false;
  objectValueSize := 80;
  arrayValueSize := 40;
  stdTTL := 0;
  checkperiod := 600;
  useClones := true;
  errorOnMissing := false
|}.

(** The wrapper object [{ t: livetime, v: value }] built by [_wrap]. *)
Record entry : Type := {
  t : Z;
  v : jsval
}.

(** What a read [this.data[key]] finds: a wrapper object, or any other
    value that the prototype chain has under the name ([undefined] when it
    has none). *)
Inductive slot : Type :=
| Wrapper (d : entry)
| Plain (x : jsval).

Coercion Wrapper : entry >-> slot.

(** [x.t] and [x.v] for what was found. *)
Definition slot_t (s : slot) : jsval :=
  match s with
  | Wrapper d => VNum (Fin (t d))
  | Plain x => member "t" x
  end.

Definition slot_v (s : slot) : jsval :=
  match s with
  | Wrapper d => v d
  | Plain x => member "v" x
  end.

(** [x != null] for what was found. *)
Definition present (s : slot) : bool :=
  match s with
  | Wrapper _ => true
  | Plain x => negb (nullish x)
  end.

(** [if (x)] for what was found. *)
Definition slot_truthy (s : slot) : bool :=
  match s with
  | Wrapper _ => true
  | Plain x => truthy x
  end.

(** The functions that [Object.prototype] gives every plain object. *)
Definition Object_prototype_functions : list string :=
  ["constructor"; "hasOwnProperty"; "isPrototypeOf"; "propertyIsEnumerable";
   "toLocaleString"; "toString"; "valueOf";
   "__defineGetter__"; "__defineSetter__"; "__lookupGetter__"; "__lookupSetter__"].

(** [Object.prototype] itself, as the methods see it: an object with
    neither [t] nor [v]. *)
Definition Object_prototype : jsval := VObj [].

(** A read of [name] on [Object.prototype]. *)
Definition Object_prototype_get (name : string) : slot :=
  if bool_decide (name ∈ Object_prototype_functions) then Plain (VFun name)
  else Plain VUndefined.

(** A read of [name] on the prototype chain of [this.data]: on the
    installed wrapper [w], whose own prototype is [Object.prototype], or on
    [Object.prototype] when none is installed.  The accessor [__proto__]
    answers the prototype of [this.data]. *)
Definition inherited (w : option entry) (name : string) : slot :=
  if String.eqb name "__proto__" then
    match w with
    | Some d => Wrapper d
    | None => Plain Object_prototype
    end
  else
    match w with
    | Some d =>
        if String.eqb name "t" then Plain (VNum (Fin (t d)))
        else if String.eqb name "v" then Plain (v d)
        else Object_prototype_get name
    | None => Object_prototype_get name
    end.

Record statistics : Type := {
  hits : num;
  misses : num;
  keys : num;
  ksize : num;
  vsize : num
}.

Definition zero_stats : statistics :=
  {| hits := Fin 0; misses := Fin 0; keys := Fin 0; ksize := Fin 0; vsize := Fin 0 |}.

(** [this.emit(name, ...)] *)
Inductive event : Type :=
| EvSet (key value : jsval)
| EvDel (key value : jsval)
| EvExpired (key value : jsval)
| EvFlush.

(** The objects built by [_error]; [TypeError] is the engine's own error
    for a property read on [undefined]. *)
Inductive error : Type :=
| ENOTFOUND (key : jsval)
| EKEYTYPE (type : string)
| EKEYSTYPE
| TypeError.

Inductive outcome (A : Type) : Type :=
| Return (a : A)
| Throw (e : error).
Arguments Return {A} a.
Arguments Throw {A} e.

(** ** The instance state *)

Record NodeCache : Type := {
  data : gmap string entry;
  proto : option entry;
  options : cache_options;
  stats : statistics;
  stats_id : nat;
  retired : gmap nat statistics;
  checkTimeout : option Z;
  clock : Z;
  emitted : list event
}.

Definition with_data (d : gmap string entry) (c : NodeCache) : NodeCache :=
  {| data := d; proto := proto c; options := options c; stats := stats c;
     stats_id := stats_id c; retired := retired c;
     checkTimeout := checkTimeout c; clock := clock c; emitted := emitted c |}.

Definition with_proto (w : option entry) (c : NodeCache) : NodeCache :=
  {| data := data c; proto := w; options := options c; stats := stats c;
     stats_id := stats_id c; retired := retired c;
     checkTimeout := checkTimeout c; clock := clock c; emitted := emitted c |}.

Definition with_stats (s : statistics) (c : NodeCache) : NodeCache :=
  {| data := data c; proto := proto c; options := options c; stats := s;
     stats_id := stats_id c; retired := retired c;
     checkTimeout := checkTimeout c; clock := clock c; emitted := emitted c |}.

Definition with_timeout (h : option Z) (c : NodeCache) : NodeCache :=
  {| data := data c; proto := proto c; options := options c; stats := stats c;
     stats_id := stats_id c; retired := retired c;
     checkTimeout := h; clock := clock c; emitted := emitted c |}.

Definition with_emitted (l : list event) (c : NodeCache) : NodeCache :=
  {| data := data c; proto := proto c; options := options c; stats := stats c;
     stats_id := stats_id c; retired := retired c;
     checkTimeout := checkTimeout c; clock := clock c; emitted := l |}.

(** [this.data[name]] read. *)
Definition data_read (c : NodeCache) (name : string) : slot :=
  match data c !! name with
  | Some d => Wrapper d
  | None => inherited (proto c) name
  end.
Arguments data_read : simpl never.

(** [this.data[name] = w]: an own property is written or created, except
    under the name [__proto__], where the assignment reaches the accessor
    of [Object.prototype] and makes the wrapper the prototype of the map. *)
Definition assign (name : string) (w : entry) (c : NodeCache) : NodeCache :=
  if String.eqb name "__proto__" && bool_decide (data c !! name = None)
  then with_proto (Some w) c
  else with_data (<[name := w]> (data c)) c.

(** [delete this.data[name]]: only an own property goes. *)
Definition delete_property (name : string) (c : NodeCache) : NodeCache :=
  with_data (delete name (data c)) c.

(** [this.data = {}] *)
Definition new_data_object (c : NodeCache) : NodeCache :=
  with_proto None (with_data ∅ c).

(** ** The state-and-exception monad of the methods *)

Definition M (A : Type) : Type := NodeCache -> outcome A * NodeCache.

Definition ret {A} (a : A) : M A := fun c => (Return a, c).

Definition throw {A} (e : error) : M A := fun c => (Throw e, c).

Definition bind {A B} (m : M A) (k : A -> M B) : M B :=
  fun c =>
    match m c with
    | (Return a, c') => k a c'
    | (Throw e, c') => (Throw e, c')
    end.

Notation "'do' x <- m ; k" := (bind m (fun x => k))
  (at level 10, x name, m at level 100, k at level 200).

(** A computation that does not touch the state. *)
Definition lift {A} (r : outcome A) : M A := fun c => (r, c).

Definition this : M NodeCache := fun c => (Return c, c).

Definition modify (f : NodeCache -> NodeCache) : M unit :=
  fun c => (Return tt, f c).

Definition emit (e : event) : M unit :=
  modify (fun c => with_emitted (emitted c ++ [e]) c).

Definition Date_now : M Z := fun c => (Return (clock c), c).

(** Statistics updates, one per assignment of the source. *)
Definition hits_incr (s : statistics) : statistics :=
  {| hits := num_add (hits s) (Fin 1); misses := misses s; keys := keys s;
     ksize := ksize s; vsize := vsize s |}.

Definition misses_incr (s : statistics) : statistics :=
  {| hits := hits s; misses := num_add (misses s) (Fin 1); keys := keys s;
     ksize := ksize s; vsize := vsize s |}.

Definition keys_incr (s : statistics) : statistics :=
  {| hits := hits s; misses := misses s; keys := num_add (keys s) (Fin 1);
     ksize := ksize s; vsize := vsize s |}.

Definition keys_decr (s : statistics) : statistics :=
  {| hits := hits s; misses := misses s; keys := num_sub (keys s) (Fin 1);
     ksize := ksize s; vsize := vsize s |}.

Definition ksize_add (x : num) (s : statistics) : statistics :=
  {| hits := hits s; misses := misses s; keys := keys s;
     ksize := num_add (ksize s) x; vsize := vsize s |}.

Definition ksize_sub (x : num) (s : statistics) : statistics :=
  {| hits := hits s; misses := misses s; keys := keys s;
     ksize := num_sub (ksize s) x; vsize := vsize s |}.

Definition vsize_add (x : num) (s : statistics) : statistics :=
  {| hits := hits s; misses := misses s; keys := keys s;
     ksize := ksize s; vsize := num_add (vsize s) x |}.

Definition vsize_sub (x : num) (s : statistics) : statistics :=
  {| hits := hits s; misses := misses s; keys := keys s;
     ksize := ksize s; vsize := num_sub (vsize s) x |}.

Definition update_stats (f : statistics -> statistics) : M unit :=
  modify (fun c => with_stats (f (stats c)) c).

(** The object [oRet] that [mget] fills and returns: a plain object like
    [this.data], with its own properties and, once [oRet["__proto__"] = x]
    has run with an object or [null], the value that became its
    prototype. *)
Record result_object : Type := {
  props : gmap string jsval;
  props_proto : option jsval
}.

Definition empty_object : result_object := {| props := ∅; props_proto := None |}.

(** [oRet[name] = x]: under the name [__proto__] the assignment reaches the
    accessor of [Object.prototype], which takes an object or [null] as the
    new prototype and ignores any other value. *)
Definition oRet_assign (name : string) (x : jsval) (o : result_object) : result_object :=
  if String.eqb name "__proto__" && bool_decide (props o !! name = None) then
    if isObject x || is_null x
    then {| props := props o; props_proto := Some x |}
    else o
  else {| props := <[name := x]> (props o); props_proto := props_proto o |}.

Inductive mget_result : Type :=
| Found (oRet : result_object)
| Failed (err : error).

(** A reference to a statistics object. *)
Definition stats_ref : Type := nat.

(** The object a method runs on: the instance, or, for the call made by
    the timer, the timer object. *)
Inductive receiver : Type :=
| TheCache
| TheTimeout.

(** [this.validKeyTypes] *)
Definition validKeyTypes : list string := ["string"; "number"].

(** [_isInvalidKey]: [None] is the result [undefined] (the key is valid). *)
Definition _isInvalidKey (key : jsval) : option error :=
  if negb (bool_decide (typeof key ∈ validKeyTypes))
  then Some (EKEYTYPE (typeof key))
  else None.

(** [_getKeyLength]: [key.length]; [None] is [undefined], which is what a
    number answers (as do the other values without a [length], none of
    which passes [_isInvalidKey]). *)
Definition _getKeyLength (key : jsval) : option Z :=
  match key with
  | VStr s => Some (strlen s)
  | VArr l => Some (Z.of_nat (length l))
  | _ => None
  end.

(** [x.length] for a string or an array. *)
Definition length_of (x : jsval) : Z :=
  match x with
  | VStr s => strlen s
  | VArr l => Z.of_nat (length l)
  | _ => 0
  end.

Section NodeCache.

Context {engine : Engine}.

(** [Number::toString]: the decimal digits of a safe integer. *)
Definition NumberToString (z : Z) : string :=
  if Z.abs z <=? MAX_SAFE_INTEGER then pretty z else number_text z.

(** The property name under which [this.data[key]] looks a key up.  Only
    a string or a number passes [_isInvalidKey] and reaches a lookup; the
    names given to the other values are never read. *)
Definition ToPropertyKey (key : jsval) : string :=
  match key with
  | VStr s => s
  | VNum (Fin z) => NumberToString z
  | VNum NaN => "NaN"
  | VUndefined => "undefined"
  | VNull => "null"
  | VBool true => "true"
  | VBool false => "false"
  | VArr _ | VObj _ | VFun _ => "[object]"
  end.

(** [x < n], for [n] a number that is not [NaN]. *)
Definition less_than (x : jsval) (n : Z) : bool :=
  match x with
  | VNum (Fin z) => z <? n
  | VNum NaN | VUndefined => false
  | VNull => 0 <? n
  | VBool b => (if b then 1 else 0) <? n
  | VStr _ | VArr _ | VObj _ | VFun _ => lt_coerced x n
  end.

(** [JSON.stringify]; [None] is the result [undefined]. *)
Fixpoint JSON_stringify (x : jsval) : option string :=
  match x with
  | VUndefined | VFun _ => None
  | VNull => Some "null"
  | VBool true => Some "true"
  | VBool false => Some "false"
  | VNum (Fin z) => Some (NumberToString z)
  | VNum NaN => Some "null"
  | VStr s => Some (quote s)
  | VArr l =>
      Some ("[" +:+
            join_comma (List.map (fun y => default "null" (JSON_stringify y)) l)
            +:+ "]")
  | VObj fields =>
      Some ("{" +:+
            join_comma
              (omap (fun p => match JSON_stringify (snd p) with
                              | Some s => Some (quote (fst p) +:+ ":" +:+ s)
                              | None => None
                              end) fields)
            +:+ "}")
  end.

(** ** Internal methods *)

(** [_getValLength]; [JSON.stringify( value ).length] throws when the
    serialisation is [undefined]. *)
Definition _getValLength (o : cache_options) (value : jsval) : outcome Z :=
  if isString value then Return (length_of value)
  else if forceString o then
    match JSON_stringify value with
    | Some s => Return (strlen s)
    | None => Throw TypeError
    end
  else if isArray value then Return (arrayValueSize o * length_of value)
  else if isNumber value then Return 8
  else if isObject value then Return (objectValueSize o * lodash_size value)
  else Return 0.

(** [_wrap] *)
Definition _wrap (value : jsval) (ttl : option Z) (asClone : bool) : M entry :=
  do c <- this;
  let asClone := if negb (useClones (options c)) then false else asClone in
  do now <- Date_now;
  let ttlMultiplicator := 1000 in
  let livetime :=
    match ttl with
    | Some 0 => 0
    | Some ttl => now + ttl * ttlMultiplicator
    | None =>
        if stdTTL (options c) =? 0 then stdTTL (options c)
        else now + stdTTL (options c) * ttlMultiplicator
    end in
  ret {| t := livetime; v := if asClone then clone value else value |}.

(** [_unwrap]; the methods call it on what a read found, never on
    [undefined] or [null]. *)
Definition _unwrap (o : cache_options) (value : slot) (asClone : bool) : jsval :=
  let asClone := if negb (useClones o) then false else asClone in
  if negb (nullish (slot_v value)) then
    if asClone then clone (slot_v value) else slot_v value
  else VNull.

(** ** del *)

(** The body of the loop of [del], for one key. *)
Definition del_key (key : jsval) (delCount : Z) : M Z :=
  match _isInvalidKey key with
  | Some err => throw err
  | None =>
      do c <- this;
      if present (data_read c (ToPropertyKey key)) then
        do n <- lift (_getValLength (options c)
                        (_unwrap (options c) (data_read c (ToPropertyKey key)) false));
        do _ <- update_stats (vsize_sub (Fin n));
        do _ <- update_stats (ksize_sub (operand (_getKeyLength key)));
        do _ <- update_stats keys_decr;
        let oldVal := data_read c (ToPropertyKey key) in
        do _ <- modify (delete_property (ToPropertyKey key));
        do _ <- emit (EvDel key (slot_v oldVal));
        ret (delCount + 1)
      else
        do _ <- update_stats misses_incr;
        ret delCount
  end.

Fixpoint del_loop (ks : list jsval) (delCount : Z) : M Z :=
  match ks with
  | [] => ret delCount
  | key :: rest =>
      do delCount <- del_key key delCount;
      del_loop rest delCount
  end.

Definition del (ks : jsval) : M Z :=
  let ks := match ks with VArr l => l | _ => [ks] end in
  del_loop ks 0.

(** [_check]; [data.t] throws when [data] is [undefined] or [null]. *)
Definition _check (key : jsval) (d : slot) : M bool :=
  if negb (present d) then throw TypeError
  else
    do now <- Date_now;
    if is_not_zero (slot_t d) && less_than (slot_t d) now then
      do _ <- del key;
      do c <- this;
      do _ <- emit (EvExpired key (_unwrap (options c) d true));
      ret false
    else ret true.

(** ** get *)

(** [(this.data[ key ] != null) && this._check( key, this.data[ key ] )] *)
Definition present_and_checked (key : jsval) : M bool :=
  do c <- this;
  if present (data_read c (ToPropertyKey key))
  then _check key (data_read c (ToPropertyKey key))
  else ret false.

(** [this.data[ key ]] read where the source dereferences the result. *)
Definition data_at (key : jsval) : M slot :=
  do c <- this;
  if present (data_read c (ToPropertyKey key))
  then ret (data_read c (ToPropertyKey key))
  else throw TypeError.

Definition get (key : jsval) (errorOnMissing_arg : bool) : M jsval :=
  match _isInvalidKey key with
  | Some err => throw err
  | None =>
      do found <- present_and_checked key;
      if found then
        do _ <- update_stats hits_incr;
        do d <- data_at key;
        do c <- this;
        let _ret := _unwrap (options c) d true in
        ret _ret
      else
        do _ <- update_stats misses_incr;
        do c <- this;
        if errorOnMissing (options c) || errorOnMissing_arg then
          throw (ENOTFOUND key)
        else ret VUndefined
  end.

(** ** mget *)

Definition mget_key (key : jsval) (oRet : result_object) : M result_object :=
  match _isInvalidKey key with
  | Some err => throw err
  | None =>
      do found <- present_and_checked key;
      if found then
        do _ <- update_stats hits_incr;
        do d <- data_at key;
        do c <- this;
        ret (oRet_assign (ToPropertyKey key) (_unwrap (options c) d true) oRet)
      else
        do _ <- update_stats misses_incr;
        ret oRet
  end.

Fixpoint mget_loop (ks : list jsval) (oRet : result_object) : M result_object :=
  match ks with
  | [] => ret oRet
  | key :: rest =>
      do oRet <- mget_key key oRet;
      mget_loop rest oRet
  end.

Definition mget (ks : jsval) : M mget_result :=
  match ks with
  | VArr l =>
      do oRet <- mget_loop l empty_object;
      ret (Found oRet)
  | _ => ret (Failed EKEYSTYPE)
  end.

(** ** set *)

Definition set (key value : jsval) (ttl : option Z) : M bool :=
  do c <- this;
  let value :=
    if forceString (options c) && negb (isString value) then
      match JSON_stringify value with
      | Some s => VStr s
      | None => VUndefined
      end
    else value in
  match _isInvalidKey key with
  | Some err => throw err
  | None =>
      do existent <-
        if slot_truthy (data_read c (ToPropertyKey key)) then
          do n <- lift (_getValLength (options c)
                          (_unwrap (options c) (data_read c (ToPropertyKey key)) false));
          do _ <- update_stats (vsize_sub (Fin n));
          ret true
        else ret false;
      do w <- _wrap value ttl true;
      do _ <- modify (assign (ToPropertyKey key) w);
      do n <- lift (_getValLength (options c) value);
      do _ <- update_stats (vsize_add (Fin n));
      do _ <-
        if negb existent then
          do _ <- update_stats (ksize_add (operand (_getKeyLength key)));
          update_stats keys_incr
        else ret tt;
      do _ <- emit (EvSet key value);
      ret true
  end.

(** ** ttl and getTtl *)

Definition ttl (key : jsval) (ttl : option Z) : M bool :=
  do c <- this;
  let ttl :=
    match ttl with
    | Some z => if z =? 0 then stdTTL (options c) else z
    | None => stdTTL (options c)
    end in
  if negb (truthy key) then ret false
  else
    match _isInvalidKey key with
    | Some err => throw err
    | None =>
        do found <- present_and_checked key;
        if found then
          do _ <-
            if 0 <=? ttl then
              do d <- data_at key;
              do w <- _wrap (slot_v d) (Some ttl) false;
              modify (assign (ToPropertyKey key) w)
            else
              do _ <- del key;
              ret tt;
          ret true
        else ret false
    end.

Definition getTtl (key : jsval) : M jsval :=
  if negb (truthy key) then ret VUndefined
  else
    match _isInvalidKey key with
    | Some err => throw err
    | None =>
        do found <- present_and_checked key;
        if found then
          do d <- data_at key;
          let _ttl := slot_t d in
          ret _ttl
        else ret VUndefined
    end.

(** ** keys *)

(** [keys]: [Object.keys( this.data )], the own property names.  They are
    listed without repetition; the order in which the object enumerates
    them is not represented by the map, and no statement depends on it.
    (The method is called [keys_] here: [keys] is the counter of the
    statistics.) *)
Definition keys_ : M (list string) :=
  do c <- this;
  let _keys := (map_to_list (data c)).*1 in
  ret _keys.

(** ** getStats and the statistics object *)

(** [getStats]: [return this.stats], the object itself. *)
Definition getStats : M stats_ref :=
  do c <- this;
  ret (stats_id c).

(** What a holder of the reference [r] reads through it. *)
Definition read_stats (r : stats_ref) (c : NodeCache) : option statistics :=
  if decide (r = stats_id c) then Some (stats c) else retired c !! r.

(** A write by the caller through the reference [r]: the object it
    designates becomes [f] of its contents. *)
Definition mutate_stats (r : stats_ref) (f : statistics -> statistics)
    (c : NodeCache) : NodeCache :=
  if decide (r = stats_id c) then with_stats (f (stats c)) c
  else
    {| data := data c; proto := proto c; options := options c; stats := stats c;
       stats_id := stats_id c; retired := alter f r (retired c);
       checkTimeout := checkTimeout c; clock := clock c; emitted := emitted c |}.

(** [this.stats = { hits: 0, ... }]: a new object; the previous one stays
    reachable through the references handed out before. *)
Definition new_stats_object (c : NodeCache) : NodeCache :=
  {| data := data c; proto := proto c; options := options c; stats := zero_stats;
     stats_id := S (stats_id c);
     retired := <[stats_id c := stats c]> (retired c);
     checkTimeout := checkTimeout c; clock := clock c; emitted := emitted c |}.

(** ** The periodic check, flushAll, close *)

(** The names that [for (let key in this.data)] goes through: the own
    properties, then the enumerable properties of the prototype chain that
    no own property hides, which are the [t] and [v] of an installed
    wrapper (the properties of [Object.prototype] are not enumerable). *)
Definition enumerated (c : NodeCache) : list string :=
  (map_to_list (data c)).*1 ++
  match proto c with
  | Some _ => List.filter (fun name => bool_decide (data c !! name = None)) ["t"; "v"]
  | None => []
  end.

Fixpoint _checkData_loop (l : list string) : M unit :=
  match l with
  | [] => ret tt
  | key :: rest =>
      do c <- this;
      let value := data_read c key in
      do _ <- _check (VStr key) value;
      _checkData_loop rest
  end.

(** [_checkData], run on the receiver [r].  On the instance the scheduled
    call is recorded as the pending delay.  On the timer object
    [this.data] is [undefined], so the loop has nothing to go through, and
    [this.options] is [undefined], so reading [checkperiod] throws. *)
Definition _checkData (r : receiver) (startPeriod : bool) : M unit :=
  match r with
  | TheCache =>
      do c <- this;
      do _ <- _checkData_loop (enumerated c);
      if startPeriod && (0 <? checkperiod (options c)) then
        modify (with_timeout (Some (checkperiod (options c) * 1000)))
      else ret tt
  | TheTimeout =>
      if startPeriod then throw TypeError else ret tt
  end.

(** The call made by the timer when its delay has passed:
    [setTimeout( this._checkData, ... )] was given the function without
    its instance, so it runs on the timer object, with no argument. *)
Definition timer_fires : M unit :=
  do c <- this;
  match checkTimeout c with
  | Some _ =>
      do _ <- modify (with_timeout None);
      _checkData TheTimeout true
  | None => ret tt
  end.

(** [_killCheckPeriod]: [clearTimeout] of the pending call. *)
Definition _killCheckPeriod : M unit :=
  modify (with_timeout None).

Definition flushAll (_startPeriod : bool) : M unit :=
  do _ <- modify new_data_object;
  do _ <- modify new_stats_object;
  do _ <- _killCheckPeriod;
  do _ <- _checkData TheCache _startPeriod;
  emit EvFlush.

Definition close : M unit := _killCheckPeriod.

(** The constructor, with the merged options, started at time [now]. *)
Definition constructor (o : cache_options) (now : Z) : NodeCache :=
  snd (_checkData TheCache true
         {| data := ∅; proto := None; options := o; stats := zero_stats;
            stats_id := O; retired := ∅; checkTimeout := None; clock := now;
            emitted := [] |}).

(** Time passing between two calls. *)
Definition tick (ms : Z) (c : NodeCache) : NodeCache :=
  {| data := data c; proto := proto c; options := options c; stats := stats c;
     stats_id := stats_id c; retired := retired c;
     checkTimeout := checkTimeout c; clock := clock c + Z.max 0 ms;
     emitted := emitted c |}.

(** Running a method: the state it leaves, and what it hands back. *)
Definition after {A} (m : M A) (c : NodeCache) : NodeCache := snd (m c).
Definition result {A} (m : M A) (c : NodeCache) : outcome A := fst (m c).

(** * Vocabulary of the statements *)

(** ** Keys, freshness and the states the methods leave *)

Definition valid_key (key : jsval) : Prop := _isInvalidKey key = None.

(** The test of [_check] on a wrapped entry: the entry has a deadline and
    it has passed. *)
Definition expired (now : Z) (d : entry) : bool :=
  negb (t d =? 0) && (t d <? now).

(** The test of [_check] on whatever a read found. *)
Definition stale (now : Z) (s : slot) : bool :=
  is_not_zero (slot_t s) && less_than (slot_t s) now.

(** The prototype chain of the map has nothing under the name: a read of
    it finds an own property or [undefined].  The names that fail this are
    [__proto__], the functions of [Object.prototype] and, once a wrapper
    is installed as prototype, [t] and [v]. *)
Definition not_inherited (c : NodeCache) (name : string) : Prop :=
  present (inherited (proto c) name) = false.

(** What a read finds under a name when the freshness check lets it
    through. *)
Definition found (c : NodeCache) (name : string) : option slot :=
  if present (data_read c name) && negb (stale (clock c) (data_read c name))
  then Some (data_read c name) else None.

(** The value size that [del] and an overwriting [set] take off [vsize]. *)
Definition measured (o : cache_options) (s : slot) (n : Z) : Prop :=
  _getValLength o (_unwrap o s false) = Return n.

(** The state [del] leaves after removing what it found under [key]. *)
Definition removed (key : jsval) (s : slot) (n : Z) (c : NodeCache) : NodeCache :=
  with_emitted (emitted c ++ [EvDel key (slot_v s)])
    (with_data (delete (ToPropertyKey key) (data c))
       (with_stats
          (keys_decr
             (ksize_sub (operand (_getKeyLength key))
                (vsize_sub (Fin n) (stats c)))) c)).

(** The state left by a lazy expiration: removal, then the notification. *)
Definition lapsed (key : jsval) (s : slot) (n : Z) (c : NodeCache) : NodeCache :=
  with_emitted
    (emitted c ++ [EvDel key (slot_v s); EvExpired key (_unwrap (options c) s true)])
    (removed key s n c).

Definition missed (c : NodeCache) : NodeCache :=
  with_stats (misses_incr (stats c)) c.

Definition hit (c : NodeCache) : NodeCache :=
  with_stats (hits_incr (stats c)) c.

(** Symbolic execution of the monadic plumbing. *)
Ltac mrun :=
  repeat (progress
    (unfold bind, ret, throw, this, modify, update_stats, emit, lift,
       data_at, Date_now; simpl)).

(** What [get] hands back on a miss. *)
Definition miss_outcome (c : NodeCache) (key : jsval) (errorOnMissing_arg : bool)
  : outcome jsval :=
  if errorOnMissing (options c) || errorOnMissing_arg
  then Throw (ENOTFOUND key) else Return VUndefined.

(** The TTL that [ttl] works with after [if (!ttl)]. *)
Definition effective_ttl (c : NodeCache) (newTtl : option Z) : Z :=
  match newTtl with
  | Some z => if z =? 0 then stdTTL (options c) else z
  | None => stdTTL (options c)
  end.

(** The deadline [_wrap] computes for a numeric TTL. *)
Definition deadline (now ttl : Z) : Z :=
  if ttl =? 0 then 0 else now + ttl * 1000.

(** The value [set] stores and reports, after the [forceString] step. *)
Definition forced (o : cache_options) (value : jsval) : jsval :=
  if forceString o && negb (isString value) then
    match JSON_stringify value with
    | Some s => VStr s
    | None => VUndefined
    end
  else value.

(** The entry [set] writes. *)
Definition written (c : NodeCache) (value : jsval) (newTtl : option Z) : entry :=
  {| t := deadline (clock c) (default (stdTTL (options c)) newTtl);
     v := forced (options c) value |}.

(** [del] and an overwriting [set] call [_getValLength] on the value of
    what they found; it is measurable when that call returns. *)
Definition measurable (o : cache_options) (s : slot) : Prop :=
  exists n, measured o s n.

(** Under [forceString] a wrapper holds a string, [undefined] or [null]. *)
Definition storable (o : cache_options) (x : jsval) : Prop :=
  forceString o = true -> isString x = true \/ nullish x = true.

Definition well_measured (c : NodeCache) : Prop :=
  (forall k d, data c !! k = Some d -> storable (options c) (v d)) /\
  (forall w, proto c = Some w -> storable (options c) (v w)).

(** The three situations of a valid key against the stored entries. *)
Inductive key_status (c : NodeCache) (key : jsval) : Type :=
| KeyAbsent (Hd : data c !! ToPropertyKey key = None)
| KeyFresh (d : entry) (Hd : data c !! ToPropertyKey key = Some d)
    (He : expired (clock c) d = false)
| KeyExpired (d : entry) (Hd : data c !! ToPropertyKey key = Some d)
    (He : expired (clock c) d = true).

Definition status_of (c : NodeCache) (key : jsval) : key_status c key.
Proof.
  destruct (data c !! ToPropertyKey key) as [d|] eqn:Hd.
  - destruct (expired (clock c) d) eqn:He.
    + exact (KeyExpired c key d Hd He).
    + exact (KeyFresh c key d Hd He).
  - exact (KeyAbsent c key Hd).
Defined.

(** The three situations of a valid key against what a read finds. *)
Inductive read_status (c : NodeCache) (key : jsval) : Type :=
| ReadNothing (Hp : present (data_read c (ToPropertyKey key)) = false)
| ReadFresh (Hp : present (data_read c (ToPropertyKey key)) = true)
    (He : stale (clock c) (data_read c (ToPropertyKey key)) = false)
| ReadStale (Hp : present (data_read c (ToPropertyKey key)) = true)
    (He : stale (clock c) (data_read c (ToPropertyKey key)) = true).

Definition read_status_of (c : NodeCache) (key : jsval) : read_status c key.
Proof.
  destruct (present (data_read c (ToPropertyKey key))) eqn:Hp.
  - destruct (stale (clock c) (data_read c (ToPropertyKey key))) eqn:He.
    + exact (ReadStale c key Hp He).
    + exact (ReadFresh c key Hp He).
  - exact (ReadNothing c key Hp).
Defined.

(** ** Histories *)

(** One interaction with the instance: a method call, time passing, the
    timer calling back, or a write through a statistics reference obtained
    from [getStats]. *)
Inductive call : Type :=
| CallSet (key value : jsval) (newTtl : option Z)
| CallGet (key : jsval) (errorOnMissing_arg : bool)
| CallMget (ks : jsval)
| CallDel (ks : jsval)
| CallTtl (key : jsval) (newTtl : option Z)
| CallGetTtl (key : jsval)
| CallGetStats
| CallFlushAll (startPeriod : bool)
| CallClose
| Tick (ms : Z)
| TimerFires
| MutateStats (r : stats_ref) (f : statistics -> statistics).

Definition step (a : call) (c : NodeCache) : NodeCache :=
  match a with
  | CallSet key value newTtl => after (set key value newTtl) c
  | CallGet key eom => after (get key eom) c
  | CallMget ks => after (mget ks) c
  | CallDel ks => after (del ks) c
  | CallTtl key newTtl => after (ttl key newTtl) c
  | CallGetTtl key => after (getTtl key) c
  | CallGetStats => after getStats c
  | CallFlushAll b => after (flushAll b) c
  | CallClose => after close c
  | Tick ms => tick ms c
  | TimerFires => after timer_fires c
  | MutateStats r f => mutate_stats r f c
  end.

Definition run (l : list call) (c : NodeCache) : NodeCache :=
  fold_left (fun c a => step a c) l c.

Inductive reachable : NodeCache -> Prop :=
| reachable_new o now : reachable (constructor o now)
| reachable_step a c : reachable c -> reachable (step a c).

(** The entry a reader finds under a property name: stored, and not past
    its deadline. *)
Definition fresh_entry (c : NodeCache) (p : string) : option entry :=
  match data c !! p with
  | Some d => if expired (clock c) d then None else Some d
  | None => None
  end.

(** A key is live when it is present and fresh. *)
Definition live (c : NodeCache) (key : jsval) : bool :=
  match fresh_entry c (ToPropertyKey key) with
  | Some _ => true
  | None => false
  end.

(** A history without [flushAll]. *)
Definition flushless (l : list call) : Prop :=
  Forall (fun a => forall b, a <> CallFlushAll b) l.

(** What a call leaves alone: the options, the clock, and which statistics
    objects exist. *)
Definition frame (c c' : NodeCache) : Prop :=
  options c' = options c /\ clock c' = clock c /\
  stats_id c' = stats_id c /\ retired c' = retired c.

(** ** Example states *)

(** A new cache with the default options, at time 1000 ms. *)
Definition example_new : NodeCache := constructor default_options 1000.

(** [set("a", "x", 1)] on it: the entry lives until 2000 ms. *)
Definition example_one_key : NodeCache :=
  step (CallSet (VStr "a") (VStr "x") (Some 1)) example_new.

(** 1500 ms later the entry is stale and not yet removed. *)
Definition example_stale : NodeCache := step (Tick 1500) example_one_key.

(** The same history on a cache built with [errorOnMissing: true]. *)
Definition strict_options : cache_options := {|
  forceString := false;
  objectValueSize := 80;
  arrayValueSize := 40;
  stdTTL := 0;
  checkperiod := 600;
  useClones := true;
  errorOnMissing := true
|}.

Definition example_strict_stale : NodeCache :=
  step (Tick 1500)
    (step (CallSet (VStr "a") (VStr "x") (Some 1)) (constructor strict_options 1000)).

(** The new cache after [set(0, "z")]. *)
Definition example_zero_key : NodeCache :=
  step (CallSet (VNum (Fin 0)) (VStr "z") None) example_new.

(** The state [flushAll] leaves. *)
Definition flushed (b : bool) (c : NodeCache) : NodeCache :=
  let c1 := with_timeout None (new_stats_object (new_data_object c)) in
  let c2 :=
    if b && (0 <? checkperiod (options c))
    then with_timeout (Some (checkperiod (options c) * 1000)) c1 else c1 in
  with_emitted (emitted c2 ++ [EvFlush]) c2.

(** The write used in the example: [getStats().hits = 42]. *)
Definition write_hits_42 (s : statistics) : statistics :=
  {| hits := Fin 42; misses := misses s; keys := keys s;
     ksize := ksize s; vsize := vsize s |}.

Definition ten_second_options : cache_options := {|
  forceString := false;
  objectValueSize := 80;
  arrayValueSize := 40;
  stdTTL := 10;
  checkperiod := 600;
  useClones := true;
  errorOnMissing := false
|}.

(** A cache built with [stdTTL: 10], after [set("a", "x")] and 500 ms. *)
Definition example_default_ttl : NodeCache :=
  step (Tick 500)
    (step (CallSet (VStr "a") (VStr "x") None) (constructor ten_second_options 1000)).

Definition force_string_options : cache_options := {|
  forceString := true;
  objectValueSize := 80;
  arrayValueSize := 40;
  stdTTL := 0;
  checkperiod := 600;
  useClones := true;
  errorOnMissing := false
|}.

(** A new cache built with [forceString: true]. *)
Definition example_force_string : NodeCache :=
  constructor force_string_options 1000.

(** ** Statistics against the stored entries *)

(** A sum over the stored entries. *)
Definition total (w : string -> entry -> Z) (m : gmap string entry) : Z :=
  map_fold (fun k d acc => w k d + acc) 0 m.

(** The estimated size of a stored key: the length of its name. *)
Definition key_size (k : string) (d : entry) : Z := strlen k.

(** The estimated size of a stored value. *)
Definition stored_size (o : cache_options) (k : string) (d : entry) : Z :=
  match _getValLength o (_unwrap o d false) with
  | Return n => n
  | Throw _ => 0
  end.

(** The invariant of the specification: [keys] counts the stored entries,
    [ksize] and [vsize] are the sums of their key and value sizes. *)
Definition consistent (c : NodeCache) : Prop :=
  keys (stats c) = Fin (Z.of_nat (size (data c))) /\
  ksize (stats c) = Fin (total key_size (data c)) /\
  vsize (stats c) = Fin (total (stored_size (options c)) (data c)).

(** The new cache after [set(1, "a")]. *)
Definition example_numeric_key : NodeCache :=
  step (CallSet (VNum (Fin 1)) (VStr "a") None) example_new.

(** A key under which the invariant is kept: not a number, and not a name
    that the map inherits. *)
Definition plain_key (c : NodeCache) (key : jsval) : Prop :=
  isNumber key = false /\ not_inherited c (ToPropertyKey key).

(** Calls under which the invariant is kept: plain keys only, no write
    through a statistics reference, and a [set] whose value can be
    measured. *)
Definition tame (c : NodeCache) (a : call) : Prop :=
  match a with
  | CallSet key value _ =>
      plain_key c key /\
      exists n, _getValLength (options c) (forced (options c) value) = Return n
  | CallGet key _ => plain_key c key
  | CallTtl key _ => plain_key c key
  | CallGetTtl key => plain_key c key
  | CallMget ks =>
      match ks with
      | VArr l => Forall (plain_key c) l
      | _ => True
      end
  | CallDel ks =>
      match ks with
      | VArr l => Forall (plain_key c) l
      | _ => plain_key c ks
      end
  | MutateStats _ _ => False
  | CallGetStats | CallFlushAll _ | CallClose | Tick _ | TimerFires => True
  end.

Fixpoint tame_run (l : list call) (c : NodeCache) : Prop :=
  match l with
  | [] => True
  | a :: rest => tame c a /\ tame_run rest (step a c)
  end.

(** A history with string keys only: a write with a TTL, an expiry by a
    late read, an overwrite, a TTL refresh and a batch delete. *)
Definition example_history : list call :=
  [CallSet (VStr "a") (VStr "x") (Some 1);
   CallSet (VStr "b") (VArr [VNum (Fin 1); VNum (Fin 2)]) None;
   Tick 1500;
   CallGet (VStr "a") false;
   CallSet (VStr "b") (VObj [("n", VNum (Fin 3))]) (Some 5);
   CallTtl (VStr "b") (Some 60);
   CallMget (VArr [VStr "a"; VStr "b"]);
   CallDel (VArr [VStr "b"; VStr "zz"])].

(** ** Vocabulary of the further properties *)




(** The statistics [s'] come from [s] by assignments of the source:
    increments of [hits], [misses] and [keys], a decrement of [keys],
    additions to and subtractions from [ksize], and additions and
    subtractions of a measured value size on [vsize]. *)
Inductive stats_update (s : statistics) : statistics -> Prop :=
| upd_refl : stats_update s s
| upd_hits s' : stats_update s s' -> stats_update s (hits_incr s')
| upd_misses s' : stats_update s s' -> stats_update s (misses_incr s')
| upd_keys_incr s' : stats_update s s' -> stats_update s (keys_incr s')
| upd_keys_decr s' : stats_update s s' -> stats_update s (keys_decr s')
| upd_ksize_add x s' : stats_update s s' -> stats_update s (ksize_add x s')
| upd_ksize_sub x s' : stats_update s s' -> stats_update s (ksize_sub x s')
| upd_vsize_add n s' : stats_update s s' -> stats_update s (vsize_add (Fin n) s')
| upd_vsize_sub n s' : stats_update s s' -> stats_update s (vsize_sub (Fin n) s').


(** A call of a method, a clock tick or a call by the timer: not a write
    through a statistics reference. *)
Definition quiet (a : call) : Prop :=
  match a with
  | MutateStats _ _ => False
  | _ => True
  end.

(** A computation keeps the relation [R] between the state it starts in
    and the state it leaves, whether it returns or throws. *)
Definition preserves (R : NodeCache -> NodeCache -> Prop) {A} (m : M A) : Prop :=
  forall c, R c (snd (m c)).

(** The assignments to a counter of [this.stats] that the methods make. *)
Inductive stats_assignment : (statistics -> statistics) -> Prop :=
| assign_hits_incr : stats_assignment hits_incr
| assign_misses_incr : stats_assignment misses_incr
| assign_keys_incr : stats_assignment keys_incr
| assign_keys_decr : stats_assignment keys_decr
| assign_ksize_add x : stats_assignment (ksize_add x)
| assign_ksize_sub x : stats_assignment (ksize_sub x)
| assign_vsize_add n : stats_assignment (vsize_add (Fin n))
| assign_vsize_sub n : stats_assignment (vsize_sub (Fin n)).

(** A relation between the state a method starts in and the state it
    leaves that the elementary steps of the class keep: it is reflexive
    and transitive, and kept by an assignment to a counter, a deletion
    from the map, a notification and the scheduling of the timer.  (An
    assignment to the map is kept apart: it can replace the prototype.) *)
Record elementary (R : NodeCache -> NodeCache -> Prop) : Prop := {
  kept_refl : forall c, R c c;
  kept_trans : forall c1 c2 c3, R c1 c2 -> R c2 c3 -> R c1 c3;
  kept_stats : forall f c, stats_assignment f -> R c (with_stats (f (stats c)) c);
  kept_delete : forall p c, R c (delete_property p c);
  kept_emitted : forall l c, R c (with_emitted l c);
  kept_timeout : forall h c, R c (with_timeout h c)
}.

(** The facts about single steps that [preserving] closes its goals with. *)
Create HintDb preserved.
#[local] Hint Constructors stats_assignment : preserved.

(** That a method keeps a relation follows the shape of its body: a step
    is closed by a fact of the database or of the context, a sequence is
    split by the rule [bind_rule] for [bind], and a test is decided. *)
Ltac preserving bind_rule :=
  repeat first
    [ solve [auto with preserved]
    | apply bind_rule; [| intros ?]
    | match goal with
      | |- preserves _ (match ?x with _ => _ end) => destruct x
      end ].

(** The prototype of the map object is the same. *)
Definition same_chain (c c' : NodeCache) : Prop := proto c' = proto c.

(** The statistics change by assignments of the source only. *)
Definition counting (c c' : NodeCache) : Prop :=
  stats_update (stats c) (stats c').

(** * Properties *)

(** ** Basic facts about keys *)

Lemma valid_key_inv key :
  valid_key key -> (exists s, key = VStr s) \/ (exists n, key = VNum n).
Proof.
  destruct key; try (vm_compute; discriminate); eauto.
Qed.

Lemma valid_key_str s : valid_key (VStr s).
Proof. reflexivity. Qed.

Lemma valid_key_num n : valid_key (VNum n).
Proof. reflexivity. Qed.

Lemma invalid_key_error key :
  ~ valid_key key -> _isInvalidKey key = Some (EKEYTYPE (typeof key)).
Proof.
  unfold valid_key, _isInvalidKey.
  destruct (negb _); [reflexivity | intros H; destruct H; reflexivity].
Qed.

Lemma valid_key_dec key : {valid_key key} + {~ valid_key key}.
Proof.
  unfold valid_key. destruct (_isInvalidKey key); [right | left]; congruence.
Qed.

(** ** Reads and writes of the map object *)

Lemma data_read_own c p (d : entry) : data c !! p = Some d -> data_read c p = Wrapper d.
Proof. intros H. unfold data_read. rewrite H. reflexivity. Qed.

Lemma data_read_not_own c p :
  data c !! p = None -> data_read c p = inherited (proto c) p.
Proof. intros H. unfold data_read. rewrite H. reflexivity. Qed.

Lemma present_absent c p :
  data c !! p = None -> not_inherited c p -> present (data_read c p) = false.
Proof. intros Hd Hn. rewrite data_read_not_own by exact Hd. exact Hn. Qed.

Lemma not_inherited_not_proto c p : not_inherited c p -> p <> "__proto__".
Proof.
  unfold not_inherited, inherited. intros H ->. simpl in H.
  destruct (proto c); discriminate.
Qed.

Lemma not_inherited_same c c' p :
  proto c' = proto c -> not_inherited c p -> not_inherited c' p.
Proof. unfold not_inherited. intros ->. auto. Qed.

Lemma slot_truthy_present s : present s = false -> slot_truthy s = false.
Proof. destruct s as [d | []]; simpl; congruence. Qed.

Lemma stale_wrapper now (d : entry) : stale now (Wrapper d) = expired now d.
Proof. unfold stale, expired. simpl. destruct (t d); reflexivity. Qed.

Lemma assign_own p w c :
  p <> "__proto__" -> assign p w c = with_data (<[p := w]> (data c)) c.
Proof.
  intros Hp. unfold assign.
  destruct (String.eqb p "__proto__") eqn:E; [| reflexivity].
  apply String.eqb_eq in E. contradiction.
Qed.

Lemma assign_stored p w (d : entry) c :
  data c !! p = Some d -> assign p w c = with_data (<[p := w]> (data c)) c.
Proof.
  intros Hd. unfold assign. rewrite Hd.
  rewrite bool_decide_eq_false_2 by discriminate.
  rewrite andb_false_r. reflexivity.
Qed.

Lemma assign_proto w c :
  data c !! "__proto__" = None -> assign "__proto__" w c = with_proto (Some w) c.
Proof.
  intros Hd. unfold assign. rewrite Hd.
  rewrite bool_decide_eq_true_2 by reflexivity. reflexivity.
Qed.

Lemma assign_cases p w c :
  assign p w c = with_data (<[p := w]> (data c)) c \/
  (p = "__proto__" /\ data c !! p = None /\ assign p w c = with_proto (Some w) c).
Proof.
  destruct (String.eqb p "__proto__") eqn:E.
  - apply String.eqb_eq in E. subst p.
    destruct (data c !! "__proto__") as [d|] eqn:Hd.
    + left. apply (assign_stored _ _ d). exact Hd.
    + right. split; [reflexivity|]. split; [reflexivity|]. apply assign_proto. exact Hd.
  - left. apply assign_own. apply String.eqb_neq. exact E.
Qed.

(** What was just assigned is what a read finds. *)
Lemma data_read_assign p w c : data_read (assign p w c) p = Wrapper w.
Proof.
  destruct (assign_cases p w c) as [-> | (-> & Hd & ->)]; unfold data_read; simpl.
  - rewrite lookup_insert_eq. reflexivity.
  - rewrite Hd. reflexivity.
Qed.

Lemma assign_fields p w c :
  options (assign p w c) = options c /\ clock (assign p w c) = clock c /\
  stats (assign p w c) = stats c /\ emitted (assign p w c) = emitted c /\
  stats_id (assign p w c) = stats_id c /\ retired (assign p w c) = retired c /\
  checkTimeout (assign p w c) = checkTimeout c.
Proof.
  destruct (assign_cases p w c) as [-> | (_ & _ & ->)]; repeat split.
Qed.

Lemma data_read_with_stats s c p : data_read (with_stats s c) p = data_read c p.
Proof. reflexivity. Qed.

Lemma assign_with_stats p w s c :
  assign p w (with_stats s c) = with_stats s (assign p w c).
Proof. unfold assign. simpl. destruct (_ && _); reflexivity. Qed.

(** ** The effect of del on one key *)

Lemma del_key_found key n cnt c :
  valid_key key ->
  present (data_read c (ToPropertyKey key)) = true ->
  measured (options c) (data_read c (ToPropertyKey key)) n ->
  del_key key cnt c =
    (Return (cnt + 1), removed key (data_read c (ToPropertyKey key)) n c).
Proof.
  intros Hv Hp Hn. unfold del_key. rewrite Hv.
  unfold bind, this. rewrite Hp. unfold lift.
  red in Hn. rewrite Hn. reflexivity.
Qed.

Lemma del_key_missing key cnt c :
  valid_key key ->
  present (data_read c (ToPropertyKey key)) = false ->
  del_key key cnt c = (Return cnt, missed c).
Proof.
  intros Hv Hp. unfold del_key. rewrite Hv.
  unfold bind, this. rewrite Hp. reflexivity.
Qed.

Lemma del_key_present key (d : entry) n cnt c :
  valid_key key ->
  data c !! ToPropertyKey key = Some d ->
  measured (options c) d n ->
  del_key key cnt c = (Return (cnt + 1), removed key d n c).
Proof.
  intros Hv Hd Hn. pose proof (data_read_own _ _ _ Hd) as Hr.
  rewrite (del_key_found key n); rewrite ?Hr; auto.
Qed.

Lemma del_key_absent key cnt c :
  valid_key key ->
  data c !! ToPropertyKey key = None ->
  not_inherited c (ToPropertyKey key) ->
  del_key key cnt c = (Return cnt, missed c).
Proof.
  intros Hv Hd Hn. apply del_key_missing; [exact Hv|].
  apply present_absent; assumption.
Qed.

Lemma del_single key c :
  valid_key key -> del key c = bind (del_key key 0) ret c.
Proof.
  intros Hv. destruct (valid_key_inv key Hv) as [[s ->] | [n ->]]; reflexivity.
Qed.

Lemma del_found key n c :
  valid_key key ->
  present (data_read c (ToPropertyKey key)) = true ->
  measured (options c) (data_read c (ToPropertyKey key)) n ->
  del key c = (Return 1, removed key (data_read c (ToPropertyKey key)) n c).
Proof.
  intros Hv Hp Hn. rewrite del_single by assumption.
  unfold bind. rewrite (del_key_found key n) by assumption. reflexivity.
Qed.

Lemma del_missing key c :
  valid_key key ->
  present (data_read c (ToPropertyKey key)) = false ->
  del key c = (Return 0, missed c).
Proof.
  intros Hv Hp. rewrite del_single by assumption.
  unfold bind. rewrite del_key_missing by assumption. reflexivity.
Qed.

Lemma del_present key (d : entry) n c :
  valid_key key ->
  data c !! ToPropertyKey key = Some d ->
  measured (options c) d n ->
  del key c = (Return 1, removed key d n c).
Proof.
  intros Hv Hd Hn. rewrite del_single by assumption.
  unfold bind. rewrite (del_key_present key d n) by assumption. reflexivity.
Qed.

Lemma del_absent key c :
  valid_key key ->
  data c !! ToPropertyKey key = None ->
  not_inherited c (ToPropertyKey key) ->
  del key c = (Return 0, missed c).
Proof.
  intros Hv Hd Hn. rewrite del_single by assumption.
  unfold bind. rewrite del_key_absent by assumption. reflexivity.
Qed.

(** ** The freshness check *)

Lemma _check_found key s c :
  present s = true ->
  stale (clock c) s = false ->
  _check key s c = (Return true, c).
Proof.
  intros Hp He. unfold _check. rewrite Hp. unfold bind, Date_now.
  unfold stale in He. simpl. rewrite He. reflexivity.
Qed.

Lemma _check_stale key n c :
  valid_key key ->
  present (data_read c (ToPropertyKey key)) = true ->
  stale (clock c) (data_read c (ToPropertyKey key)) = true ->
  measured (options c) (data_read c (ToPropertyKey key)) n ->
  _check key (data_read c (ToPropertyKey key)) c =
    (Return false, lapsed key (data_read c (ToPropertyKey key)) n c).
Proof.
  intros Hv Hp He Hn. unfold _check. rewrite Hp. unfold bind, Date_now.
  unfold stale in He. simpl. rewrite He.
  rewrite (del_found key n) by assumption.
  unfold this, emit, modify, ret, lapsed, with_emitted. simpl.
  rewrite <- app_assoc. reflexivity.
Qed.


Lemma present_and_checked_missing key c :
  present (data_read c (ToPropertyKey key)) = false ->
  present_and_checked key c = (Return false, c).
Proof.
  intros Hp. unfold present_and_checked, bind, this. rewrite Hp. reflexivity.
Qed.

Lemma present_and_checked_found key c :
  present (data_read c (ToPropertyKey key)) = true ->
  stale (clock c) (data_read c (ToPropertyKey key)) = false ->
  present_and_checked key c = (Return true, c).
Proof.
  intros Hp He. unfold present_and_checked, bind, this. rewrite Hp.
  apply _check_found; assumption.
Qed.

Lemma present_and_checked_stale key n c :
  valid_key key ->
  present (data_read c (ToPropertyKey key)) = true ->
  stale (clock c) (data_read c (ToPropertyKey key)) = true ->
  measured (options c) (data_read c (ToPropertyKey key)) n ->
  present_and_checked key c =
    (Return false, lapsed key (data_read c (ToPropertyKey key)) n c).
Proof.
  intros Hv Hp He Hn. unfold present_and_checked, bind, this. rewrite Hp.
  apply _check_stale; assumption.
Qed.

(** The three cases, for a key against the stored entries. *)
Lemma own_absent c key :
  data c !! ToPropertyKey key = None ->
  not_inherited c (ToPropertyKey key) ->
  present (data_read c (ToPropertyKey key)) = false.
Proof. apply present_absent. Qed.

Lemma own_fresh c key (d : entry) :
  data c !! ToPropertyKey key = Some d ->
  expired (clock c) d = false ->
  data_read c (ToPropertyKey key) = Wrapper d /\
  present (data_read c (ToPropertyKey key)) = true /\
  stale (clock c) (data_read c (ToPropertyKey key)) = false.
Proof.
  intros Hd He. rewrite (data_read_own _ _ _ Hd), stale_wrapper. auto.
Qed.

Lemma own_expired c key (d : entry) :
  data c !! ToPropertyKey key = Some d ->
  expired (clock c) d = true ->
  data_read c (ToPropertyKey key) = Wrapper d /\
  present (data_read c (ToPropertyKey key)) = true /\
  stale (clock c) (data_read c (ToPropertyKey key)) = true.
Proof.
  intros Hd He. rewrite (data_read_own _ _ _ Hd), stale_wrapper. auto.
Qed.

(** ** get, case by case *)

Lemma get_invalid key eom c :
  ~ valid_key key -> get key eom c = (Throw (EKEYTYPE (typeof key)), c).
Proof.
  intros Hv. unfold get. rewrite (invalid_key_error key Hv). reflexivity.
Qed.

Lemma get_missing key eom c :
  valid_key key ->
  present (data_read c (ToPropertyKey key)) = false ->
  get key eom c = (miss_outcome c key eom, missed c).
Proof.
  intros Hv Hp. unfold get. rewrite Hv. unfold bind at 1.
  rewrite present_and_checked_missing by assumption.
  unfold miss_outcome, bind, update_stats, modify, this. simpl.
  destruct (errorOnMissing (options c) || eom); reflexivity.
Qed.

Lemma get_found key eom c :
  valid_key key ->
  present (data_read c (ToPropertyKey key)) = true ->
  stale (clock c) (data_read c (ToPropertyKey key)) = false ->
  get key eom c =
    (Return (_unwrap (options c) (data_read c (ToPropertyKey key)) true), hit c).
Proof.
  intros Hv Hp He. unfold get. rewrite Hv. unfold bind at 1.
  rewrite present_and_checked_found by assumption.
  mrun. rewrite !data_read_with_stats, Hp. reflexivity.
Qed.

Lemma get_stale key n eom c :
  valid_key key ->
  present (data_read c (ToPropertyKey key)) = true ->
  stale (clock c) (data_read c (ToPropertyKey key)) = true ->
  measured (options c) (data_read c (ToPropertyKey key)) n ->
  get key eom c =
    (miss_outcome c key eom,
     missed (lapsed key (data_read c (ToPropertyKey key)) n c)).
Proof.
  intros Hv Hp He Hn. unfold get. rewrite Hv. unfold bind at 1.
  rewrite (present_and_checked_stale key n) by assumption.
  unfold miss_outcome, bind, update_stats, modify, this. simpl.
  destruct (errorOnMissing (options c) || eom); reflexivity.
Qed.

Lemma get_absent key eom c :
  valid_key key ->
  data c !! ToPropertyKey key = None ->
  not_inherited c (ToPropertyKey key) ->
  get key eom c = (miss_outcome c key eom, missed c).
Proof.
  intros Hv Hd Hn. apply get_missing; [exact Hv|]. apply own_absent; assumption.
Qed.

Lemma get_fresh key (d : entry) eom c :
  valid_key key ->
  data c !! ToPropertyKey key = Some d ->
  expired (clock c) d = false ->
  get key eom c = (Return (_unwrap (options c) d true), hit c).
Proof.
  intros Hv Hd He. destruct (own_fresh c key d Hd He) as (Hr & Hp & Hs).
  rewrite get_found by assumption. rewrite Hr. reflexivity.
Qed.

Lemma get_expired key (d : entry) n eom c :
  valid_key key ->
  data c !! ToPropertyKey key = Some d ->
  expired (clock c) d = true ->
  measured (options c) d n ->
  get key eom c = (miss_outcome c key eom, missed (lapsed key d n c)).
Proof.
  intros Hv Hd He Hn. destruct (own_expired c key d Hd He) as (Hr & Hp & Hs).
  rewrite (get_stale key n) by (try assumption; rewrite Hr; assumption).
  rewrite Hr. reflexivity.
Qed.

(** ** mget, one key at a time *)

Lemma mget_key_missing key oRet c :
  valid_key key ->
  present (data_read c (ToPropertyKey key)) = false ->
  mget_key key oRet c = (Return oRet, missed c).
Proof.
  intros Hv Hp. unfold mget_key. rewrite Hv. unfold bind at 1.
  rewrite present_and_checked_missing by assumption. reflexivity.
Qed.

Lemma mget_key_found key oRet c :
  valid_key key ->
  present (data_read c (ToPropertyKey key)) = true ->
  stale (clock c) (data_read c (ToPropertyKey key)) = false ->
  mget_key key oRet c =
    (Return (oRet_assign (ToPropertyKey key)
               (_unwrap (options c) (data_read c (ToPropertyKey key)) true) oRet),
     hit c).
Proof.
  intros Hv Hp He. unfold mget_key. rewrite Hv. unfold bind at 1.
  rewrite present_and_checked_found by assumption.
  mrun. rewrite !data_read_with_stats, Hp. reflexivity.
Qed.

Lemma mget_key_stale key n oRet c :
  valid_key key ->
  present (data_read c (ToPropertyKey key)) = true ->
  stale (clock c) (data_read c (ToPropertyKey key)) = true ->
  measured (options c) (data_read c (ToPropertyKey key)) n ->
  mget_key key oRet c =
    (Return oRet, missed (lapsed key (data_read c (ToPropertyKey key)) n c)).
Proof.
  intros Hv Hp He Hn. unfold mget_key. rewrite Hv. unfold bind at 1.
  rewrite (present_and_checked_stale key n) by assumption. reflexivity.
Qed.

(** ** ttl and getTtl, case by case *)

Lemma _wrap_number value z b c :
  _wrap value (Some z) b c = (Return {| t := deadline (clock c) z; v := value |}, c).
Proof.
  unfold _wrap, bind, this, Date_now, ret, deadline, clone.
  destruct z; simpl; destruct (if negb _ then _ else _); reflexivity.
Qed.

Lemma ttl_falsy key newTtl c :
  truthy key = false -> ttl key newTtl c = (Return false, c).
Proof.
  intros Hk. unfold ttl, bind, this. rewrite Hk. reflexivity.
Qed.

Lemma ttl_invalid key newTtl c :
  truthy key = true -> ~ valid_key key ->
  ttl key newTtl c = (Throw (EKEYTYPE (typeof key)), c).
Proof.
  intros Hk Hv. unfold ttl, bind at 1, this at 1.
  rewrite Hk, (invalid_key_error key Hv). reflexivity.
Qed.

Lemma ttl_missing key newTtl c :
  truthy key = true -> valid_key key ->
  present (data_read c (ToPropertyKey key)) = false ->
  ttl key newTtl c = (Return false, c).
Proof.
  intros Hk Hv Hp. unfold ttl. unfold bind at 1. unfold this at 1.
  rewrite Hk, Hv. simpl. unfold bind at 1.
  rewrite present_and_checked_missing by assumption. reflexivity.
Qed.

Lemma ttl_stale key n newTtl c :
  truthy key = true -> valid_key key ->
  present (data_read c (ToPropertyKey key)) = true ->
  stale (clock c) (data_read c (ToPropertyKey key)) = true ->
  measured (options c) (data_read c (ToPropertyKey key)) n ->
  ttl key newTtl c =
    (Return false, lapsed key (data_read c (ToPropertyKey key)) n c).
Proof.
  intros Hk Hv Hp He Hn. unfold ttl. unfold bind at 1. unfold this at 1.
  rewrite Hk, Hv. simpl. unfold bind at 1.
  rewrite (present_and_checked_stale key n) by assumption. reflexivity.
Qed.

Lemma ttl_found_rewrap key newTtl c :
  truthy key = true -> valid_key key ->
  present (data_read c (ToPropertyKey key)) = true ->
  stale (clock c) (data_read c (ToPropertyKey key)) = false ->
  0 <= effective_ttl c newTtl ->
  ttl key newTtl c =
    (Return true,
     assign (ToPropertyKey key)
       {| t := deadline (clock c) (effective_ttl c newTtl);
          v := slot_v (data_read c (ToPropertyKey key)) |} c).
Proof.
  intros Hk Hv Hp He Ht. unfold ttl. unfold bind at 1. unfold this at 1.
  rewrite Hk, Hv. simpl. unfold bind at 1.
  rewrite present_and_checked_found by assumption.
  fold (effective_ttl c newTtl).
  apply Z.leb_le in Ht. rewrite Ht.
  unfold bind at 1. unfold bind at 1.
  assert (Hat : data_at key c = (Return (data_read c (ToPropertyKey key)), c))
    by (unfold data_at, bind, this; rewrite Hp; reflexivity).
  rewrite Hat. unfold bind at 1. rewrite _wrap_number. reflexivity.
Qed.

Lemma ttl_found_delete key n newTtl c :
  truthy key = true -> valid_key key ->
  present (data_read c (ToPropertyKey key)) = true ->
  stale (clock c) (data_read c (ToPropertyKey key)) = false ->
  effective_ttl c newTtl < 0 ->
  measured (options c) (data_read c (ToPropertyKey key)) n ->
  ttl key newTtl c =
    (Return true, removed key (data_read c (ToPropertyKey key)) n c).
Proof.
  intros Hk Hv Hp He Hneg Hn. unfold ttl. unfold bind at 1. unfold this at 1.
  rewrite Hk, Hv. simpl. unfold bind at 1.
  rewrite present_and_checked_found by assumption.
  fold (effective_ttl c newTtl).
  apply Z.leb_gt in Hneg. rewrite Hneg.
  unfold bind at 1. unfold bind at 1.
  rewrite (del_found key n) by assumption. reflexivity.
Qed.

Lemma ttl_absent key newTtl c :
  truthy key = true -> valid_key key ->
  data c !! ToPropertyKey key = None ->
  not_inherited c (ToPropertyKey key) ->
  ttl key newTtl c = (Return false, c).
Proof.
  intros Hk Hv Hd Hn. apply ttl_missing; try assumption.
  apply own_absent; assumption.
Qed.

Lemma ttl_expired key (d : entry) n newTtl c :
  truthy key = true -> valid_key key ->
  data c !! ToPropertyKey key = Some d ->
  expired (clock c) d = true ->
  measured (options c) d n ->
  ttl key newTtl c = (Return false, lapsed key d n c).
Proof.
  intros Hk Hv Hd He Hn. destruct (own_expired c key d Hd He) as (Hr & Hp & Hs).
  rewrite (ttl_stale key n) by (try assumption; rewrite Hr; assumption).
  rewrite Hr. reflexivity.
Qed.

Lemma ttl_fresh_rewrap key (d : entry) newTtl c :
  truthy key = true -> valid_key key ->
  data c !! ToPropertyKey key = Some d ->
  expired (clock c) d = false ->
  0 <= effective_ttl c newTtl ->
  ttl key newTtl c =
    (Return true,
     with_data (<[ToPropertyKey key :=
                    {| t := deadline (clock c) (effective_ttl c newTtl); v := v d |}]>
                  (data c)) c).
Proof.
  intros Hk Hv Hd He Ht. destruct (own_fresh c key d Hd He) as (Hr & Hp & Hs).
  rewrite ttl_found_rewrap by assumption.
  rewrite Hr. simpl. rewrite (assign_stored _ _ d) by exact Hd. reflexivity.
Qed.

Lemma ttl_fresh_delete key (d : entry) n newTtl c :
  truthy key = true -> valid_key key ->
  data c !! ToPropertyKey key = Some d ->
  expired (clock c) d = false ->
  effective_ttl c newTtl < 0 ->
  measured (options c) d n ->
  ttl key newTtl c = (Return true, removed key d n c).
Proof.
  intros Hk Hv Hd He Hneg Hn. destruct (own_fresh c key d Hd He) as (Hr & Hp & Hs).
  rewrite (ttl_found_delete key n) by (try assumption; rewrite Hr; assumption).
  rewrite Hr. reflexivity.
Qed.

Lemma getTtl_falsy key c :
  truthy key = false -> getTtl key c = (Return VUndefined, c).
Proof.
  intros Hk. unfold getTtl. rewrite Hk. reflexivity.
Qed.

Lemma getTtl_invalid key c :
  truthy key = true -> ~ valid_key key ->
  getTtl key c = (Throw (EKEYTYPE (typeof key)), c).
Proof.
  intros Hk Hv. unfold getTtl.
  rewrite Hk, (invalid_key_error key Hv). reflexivity.
Qed.

Lemma getTtl_missing key c :
  truthy key = true -> valid_key key ->
  present (data_read c (ToPropertyKey key)) = false ->
  getTtl key c = (Return VUndefined, c).
Proof.
  intros Hk Hv Hp. unfold getTtl. rewrite Hk, Hv. simpl. unfold bind at 1.
  rewrite present_and_checked_missing by assumption. reflexivity.
Qed.

Lemma getTtl_found key c :
  truthy key = true -> valid_key key ->
  present (data_read c (ToPropertyKey key)) = true ->
  stale (clock c) (data_read c (ToPropertyKey key)) = false ->
  getTtl key c = (Return (slot_t (data_read c (ToPropertyKey key))), c).
Proof.
  intros Hk Hv Hp He. unfold getTtl. rewrite Hk, Hv. simpl. unfold bind at 1.
  rewrite present_and_checked_found by assumption.
  mrun. rewrite Hp. reflexivity.
Qed.

Lemma getTtl_stale key n c :
  truthy key = true -> valid_key key ->
  present (data_read c (ToPropertyKey key)) = true ->
  stale (clock c) (data_read c (ToPropertyKey key)) = true ->
  measured (options c) (data_read c (ToPropertyKey key)) n ->
  getTtl key c =
    (Return VUndefined, lapsed key (data_read c (ToPropertyKey key)) n c).
Proof.
  intros Hk Hv Hp He Hn. unfold getTtl. rewrite Hk, Hv. simpl. unfold bind at 1.
  rewrite (present_and_checked_stale key n) by assumption. reflexivity.
Qed.

Lemma getTtl_absent key c :
  truthy key = true -> valid_key key ->
  data c !! ToPropertyKey key = None ->
  not_inherited c (ToPropertyKey key) ->
  getTtl key c = (Return VUndefined, c).
Proof.
  intros Hk Hv Hd Hn. apply getTtl_missing; try assumption.
  apply own_absent; assumption.
Qed.

Lemma getTtl_fresh key (d : entry) c :
  truthy key = true -> valid_key key ->
  data c !! ToPropertyKey key = Some d ->
  expired (clock c) d = false ->
  getTtl key c = (Return (VNum (Fin (t d))), c).
Proof.
  intros Hk Hv Hd He. destruct (own_fresh c key d Hd He) as (Hr & Hp & Hs).
  rewrite getTtl_found by assumption. rewrite Hr. reflexivity.
Qed.

Lemma getTtl_expired key (d : entry) n c :
  truthy key = true -> valid_key key ->
  data c !! ToPropertyKey key = Some d ->
  expired (clock c) d = true ->
  measured (options c) d n ->
  getTtl key c = (Return VUndefined, lapsed key d n c).
Proof.
  intros Hk Hv Hd He Hn. destruct (own_expired c key d Hd He) as (Hr & Hp & Hs).
  rewrite (getTtl_stale key n) by (try assumption; rewrite Hr; assumption).
  rewrite Hr. reflexivity.
Qed.

(** ** set, case by case *)

Lemma _wrap_eq value newTtl b c :
  _wrap value newTtl b c =
    (Return {| t := deadline (clock c) (default (stdTTL (options c)) newTtl);
               v := value |}, c).
Proof.
  destruct newTtl as [z|]; [apply _wrap_number|].
  unfold _wrap, bind, this, Date_now, ret, deadline, clone. simpl.
  destruct (stdTTL (options c) =? 0) eqn:E.
  - apply Z.eqb_eq in E. rewrite E.
    destruct (if negb _ then _ else _); reflexivity.
  - destruct (if negb _ then _ else _); reflexivity.
Qed.

Lemma set_invalid key value newTtl c :
  ~ valid_key key -> set key value newTtl c = (Throw (EKEYTYPE (typeof key)), c).
Proof.
  intros Hv. unfold set, bind at 1, this at 1.
  rewrite (invalid_key_error key Hv). reflexivity.
Qed.

(** The read finds nothing truthy: the key counts as new. *)
Lemma set_unseen key value newTtl n c :
  valid_key key ->
  slot_truthy (data_read c (ToPropertyKey key)) = false ->
  _getValLength (options c) (forced (options c) value) = Return n ->
  set key value newTtl c =
    (Return true,
     with_emitted (emitted c ++ [EvSet key (forced (options c) value)])
       (with_stats
          (keys_incr
             (ksize_add (operand (_getKeyLength key))
                (vsize_add (Fin n) (stats c))))
          (assign (ToPropertyKey key) (written c value newTtl) c))).
Proof.
  intros Hv Ht Hn. unfold set, bind at 1, this at 1.
  fold (forced (options c) value). rewrite Hv, Ht.
  unfold bind at 1. unfold ret at 1. unfold bind at 1.
  rewrite _wrap_eq. unfold bind at 1. unfold modify at 1.
  unfold bind at 1. unfold lift at 1. rewrite Hn.
  fold (written c value newTtl).
  destruct (assign_fields (ToPropertyKey key) (written c value newTtl) c)
    as (Ho & Hc & Hs & He & _).
  mrun. rewrite Hs, He.
  destruct (assign_cases (ToPropertyKey key) (written c value newTtl) c)
    as [-> | (_ & _ & ->)]; reflexivity.
Qed.

(** The read finds something truthy: the key counts as existing. *)
Lemma set_seen key value newTtl m n c :
  valid_key key ->
  slot_truthy (data_read c (ToPropertyKey key)) = true ->
  measured (options c) (data_read c (ToPropertyKey key)) m ->
  _getValLength (options c) (forced (options c) value) = Return n ->
  set key value newTtl c =
    (Return true,
     with_emitted (emitted c ++ [EvSet key (forced (options c) value)])
       (with_stats (vsize_add (Fin n) (vsize_sub (Fin m) (stats c)))
          (assign (ToPropertyKey key) (written c value newTtl) c))).
Proof.
  intros Hv Ht Hm Hn. unfold set, bind at 1, this at 1.
  fold (forced (options c) value). rewrite Hv, Ht.
  unfold bind at 1. unfold bind at 1. unfold lift at 1.
  red in Hm. rewrite Hm.
  unfold bind at 1. unfold update_stats at 1, modify at 1. unfold ret at 1.
  unfold bind at 1. rewrite _wrap_eq. unfold bind at 1. unfold modify at 1.
  unfold bind at 1. unfold lift at 1. rewrite Hn.
  change (clock (with_stats (vsize_sub (Fin m) (stats c)) c)) with (clock c).
  change (options (with_stats (vsize_sub (Fin m) (stats c)) c)) with (options c).
  fold (written c value newTtl).
  rewrite assign_with_stats.
  destruct (assign_fields (ToPropertyKey key) (written c value newTtl) c)
    as (Ho & Hc & Hs & He & _).
  mrun. rewrite He.
  destruct (assign_cases (ToPropertyKey key) (written c value newTtl) c)
    as [-> | (_ & _ & ->)]; reflexivity.
Qed.

(** The serialisation of the new value is [undefined] under [forceString]:
    [set] throws after the entry has been written. *)
Lemma set_unseen_throws key value newTtl e c :
  valid_key key ->
  slot_truthy (data_read c (ToPropertyKey key)) = false ->
  _getValLength (options c) (forced (options c) value) = Throw e ->
  set key value newTtl c =
    (Throw e, assign (ToPropertyKey key) (written c value newTtl) c).
Proof.
  intros Hv Ht Hn. unfold set, bind at 1, this at 1.
  fold (forced (options c) value). rewrite Hv, Ht.
  unfold bind at 1. unfold ret at 1. unfold bind at 1.
  rewrite _wrap_eq. unfold bind at 1. unfold modify at 1.
  unfold bind at 1. unfold lift at 1. rewrite Hn.
  reflexivity.
Qed.

Lemma set_seen_throws key value newTtl m e c :
  valid_key key ->
  slot_truthy (data_read c (ToPropertyKey key)) = true ->
  measured (options c) (data_read c (ToPropertyKey key)) m ->
  _getValLength (options c) (forced (options c) value) = Throw e ->
  set key value newTtl c =
    (Throw e,
     with_stats (vsize_sub (Fin m) (stats c))
       (assign (ToPropertyKey key) (written c value newTtl) c)).
Proof.
  intros Hv Ht Hm Hn. unfold set, bind at 1, this at 1.
  fold (forced (options c) value). rewrite Hv, Ht.
  unfold bind at 1. unfold bind at 1. unfold lift at 1.
  red in Hm. rewrite Hm.
  unfold bind at 1. unfold update_stats at 1, modify at 1. unfold ret at 1.
  unfold bind at 1. rewrite _wrap_eq. unfold bind at 1. unfold modify at 1.
  unfold bind at 1. unfold lift at 1. rewrite Hn.
  change (clock (with_stats (vsize_sub (Fin m) (stats c)) c)) with (clock c).
  change (options (with_stats (vsize_sub (Fin m) (stats c)) c)) with (options c).
  fold (written c value newTtl).
  rewrite assign_with_stats. reflexivity.
Qed.

(** The same four cases for a key against the stored entries. *)
Lemma set_new key value newTtl n c :
  valid_key key ->
  data c !! ToPropertyKey key = None ->
  not_inherited c (ToPropertyKey key) ->
  _getValLength (options c) (forced (options c) value) = Return n ->
  set key value newTtl c =
    (Return true,
     with_emitted (emitted c ++ [EvSet key (forced (options c) value)])
       (with_data (<[ToPropertyKey key := written c value newTtl]> (data c))
          (with_stats
             (keys_incr
                (ksize_add (operand (_getKeyLength key))
                   (vsize_add (Fin n) (stats c)))) c))).
Proof.
  intros Hv Hd Hi Hn.
  rewrite (set_unseen key value newTtl n) by
    (try assumption; apply slot_truthy_present, present_absent; assumption).
  rewrite assign_own by (eapply not_inherited_not_proto; exact Hi).
  reflexivity.
Qed.

Lemma set_overwrite key value newTtl (old : entry) m n c :
  valid_key key ->
  data c !! ToPropertyKey key = Some old ->
  measured (options c) old m ->
  _getValLength (options c) (forced (options c) value) = Return n ->
  set key value newTtl c =
    (Return true,
     with_emitted (emitted c ++ [EvSet key (forced (options c) value)])
       (with_data (<[ToPropertyKey key := written c value newTtl]> (data c))
          (with_stats (vsize_add (Fin n) (vsize_sub (Fin m) (stats c))) c))).
Proof.
  intros Hv Hd Hm Hn. pose proof (data_read_own _ _ _ Hd) as Hr.
  rewrite (set_seen key value newTtl m n) by
    (try assumption; rewrite Hr; (reflexivity || assumption)).
  rewrite (assign_stored _ _ old) by exact Hd. reflexivity.
Qed.

Lemma set_new_throws key value newTtl e c :
  valid_key key ->
  data c !! ToPropertyKey key = None ->
  not_inherited c (ToPropertyKey key) ->
  _getValLength (options c) (forced (options c) value) = Throw e ->
  set key value newTtl c =
    (Throw e,
     with_data (<[ToPropertyKey key := written c value newTtl]> (data c)) c).
Proof.
  intros Hv Hd Hi Hn.
  rewrite (set_unseen_throws key value newTtl e) by
    (try assumption; apply slot_truthy_present, present_absent; assumption).
  rewrite assign_own by (eapply not_inherited_not_proto; exact Hi).
  reflexivity.
Qed.

Lemma set_overwrite_throws key value newTtl (old : entry) m e c :
  valid_key key ->
  data c !! ToPropertyKey key = Some old ->
  measured (options c) old m ->
  _getValLength (options c) (forced (options c) value) = Throw e ->
  set key value newTtl c =
    (Throw e,
     with_data (<[ToPropertyKey key := written c value newTtl]> (data c))
       (with_stats (vsize_sub (Fin m) (stats c)) c)).
Proof.
  intros Hv Hd Hm Hn. pose proof (data_read_own _ _ _ Hd) as Hr.
  rewrite (set_seen_throws key value newTtl m e) by
    (try assumption; rewrite Hr; (reflexivity || assumption)).
  rewrite (assign_stored _ _ old) by exact Hd. reflexivity.
Qed.

(** ** Stored values can always be measured

    Under [forceString], [_getValLength] throws on a value without a JSON
    serialisation.  No such value is ever measured by [del] or by an
    overwriting [set]: a wrapper then holds a string, [undefined] or
    [null], and this is an invariant of the methods. *)

Lemma storable_forced o value : storable o (forced o value).
Proof.
  intros Hf. unfold forced. rewrite Hf. simpl.
  destruct (isString value) eqn:Hs; simpl; [left; exact Hs|].
  destruct (JSON_stringify value); [left | right]; reflexivity.
Qed.

Lemma measurable_without_forceString o s :
  forceString o = false -> measurable o s.
Proof.
  intros Hf. unfold measurable, measured, _getValLength. rewrite Hf.
  destruct (_unwrap o s false); simpl; eauto.
Qed.

Lemma measurable_storable o s : storable o (slot_v s) -> measurable o s.
Proof.
  intros Hs. destruct (forceString o) eqn:Hf;
    [| apply measurable_without_forceString; exact Hf].
  unfold measurable, measured, _unwrap, _getValLength. rewrite Hf.
  destruct (Hs Hf) as [H | H].
  - destruct (slot_v s); try discriminate. simpl.
    destruct (if negb (useClones o) then false else false); eauto.
  - rewrite H. simpl. eauto.
Qed.

Lemma storable_undefined o : storable o VUndefined.
Proof. intros _. right. reflexivity. Qed.

Lemma storable_slot_v c p :
  well_measured c -> storable (options c) (slot_v (data_read c p)).
Proof.
  intros [Hown Hproto]. unfold data_read.
  destruct (data c !! p) as [d|] eqn:Hd; [exact (Hown _ _ Hd)|].
  unfold inherited.
  destruct (String.eqb p "__proto__").
  { destruct (proto c) as [w|] eqn:Hw; [exact (Hproto _ eq_refl)|].
    apply storable_undefined. }
  destruct (proto c) as [w|] eqn:Hw.
  - destruct (String.eqb p "t"); [apply storable_undefined|].
    destruct (String.eqb p "v").
    + intros Hf. right. simpl.
      destruct (Hproto _ eq_refl Hf) as [H | H]; destruct (v w); try discriminate;
        reflexivity.
    + unfold Object_prototype_get. destruct (bool_decide _); apply storable_undefined.
  - unfold Object_prototype_get. destruct (bool_decide _); apply storable_undefined.
Qed.

Lemma data_read_measurable c p :
  well_measured c -> measurable (options c) (data_read c p).
Proof. intros Hwm. apply measurable_storable, storable_slot_v. exact Hwm. Qed.

Lemma well_measured_same c c' :
  options c' = options c -> data c' = data c -> proto c' = proto c ->
  well_measured c -> well_measured c'.
Proof.
  intros Ho Hd Hp [H1 H2]. unfold well_measured. rewrite Ho, Hd, Hp. auto.
Qed.

Lemma well_measured_removed key s n c :
  well_measured c -> well_measured (removed key s n c).
Proof.
  intros [H1 H2]. split; [| exact H2].
  intros k d Hk. simpl in Hk. apply lookup_delete_Some in Hk.
  destruct Hk as [_ Hk]. exact (H1 _ _ Hk).
Qed.

Lemma well_measured_lapsed key s n c :
  well_measured c -> well_measured (lapsed key s n c).
Proof.
  intros H. apply (well_measured_removed key s n) in H. exact H.
Qed.

Lemma well_measured_assign p w c :
  storable (options c) (v w) -> well_measured c -> well_measured (assign p w c).
Proof.
  intros Hw [H1 H2].
  destruct (assign_cases p w c) as [-> | (_ & _ & ->)]; split; simpl.
  - intros k d Hk. apply lookup_insert_Some in Hk.
    destruct Hk as [[_ <-] | [_ Hk]]; [exact Hw | exact (H1 _ _ Hk)].
  - exact H2.
  - exact H1.
  - intros w' Hw'. injection Hw' as <-. exact Hw.
Qed.

Lemma well_measured_assigned p w c c' :
  options c' = options (assign p w c) ->
  data c' = data (assign p w c) ->
  proto c' = proto (assign p w c) ->
  storable (options c) (v w) -> well_measured c -> well_measured c'.
Proof.
  intros Ho Hd Hp Hw Hwm.
  apply (well_measured_same (assign p w c)); try assumption.
  apply well_measured_assign; assumption.
Qed.

Lemma storable_written c value newTtl :
  storable (options c) (v (written c value newTtl)).
Proof. apply storable_forced. Qed.

Lemma well_measured_get key eom c :
  well_measured c -> well_measured (after (get key eom) c).
Proof.
  intros Hwm. unfold after.
  destruct (valid_key_dec key) as [Hv | Hv];
    [| rewrite get_invalid by assumption; exact Hwm].
  destruct (read_status_of c key) as [Hp | Hp He | Hp He].
  - rewrite get_missing by assumption. exact Hwm.
  - rewrite get_found by assumption. exact Hwm.
  - destruct (data_read_measurable c (ToPropertyKey key) Hwm) as [n Hn].
    rewrite (get_stale key n) by assumption.
    apply (well_measured_lapsed key (data_read c (ToPropertyKey key)) n) in Hwm. exact Hwm.
Qed.

Lemma well_measured_del_key key cnt c :
  well_measured c -> well_measured (snd (del_key key cnt c)).
Proof.
  intros Hwm.
  destruct (valid_key_dec key) as [Hv | Hv].
  - destruct (present (data_read c (ToPropertyKey key))) eqn:Hp.
    + destruct (data_read_measurable c (ToPropertyKey key) Hwm) as [n Hn].
      rewrite (del_key_found key n) by assumption.
      apply well_measured_removed. exact Hwm.
    + rewrite del_key_missing by assumption. exact Hwm.
  - unfold del_key. rewrite (invalid_key_error key Hv). exact Hwm.
Qed.

Lemma well_measured_del_loop ks cnt c :
  well_measured c -> well_measured (snd (del_loop ks cnt c)).
Proof.
  revert cnt c. induction ks as [| key rest IH]; intros cnt c Hwm; [exact Hwm|].
  simpl. unfold bind.
  pose proof (well_measured_del_key key cnt c Hwm) as H1.
  destruct (del_key key cnt c) as [[cnt' | e] c1]; simpl in H1.
  - apply IH. exact H1.
  - exact H1.
Qed.

Lemma well_measured_del ks c :
  well_measured c -> well_measured (after (del ks) c).
Proof.
  intros Hwm. unfold after, del. apply well_measured_del_loop. exact Hwm.
Qed.

Lemma well_measured_check key s c :
  well_measured c -> well_measured (snd (_check key s c)).
Proof.
  intros Hwm. unfold _check.
  destruct (present s); simpl; [| exact Hwm].
  unfold bind, Date_now.
  destruct (is_not_zero (slot_t s) && less_than (slot_t s) (clock c)); [| exact Hwm].
  pose proof (well_measured_del key c Hwm) as H1. unfold after in H1.
  destruct (del key c) as [[n | e] c1]; simpl in *; exact H1.
Qed.

Lemma well_measured_present_and_checked key c :
  well_measured c -> well_measured (snd (present_and_checked key c)).
Proof.
  intros Hwm. unfold present_and_checked, bind, this.
  destruct (present (data_read c (ToPropertyKey key))); [| exact Hwm].
  apply well_measured_check. exact Hwm.
Qed.

Lemma well_measured_mget_key key oRet c :
  well_measured c -> well_measured (snd (mget_key key oRet c)).
Proof.
  intros Hwm.
  destruct (valid_key_dec key) as [Hv | Hv];
    [| unfold mget_key; rewrite (invalid_key_error key Hv); exact Hwm].
  destruct (read_status_of c key) as [Hp | Hp He | Hp He].
  - rewrite mget_key_missing by assumption. exact Hwm.
  - rewrite mget_key_found by assumption. exact Hwm.
  - destruct (data_read_measurable c (ToPropertyKey key) Hwm) as [n Hn].
    rewrite (mget_key_stale key n) by assumption.
    apply (well_measured_lapsed key (data_read c (ToPropertyKey key)) n) in Hwm. exact Hwm.
Qed.

Lemma well_measured_mget_loop ks oRet c :
  well_measured c -> well_measured (snd (mget_loop ks oRet c)).
Proof.
  revert oRet c. induction ks as [| key rest IH]; intros oRet c Hwm; [exact Hwm|].
  simpl. unfold bind.
  pose proof (well_measured_mget_key key oRet c Hwm) as H1.
  destruct (mget_key key oRet c) as [[oRet' | e] c1]; simpl in H1.
  - apply IH. exact H1.
  - exact H1.
Qed.

Lemma well_measured_mget ks c :
  well_measured c -> well_measured (after (mget ks) c).
Proof.
  intros Hwm. unfold after, mget. destruct ks; try exact Hwm.
  unfold bind.
  pose proof (well_measured_mget_loop l empty_object c Hwm) as H1.
  destruct (mget_loop l empty_object c) as [[oRet | e] c1]; exact H1.
Qed.

Lemma well_measured_set key value newTtl c :
  well_measured c -> well_measured (after (set key value newTtl) c).
Proof.
  intros Hwm. unfold after.
  destruct (valid_key_dec key) as [Hv | Hv];
    [| rewrite set_invalid by assumption; exact Hwm].
  pose proof (storable_written c value newTtl) as Hw.
  destruct (data_read_measurable c (ToPropertyKey key) Hwm) as [m Hm].
  destruct (_getValLength (options c) (forced (options c) value)) as [n | e] eqn:Hn;
    destruct (slot_truthy (data_read c (ToPropertyKey key))) eqn:Ht.
  - rewrite (set_seen key value newTtl m n) by assumption.
    revert Hwm. eapply well_measured_assigned; [reflexivity .. | exact Hw].
  - rewrite (set_unseen key value newTtl n) by assumption.
    revert Hwm. eapply well_measured_assigned; [reflexivity .. | exact Hw].
  - rewrite (set_seen_throws key value newTtl m e) by assumption.
    revert Hwm. eapply well_measured_assigned; [reflexivity .. | exact Hw].
  - rewrite (set_unseen_throws key value newTtl e) by assumption.
    revert Hwm. eapply well_measured_assigned; [reflexivity .. | exact Hw].
Qed.

Lemma well_measured_ttl key newTtl c :
  well_measured c -> well_measured (after (ttl key newTtl) c).
Proof.
  intros Hwm. unfold after.
  destruct (truthy key) eqn:Hk; [| rewrite ttl_falsy by assumption; exact Hwm].
  destruct (valid_key_dec key) as [Hv | Hv];
    [| rewrite ttl_invalid by assumption; exact Hwm].
  destruct (data_read_measurable c (ToPropertyKey key) Hwm) as [n Hn].
  destruct (read_status_of c key) as [Hp | Hp He | Hp He].
  - rewrite ttl_missing by assumption. exact Hwm.
  - destruct (Z_le_gt_dec 0 (effective_ttl c newTtl)) as [Hle | Hgt].
    + rewrite ttl_found_rewrap by assumption.
      apply well_measured_assign; [| exact Hwm].
      apply storable_slot_v. exact Hwm.
    + rewrite (ttl_found_delete key n) by (assumption || lia).
      apply well_measured_removed. exact Hwm.
  - rewrite (ttl_stale key n) by assumption.
    apply (well_measured_lapsed key (data_read c (ToPropertyKey key)) n) in Hwm. exact Hwm.
Qed.

Lemma well_measured_getTtl key c :
  well_measured c -> well_measured (after (getTtl key) c).
Proof.
  intros Hwm. unfold after.
  destruct (truthy key) eqn:Hk; [| rewrite getTtl_falsy by assumption; exact Hwm].
  destruct (valid_key_dec key) as [Hv | Hv];
    [| rewrite getTtl_invalid by assumption; exact Hwm].
  destruct (data_read_measurable c (ToPropertyKey key) Hwm) as [n Hn].
  destruct (read_status_of c key) as [Hp | Hp He | Hp He].
  - rewrite getTtl_missing by assumption. exact Hwm.
  - rewrite getTtl_found by assumption. exact Hwm.
  - rewrite (getTtl_stale key n) by assumption.
    apply (well_measured_lapsed key (data_read c (ToPropertyKey key)) n) in Hwm. exact Hwm.
Qed.

Lemma well_measured_checkData_loop l c :
  well_measured c -> well_measured (snd (_checkData_loop l c)).
Proof.
  revert c. induction l as [| key rest IH]; intros c Hwm; [exact Hwm|].
  simpl. unfold bind, this.
  pose proof (well_measured_check (VStr key) (data_read c key) c Hwm) as H1.
  destruct (_check (VStr key) (data_read c key) c) as [[b | e] c1]; simpl in H1.
  - apply IH. exact H1.
  - exact H1.
Qed.

Lemma well_measured_checkData r b c :
  well_measured c -> well_measured (snd (_checkData r b c)).
Proof.
  intros Hwm. destruct r; simpl.
  - unfold bind at 1, this at 1. unfold bind.
    pose proof (well_measured_checkData_loop (enumerated c) c Hwm) as H1.
    destruct (_checkData_loop (enumerated c) c) as [[[] | e] c1];
      simpl in H1; [| exact H1].
    destruct (b && (0 <? checkperiod (options c))); exact H1.
  - destruct b; exact Hwm.
Qed.

Lemma well_measured_empty c : data c = ∅ -> proto c = None -> well_measured c.
Proof.
  intros He Hp. split.
  - intros k d Hk. rewrite He, lookup_empty in Hk. discriminate.
  - intros w Hw. rewrite Hp in Hw. discriminate.
Qed.

Lemma well_measured_flushAll b c : well_measured (after (flushAll b) c).
Proof.
  unfold after, flushAll. unfold bind at 1, modify at 1.
  unfold bind at 1, modify at 1. unfold bind at 1, _killCheckPeriod, modify at 1.
  unfold bind.
  match goal with |- context [_checkData TheCache b ?c1] =>
    pose proof (well_measured_checkData TheCache b c1
                  (well_measured_empty c1 eq_refl eq_refl)) as H1;
    destruct (_checkData TheCache b c1) as [[[] | e] c2]
  end; exact H1.
Qed.

Lemma well_measured_constructor o now : well_measured (constructor o now).
Proof.
  unfold constructor. apply well_measured_checkData.
  apply well_measured_empty; reflexivity.
Qed.

Lemma well_measured_timer_fires c :
  well_measured c -> well_measured (after timer_fires c).
Proof.
  intros Hwm. unfold after, timer_fires, bind, this.
  destruct (checkTimeout c); exact Hwm.
Qed.

(** ** Reachable states *)

Lemma well_measured_step a c : well_measured c -> well_measured (step a c).
Proof.
  intros Hwm. destruct a; simpl.
  - apply well_measured_set; assumption.
  - apply well_measured_get; assumption.
  - apply well_measured_mget; assumption.
  - apply well_measured_del; assumption.
  - apply well_measured_ttl; assumption.
  - apply well_measured_getTtl; assumption.
  - exact Hwm.
  - apply well_measured_flushAll.
  - exact Hwm.
  - exact Hwm.
  - apply well_measured_timer_fires; assumption.
  - unfold mutate_stats. destruct (decide _); exact Hwm.
Qed.

Lemma reachable_well_measured c : reachable c -> well_measured c.
Proof.
  induction 1 as [o now | a c _ IH].
  - apply well_measured_constructor.
  - apply well_measured_step. exact IH.
Qed.

(** ** What every method keeps

    A relation between the state a method starts in and the state it
    leaves is kept by the method as soon as it is kept by the elementary
    steps of the class, and, for the methods that write an entry, by an
    assignment to the map. *)

Section Preserved.

Variable R : NodeCache -> NodeCache -> Prop.
Hypothesis R_kept : elementary R.
Hypothesis R_assign : forall p w c, R c (assign p w c).

Lemma preserves_ret {A} (a : A) : preserves R (ret a).
Proof. intros c. apply (kept_refl R R_kept). Qed.

Lemma preserves_throw {A} e : preserves R (@throw A e).
Proof. intros c. apply (kept_refl R R_kept). Qed.

Lemma preserves_lift {A} (r : outcome A) : preserves R (lift r).
Proof. intros c. apply (kept_refl R R_kept). Qed.

Lemma preserves_this : preserves R this.
Proof. intros c. apply (kept_refl R R_kept). Qed.

Lemma preserves_Date_now : preserves R Date_now.
Proof. intros c. apply (kept_refl R R_kept). Qed.

Lemma preserves_bind {A B} (m : M A) (k : A -> M B) :
  preserves R m -> (forall a, preserves R (k a)) -> preserves R (bind m k).
Proof.
  intros Hm Hk c. unfold bind. specialize (Hm c).
  destruct (m c) as [[a | e] c1]; simpl in *.
  - eapply (kept_trans R R_kept); [exact Hm | apply Hk].
  - exact Hm.
Qed.

Lemma preserves_update f : stats_assignment f -> preserves R (update_stats f).
Proof. intros Hf c. apply (kept_stats R R_kept). exact Hf. Qed.

Lemma preserves_emit e : preserves R (emit e).
Proof. intros c. apply (kept_emitted R R_kept). Qed.

Lemma preserves_assign p w : preserves R (modify (assign p w)).
Proof. intros c. apply R_assign. Qed.

Lemma preserves_delete p : preserves R (modify (delete_property p)).
Proof. intros c. apply (kept_delete R R_kept). Qed.

Lemma preserves_timeout h : preserves R (modify (with_timeout h)).
Proof. intros c. apply (kept_timeout R R_kept). Qed.

#[local] Hint Resolve preserves_ret preserves_throw preserves_lift preserves_this
  preserves_Date_now preserves_update preserves_emit preserves_assign
  preserves_delete preserves_timeout : preserved.

Lemma del_key_preserves key cnt : preserves R (del_key key cnt).
Proof. unfold del_key. preserving @preserves_bind. Qed.

Lemma del_loop_preserves ks : forall cnt, preserves R (del_loop ks cnt).
Proof.
  induction ks as [| key rest IH]; intros cnt; cbn [del_loop];
    pose proof del_key_preserves; preserving @preserves_bind.
Qed.

Lemma del_preserves ks : preserves R (del ks).
Proof. unfold del. apply del_loop_preserves. Qed.

Lemma _check_preserves key s : preserves R (_check key s).
Proof. unfold _check. pose proof (del_preserves key). preserving @preserves_bind. Qed.

Lemma present_and_checked_preserves key : preserves R (present_and_checked key).
Proof.
  unfold present_and_checked. pose proof (_check_preserves key). preserving @preserves_bind.
Qed.

Lemma data_at_preserves key : preserves R (data_at key).
Proof. unfold data_at. preserving @preserves_bind. Qed.

Lemma get_preserves key eom : preserves R (get key eom).
Proof.
  unfold get. pose proof (present_and_checked_preserves key).
  pose proof (data_at_preserves key). preserving @preserves_bind.
Qed.

Lemma mget_key_preserves key oRet : preserves R (mget_key key oRet).
Proof.
  unfold mget_key. pose proof (present_and_checked_preserves key).
  pose proof (data_at_preserves key). preserving @preserves_bind.
Qed.

Lemma mget_loop_preserves ks : forall oRet, preserves R (mget_loop ks oRet).
Proof.
  induction ks as [| key rest IH]; intros oRet; cbn [mget_loop];
    pose proof mget_key_preserves; preserving @preserves_bind.
Qed.

Lemma mget_preserves ks : preserves R (mget ks).
Proof. unfold mget. pose proof mget_loop_preserves. preserving @preserves_bind. Qed.

Lemma getTtl_preserves key : preserves R (getTtl key).
Proof.
  unfold getTtl. pose proof (present_and_checked_preserves key).
  pose proof (data_at_preserves key). preserving @preserves_bind.
Qed.

Lemma _wrap_preserves value newTtl b : preserves R (_wrap value newTtl b).
Proof. unfold _wrap. preserving @preserves_bind. Qed.

Lemma set_preserves key value newTtl : preserves R (set key value newTtl).
Proof. unfold set. pose proof _wrap_preserves. preserving @preserves_bind. Qed.

Lemma ttl_preserves key newTtl : preserves R (ttl key newTtl).
Proof.
  unfold ttl. pose proof (present_and_checked_preserves key).
  pose proof (data_at_preserves key). pose proof _wrap_preserves.
  pose proof (del_preserves key). preserving @preserves_bind.
Qed.

Lemma _checkData_loop_preserves l : preserves R (_checkData_loop l).
Proof.
  induction l as [| key rest IH]; cbn [_checkData_loop];
    pose proof _check_preserves; preserving @preserves_bind.
Qed.

Lemma _checkData_preserves r b : preserves R (_checkData r b).
Proof. unfold _checkData. pose proof _checkData_loop_preserves. preserving @preserves_bind. Qed.

Lemma timer_fires_preserves : preserves R timer_fires.
Proof. unfold timer_fires. pose proof _checkData_preserves. preserving @preserves_bind. Qed.

Lemma close_preserves : preserves R close.
Proof. unfold close, _killCheckPeriod. preserving @preserves_bind. Qed.

Lemma getStats_preserves : preserves R getStats.
Proof. unfold getStats. preserving @preserves_bind. Qed.

Lemma keys_preserves : preserves R keys_.
Proof. unfold keys_. preserving @preserves_bind. Qed.

End Preserved.

(** ** The frame of a method call *)

Lemma frame_refl c : frame c c.
Proof. repeat split. Qed.

Lemma frame_trans c1 c2 c3 : frame c1 c2 -> frame c2 c3 -> frame c1 c3.
Proof.
  intros (H1 & H2 & H3 & H4) (H5 & H6 & H7 & H8). unfold frame.
  rewrite H5, H6, H7, H8. auto.
Qed.

Lemma frame_assign p w c : frame c (assign p w c).
Proof.
  destruct (assign_fields p w c) as (Ho & Hc & _ & _ & Hi & Hr & _).
  repeat split; assumption.
Qed.

Lemma frame_elementary : elementary frame.
Proof.
  split; [exact frame_refl | exact frame_trans | intros; repeat split ..].
Qed.

Lemma set_frame key value newTtl : preserves frame (set key value newTtl).
Proof. apply set_preserves; first [exact frame_elementary | exact frame_assign]. Qed.

Lemma get_frame key eom : preserves frame (get key eom).
Proof. apply get_preserves; first [exact frame_elementary | exact frame_assign]. Qed.

Lemma mget_frame ks : preserves frame (mget ks).
Proof. apply mget_preserves; first [exact frame_elementary | exact frame_assign]. Qed.

Lemma del_frame ks : preserves frame (del ks).
Proof. apply del_preserves; first [exact frame_elementary | exact frame_assign]. Qed.

Lemma ttl_frame key newTtl : preserves frame (ttl key newTtl).
Proof. apply ttl_preserves; first [exact frame_elementary | exact frame_assign]. Qed.

Lemma getTtl_frame key : preserves frame (getTtl key).
Proof. apply getTtl_preserves; first [exact frame_elementary | exact frame_assign]. Qed.

Lemma timer_fires_frame : preserves frame timer_fires.
Proof. apply timer_fires_preserves; first [exact frame_elementary | exact frame_assign]. Qed.

Lemma _checkData_frame r b : preserves frame (_checkData r b).
Proof. apply _checkData_preserves; first [exact frame_elementary | exact frame_assign]. Qed.

(** No call but [flushAll] replaces the statistics object. *)
Lemma step_keeps_stats_object a c :
  (forall b, a <> CallFlushAll b) -> stats_id (step a c) = stats_id c.
Proof.
  intros Hnf. destruct a; simpl.
  - apply (set_frame key value newTtl c).
  - apply (get_frame key errorOnMissing_arg c).
  - apply (mget_frame ks c).
  - apply (del_frame ks c).
  - apply (ttl_frame key newTtl c).
  - apply (getTtl_frame key c).
  - reflexivity.
  - destruct (Hnf startPeriod). reflexivity.
  - reflexivity.
  - reflexivity.
  - apply (timer_fires_frame c).
  - unfold mutate_stats. destruct (decide _); reflexivity.
Qed.

Lemma run_keeps_stats_object l : forall c,
  flushless l -> stats_id (run l c) = stats_id c.
Proof.
  induction l as [| a rest IH]; intros c Hl; [reflexivity|].
  inversion Hl as [| ? ? Ha Hrest]; subst. simpl.
  rewrite IH by exact Hrest. apply step_keeps_stats_object. exact Ha.
Qed.

(** ** The prototype of the map *)

Lemma same_chain_refl c : same_chain c c.
Proof. reflexivity. Qed.

Lemma same_chain_trans c1 c2 c3 :
  same_chain c1 c2 -> same_chain c2 c3 -> same_chain c1 c3.
Proof. unfold same_chain. congruence. Qed.

Lemma same_chain_elementary : elementary same_chain.
Proof.
  split; [exact same_chain_refl | exact same_chain_trans | intros; reflexivity ..].
Qed.

(** Only an assignment can change the prototype: [get], [mget], [del]
    and [getTtl] leave it as it is. *)
Lemma get_same_chain key eom : preserves same_chain (get key eom).
Proof. apply get_preserves; exact same_chain_elementary. Qed.

Lemma mget_key_same_chain key oRet : preserves same_chain (mget_key key oRet).
Proof. apply mget_key_preserves; exact same_chain_elementary. Qed.

Lemma del_key_same_chain key cnt : preserves same_chain (del_key key cnt).
Proof. apply del_key_preserves; exact same_chain_elementary. Qed.

Lemma del_same_chain ks : preserves same_chain (del ks).
Proof. apply del_preserves; exact same_chain_elementary. Qed.

Lemma getTtl_same_chain key : preserves same_chain (getTtl key).
Proof. apply getTtl_preserves; exact same_chain_elementary. Qed.

Lemma _check_same_chain key s : preserves same_chain (_check key s).
Proof. apply _check_preserves; exact same_chain_elementary. Qed.

(** ** How the methods touch the statistics *)

Lemma stats_update_trans s1 s2 s3 :
  stats_update s1 s2 -> stats_update s2 s3 -> stats_update s1 s3.
Proof.
  intros H12 H23. induction H23; [exact H12 | constructor; assumption ..].
Qed.

Lemma counting_refl c : counting c c.
Proof. apply upd_refl. Qed.

Lemma counting_trans c1 c2 c3 : counting c1 c2 -> counting c2 c3 -> counting c1 c3.
Proof. apply stats_update_trans. Qed.

Lemma counting_stats f c :
  stats_assignment f -> counting c (with_stats (f (stats c)) c).
Proof.
  intros Hf. unfold counting. simpl.
  destruct Hf; constructor; apply upd_refl.
Qed.

Lemma counting_assign p w c : counting c (assign p w c).
Proof.
  unfold counting. destruct (assign_fields p w c) as (_ & _ & -> & _).
  apply upd_refl.
Qed.

Lemma counting_elementary : elementary counting.
Proof.
  split; [exact counting_refl | exact counting_trans | exact counting_stats
         | intros; apply upd_refl ..].
Qed.

Lemma stats_update_set key value newTtl : preserves counting (set key value newTtl).
Proof. apply set_preserves; first [exact counting_elementary | exact counting_assign]. Qed.

Lemma stats_update_get key eom : preserves counting (get key eom).
Proof. apply get_preserves; first [exact counting_elementary | exact counting_assign]. Qed.

Lemma stats_update_mget ks : preserves counting (mget ks).
Proof. apply mget_preserves; first [exact counting_elementary | exact counting_assign]. Qed.

Lemma stats_update_del ks : preserves counting (del ks).
Proof. apply del_preserves; first [exact counting_elementary | exact counting_assign]. Qed.

Lemma stats_update_ttl key newTtl : preserves counting (ttl key newTtl).
Proof. apply ttl_preserves; first [exact counting_elementary | exact counting_assign]. Qed.

Lemma stats_update_getTtl key : preserves counting (getTtl key).
Proof. apply getTtl_preserves; first [exact counting_elementary | exact counting_assign]. Qed.

Lemma stats_update_timer_fires : preserves counting timer_fires.
Proof. apply timer_fires_preserves; first [exact counting_elementary | exact counting_assign]. Qed.

(** Every call but [flushAll] changes the statistics by assignments of the
    listed kinds only. *)
Lemma stats_update_step a c :
  quiet a ->
  (forall b, a <> CallFlushAll b) ->
  stats_update (stats c) (stats (step a c)).
Proof.
  intros Hq Hnf. destruct a; simpl in *.
  - apply (stats_update_set key value newTtl c).
  - apply (stats_update_get key errorOnMissing_arg c).
  - apply (stats_update_mget ks c).
  - apply (stats_update_del ks c).
  - apply (stats_update_ttl key newTtl c).
  - apply (stats_update_getTtl key c).
  - apply upd_refl.
  - destruct (Hnf startPeriod). reflexivity.
  - apply upd_refl.
  - apply upd_refl.
  - apply (stats_update_timer_fires c).
  - contradiction.
Qed.


Lemma monotone_update s s' h m :
  stats_update s s' -> hits s = Fin h -> misses s = Fin m ->
  exists h' m', hits s' = Fin h' /\ misses s' = Fin m' /\ h <= h' /\ m <= m'.
Proof.
  intros Hu Hh Hm. induction Hu.
  - exists h, m. repeat split; (assumption || lia).
  - destruct IHHu as (h' & m' & H1 & H2 & H3 & H4).
    exists (h' + 1), m'. simpl. rewrite H1. simpl. repeat split; (assumption || lia).
  - destruct IHHu as (h' & m' & H1 & H2 & H3 & H4).
    exists h', (m' + 1). simpl. rewrite H2. simpl. repeat split; (assumption || lia).
  - destruct IHHu as (h' & m' & H1 & H2 & H3 & H4). exists h', m'. auto.
  - destruct IHHu as (h' & m' & H1 & H2 & H3 & H4). exists h', m'. auto.
  - destruct IHHu as (h' & m' & H1 & H2 & H3 & H4). exists h', m'. auto.
  - destruct IHHu as (h' & m' & H1 & H2 & H3 & H4). exists h', m'. auto.
  - destruct IHHu as (h' & m' & H1 & H2 & H3 & H4). exists h', m'. auto.
  - destruct IHHu as (h' & m' & H1 & H2 & H3 & H4). exists h', m'. auto.
Qed.

(** ** Present and fresh *)

Lemma num_add_assoc a x y :
  num_add (num_add a (Fin x)) (Fin y) = num_add a (Fin (x + y)).
Proof. destruct a; simpl; [f_equal; lia | reflexivity]. Qed.

Lemma num_add_0 a : num_add a (Fin 0) = a.
Proof. destruct a; simpl; [f_equal; lia | reflexivity]. Qed.

Lemma num_sub_assoc a x y :
  num_sub (num_sub a (Fin x)) (Fin y) = num_sub a (Fin (x + y)).
Proof. destruct a; simpl; [f_equal; lia | reflexivity]. Qed.

Lemma num_sub_0 a : num_sub a (Fin 0) = a.
Proof. destruct a; simpl; [f_equal; lia | reflexivity]. Qed.

Lemma own_measurable c p (d : entry) :
  well_measured c -> data c !! p = Some d -> measurable (options c) d.
Proof.
  intros Hwm Hd. pose proof (data_read_measurable c p Hwm) as H.
  rewrite (data_read_own _ _ _ Hd) in H. exact H.
Qed.

Lemma fresh_entry_inv c p d :
  fresh_entry c p = Some d ->
  data c !! p = Some d /\ expired (clock c) d = false.
Proof.
  unfold fresh_entry. destruct (data c !! p) as [d'|]; [| discriminate].
  destruct (expired (clock c) d') eqn:He; [discriminate|].
  intros H. injection H as ->. auto.
Qed.

Lemma fresh_entry_lapsed key (d : entry) n c p :
  data c !! ToPropertyKey key = Some d ->
  expired (clock c) d = true ->
  fresh_entry (missed (lapsed key d n c)) p = fresh_entry c p.
Proof.
  intros Hd He. unfold fresh_entry. simpl.
  destruct (decide (p = ToPropertyKey key)) as [-> | Hne].
  - rewrite lookup_delete_eq, Hd, He. reflexivity.
  - rewrite lookup_delete_ne by congruence. reflexivity.
Qed.

Lemma props_oRet_assign p x o :
  p <> "__proto__" ->
  oRet_assign p x o =
    {| props := <[p := x]> (props o); props_proto := props_proto o |}.
Proof.
  intros Hp. unfold oRet_assign.
  destruct (String.eqb p "__proto__") eqn:E; [| reflexivity].
  apply String.eqb_eq in E. contradiction.
Qed.

(** One iteration of [mget] on a valid key whose name is not inherited. *)
Lemma mget_key_step key oRet c :
  well_measured c -> valid_key key ->
  not_inherited c (ToPropertyKey key) ->
  exists c1,
    mget_key key oRet c =
      (Return (match fresh_entry c (ToPropertyKey key) with
               | Some d =>
                   {| props := <[ToPropertyKey key := _unwrap (options c) d true]>
                                 (props oRet);
                      props_proto := props_proto oRet |}
               | None => oRet
               end), c1) /\
    well_measured c1 /\ options c1 = options c /\ proto c1 = proto c /\
    (forall p, fresh_entry c1 p = fresh_entry c p) /\
    hits (stats c1) =
      num_add (hits (stats c)) (Fin (if live c key then 1 else 0)) /\
    misses (stats c1) =
      num_add (misses (stats c)) (Fin (if live c key then 0 else 1)).
Proof.
  intros Hwm Hv Hi. unfold live, fresh_entry.
  destruct (status_of c key) as [Hd | d Hd He | d Hd He]; rewrite Hd; try rewrite He.
  - exists (missed c).
    rewrite mget_key_missing by (try assumption; apply own_absent; assumption).
    simpl. rewrite num_add_0. repeat split; apply Hwm.
  - exists (hit c). destruct (own_fresh c key d Hd He) as (Hr & Hp & Hs).
    rewrite mget_key_found by assumption. rewrite Hr.
    rewrite props_oRet_assign by (eapply not_inherited_not_proto; exact Hi).
    simpl. rewrite num_add_0. repeat split; apply Hwm.
  - destruct (own_measurable c _ d Hwm Hd) as [n Hn].
    destruct (own_expired c key d Hd He) as (Hr & Hp & Hs).
    exists (missed (lapsed key d n c)).
    rewrite (mget_key_stale key n) by (try assumption; rewrite Hr; assumption).
    rewrite Hr.
    split; [reflexivity|]. split.
    { apply (well_measured_lapsed key d n) in Hwm. exact Hwm. }
    split; [reflexivity|]. split; [reflexivity|]. split.
    { intros p. apply fresh_entry_lapsed; assumption. }
    simpl. rewrite num_add_0. auto.
Qed.

Lemma live_stable c c1 key :
  (forall p, fresh_entry c1 p = fresh_entry c p) -> live c1 key = live c key.
Proof. intros H. unfold live. rewrite H. reflexivity. Qed.

Lemma filter_live_stable c c1 ks :
  (forall p, fresh_entry c1 p = fresh_entry c p) ->
  List.filter (live c1) ks = List.filter (live c) ks /\
  List.filter (fun k => negb (live c1 k)) ks =
    List.filter (fun k => negb (live c k)) ks.
Proof.
  intros H. split; apply List.filter_ext; intros k;
    rewrite (live_stable c c1 k H); reflexivity.
Qed.

Lemma Forall_not_inherited_same c c1 (ks : list jsval) :
  proto c1 = proto c ->
  Forall (fun k => not_inherited c (ToPropertyKey k)) ks ->
  Forall (fun k => not_inherited c1 (ToPropertyKey k)) ks.
Proof.
  intros Hp H. eapply Forall_impl; [exact H|].
  intros k. apply not_inherited_same. exact Hp.
Qed.

(** The whole loop of [mget] over valid keys whose names are not
    inherited. *)
Lemma mget_loop_spec ks : forall oRet c,
  well_measured c -> Forall valid_key ks ->
  Forall (fun k => not_inherited c (ToPropertyKey k)) ks ->
  exists oRet' c',
    mget_loop ks oRet c = (Return oRet', c') /\
    hits (stats c') =
      num_add (hits (stats c)) (Fin (Z.of_nat (length (List.filter (live c) ks)))) /\
    misses (stats c') =
      num_add (misses (stats c))
        (Fin (Z.of_nat (length (List.filter (fun k => negb (live c k)) ks)))) /\
    props_proto oRet' = props_proto oRet /\
    forall p,
      props oRet' !! p =
        match fresh_entry c p with
        | Some d =>
            if bool_decide (p ∈ ToPropertyKey <$> ks)
            then Some (_unwrap (options c) d true) else props oRet !! p
        | None => props oRet !! p
        end.
Proof.
  induction ks as [| key rest IH]; intros oRet c Hwm Hvs His.
  - exists oRet, c. simpl. rewrite !num_add_0.
    repeat split. intros p. destruct (fresh_entry c p); reflexivity.
  - inversion Hvs as [| ? ? Hv Hrest]; subst.
    inversion His as [| ? ? Hi Hirest]; subst.
    destruct (mget_key_step key oRet c Hwm Hv Hi)
      as (c1 & Hrun & Hwm1 & Ho1 & Hp1 & Hst & Hh & Hm).
    destruct (IH (match fresh_entry c (ToPropertyKey key) with
                  | Some d =>
                      {| props := <[ToPropertyKey key := _unwrap (options c) d true]>
                                    (props oRet);
                         props_proto := props_proto oRet |}
                  | None => oRet
                  end) c1 Hwm1 Hrest (Forall_not_inherited_same c c1 rest Hp1 Hirest))
      as (oRet' & c' & Hloop & Hh' & Hm' & Hpp & Hret).
    exists oRet', c'. cbn [mget_loop List.filter]. unfold bind. rewrite Hrun, Hloop.
    destruct (filter_live_stable c c1 rest Hst) as [Hf1 Hf2].
    rewrite Hf1 in Hh'. rewrite Hf2 in Hm'.
    split; [reflexivity|]. split; [| split; [| split]].
    + rewrite Hh', Hh, num_add_assoc. f_equal. f_equal.
      destruct (live c key); cbn [length]; lia.
    + rewrite Hm', Hm, num_add_assoc. f_equal. f_equal.
      destruct (live c key); cbn [negb length]; lia.
    + rewrite Hpp. destruct (fresh_entry c (ToPropertyKey key)); reflexivity.
    + intros p. rewrite Hret, Hst, Ho1. rewrite fmap_cons.
      destruct (fresh_entry c p) as [d|] eqn:Hp.
      * destruct (decide (p = ToPropertyKey key)) as [-> | Hne].
        -- rewrite Hp. cbn [props]. rewrite lookup_insert_eq.
           rewrite (bool_decide_eq_true_2 (_ ∈ _ :: _)) by (left).
           destruct (bool_decide _); reflexivity.
        -- destruct (bool_decide (p ∈ ToPropertyKey <$> rest)) eqn:Hin.
           ++ apply bool_decide_eq_true_1 in Hin.
              rewrite bool_decide_eq_true_2 by (right; exact Hin). reflexivity.
           ++ apply bool_decide_eq_false_1 in Hin.
              rewrite bool_decide_eq_false_2
                by (intros Hc; apply elem_of_cons in Hc; tauto).
              destruct (fresh_entry c (ToPropertyKey key));
                [cbn [props]; rewrite lookup_insert_ne by congruence |]; reflexivity.
      * destruct (fresh_entry c (ToPropertyKey key)) as [d'|] eqn:Hk;
          [| reflexivity].
        cbn [props]. rewrite lookup_insert_ne; [reflexivity|]. congruence.
Qed.

(** On valid keys the loops of [mget] and [del] run to their end. *)
Lemma mget_key_returns key oRet c :
  well_measured c -> valid_key key ->
  exists o1 c1, mget_key key oRet c = (Return o1, c1) /\ well_measured c1.
Proof.
  intros Hwm Hv.
  destruct (read_status_of c key) as [Hp | Hp He | Hp He].
  - rewrite mget_key_missing by assumption. eexists _, _. split; [reflexivity|].
    exact Hwm.
  - rewrite mget_key_found by assumption. eexists _, _. split; [reflexivity|].
    exact Hwm.
  - destruct (data_read_measurable c (ToPropertyKey key) Hwm) as [n Hn].
    rewrite (mget_key_stale key n) by assumption.
    eexists _, _. split; [reflexivity|].
    apply (well_measured_lapsed key (data_read c (ToPropertyKey key)) n) in Hwm.
    exact Hwm.
Qed.

Lemma mget_loop_returns ks : forall oRet c,
  well_measured c -> Forall valid_key ks ->
  exists oRet' c', mget_loop ks oRet c = (Return oRet', c').
Proof.
  induction ks as [| key rest IH]; intros oRet c Hwm Hvs.
  - exists oRet, c. reflexivity.
  - inversion Hvs as [| ? ? Hv Hrest]; subst.
    destruct (mget_key_returns key oRet c Hwm Hv) as (o1 & c1 & Hrun & Hwm1).
    destruct (IH o1 c1 Hwm1 Hrest) as (o2 & c2 & Hloop).
    exists o2, c2. cbn [mget_loop]. unfold bind. rewrite Hrun. exact Hloop.
Qed.

Lemma mget_loop_app l1 l2 oRet c :
  mget_loop (l1 ++ l2) oRet c =
    bind (mget_loop l1 oRet) (fun o => mget_loop l2 o) c.
Proof.
  revert oRet c. induction l1 as [| key rest IH]; intros oRet c; [reflexivity|].
  cbn [app mget_loop]. unfold bind.
  destruct (mget_key key oRet c) as [[o1 | e] c1]; [| reflexivity].
  rewrite IH. reflexivity.
Qed.

(** ** Example states *)

Lemma example_new_reachable : reachable example_new.
Proof. apply reachable_new. Qed.

Lemma example_one_key_reachable : reachable example_one_key.
Proof. apply reachable_step, example_new_reachable. Qed.

Lemma example_stale_reachable : reachable example_stale.
Proof. apply reachable_step, example_one_key_reachable. Qed.

Lemma example_strict_stale_reachable : reachable example_strict_stale.
Proof. do 2 apply reachable_step. apply reachable_new. Qed.

Lemma example_zero_key_reachable : reachable example_zero_key.
Proof. apply reachable_step, example_new_reachable. Qed.

(** ** What set stores *)

Lemma result_eq {A} (m : M A) c r c' : m c = (r, c') -> result m c = r.
Proof. intros H. unfold result. rewrite H. reflexivity. Qed.

Lemma after_eq {A} (m : M A) c r c' : m c = (r, c') -> after m c = c'.
Proof. intros H. unfold after. rewrite H. reflexivity. Qed.

Lemma data_read_ext c c' p :
  data c' = data c -> proto c' = proto c -> data_read c' p = data_read c p.
Proof. intros Hd Hp. unfold data_read. rewrite Hd, Hp. reflexivity. Qed.

Lemma set_stores key value newTtl c :
  well_measured c ->
  valid_key key ->
  data (after (set key value newTtl) c) =
    data (assign (ToPropertyKey key) (written c value newTtl) c) /\
  proto (after (set key value newTtl) c) =
    proto (assign (ToPropertyKey key) (written c value newTtl) c) /\
  options (after (set key value newTtl) c) = options c /\
  clock (after (set key value newTtl) c) = clock c.
Proof.
  intros Hwm Hv. unfold after.
  destruct (assign_fields (ToPropertyKey key) (written c value newTtl) c)
    as (Ho & Hc & _).
  destruct (data_read_measurable c (ToPropertyKey key) Hwm) as [m Hm].
  destruct (_getValLength (options c) (forced (options c) value)) as [n | e] eqn:Hn;
    destruct (slot_truthy (data_read c (ToPropertyKey key))) eqn:Ht.
  - rewrite (set_seen key value newTtl m n) by assumption. simpl. auto.
  - rewrite (set_unseen key value newTtl n) by assumption. simpl. auto.
  - rewrite (set_seen_throws key value newTtl m e) by assumption. simpl. auto.
  - rewrite (set_unseen_throws key value newTtl e) by assumption. simpl. auto.
Qed.

(** What [set] wrote is what a read of the key finds. *)
Lemma set_then_read key value newTtl c :
  well_measured c ->
  valid_key key ->
  data_read (after (set key value newTtl) c) (ToPropertyKey key) =
    Wrapper (written c value newTtl).
Proof.
  intros Hwm Hv. destruct (set_stores key value newTtl c Hwm Hv) as (Hd & Hp & _).
  rewrite (data_read_ext _ _ _ Hd Hp). apply data_read_assign.
Qed.

Lemma set_returns_true key value newTtl n c :
  well_measured c ->
  valid_key key ->
  _getValLength (options c) (forced (options c) value) = Return n ->
  result (set key value newTtl) c = Return true.
Proof.
  intros Hwm Hv Hn. unfold result.
  destruct (data_read_measurable c (ToPropertyKey key) Hwm) as [m Hm].
  destruct (slot_truthy (data_read c (ToPropertyKey key))) eqn:Ht.
  - rewrite (set_seen key value newTtl m n) by assumption. reflexivity.
  - rewrite (set_unseen key value newTtl n) by assumption. reflexivity.
Qed.

(** ** get on a missing or expired key *)

(** C8 at [get("toString", true)] on a new cache.  The key is valid and no
    entry is stored under it, but [this.data] is a plain object and the
    read [this.data["toString"]] finds the function it inherits from
    [Object.prototype]: [get] counts a hit and hands back [null], where
    the claim has a miss and the error [ENOTFOUND]. *)
Theorem get_inherited_name_is_a_hit :
  valid_key (VStr "toString") /\
  data example_new !! "toString" = None /\
  live example_new (VStr "toString") = false /\
  result (get (VStr "toString") true) example_new = Return VNull /\
  hits (stats (after (get (VStr "toString") true) example_new)) = Fin 1 /\
  misses (stats (after (get (VStr "toString") true) example_new)) = Fin 0.
Proof. repeat split. Qed.

(** X21: for every valid key whose name the map does not inherit and that
    is absent or expired, [get] increments [misses]; with the error-on-missing
    policy active (the option or the per-call argument) it fails with
    [ENOTFOUND] carrying the key, and with the policy inactive it returns
    [undefined] and raises nothing. *)
Theorem get_missing_policy c key eom :
  reachable c ->
  valid_key key ->
  not_inherited c (ToPropertyKey key) ->
  live c key = false ->
  result (get key eom) c =
    (if errorOnMissing (options c) || eom
     then Throw (ENOTFOUND key) else Return VUndefined) /\
  misses (stats (after (get key eom) c)) = num_add (misses (stats c)) (Fin 1).
Proof.
  intros Hr Hv Hi Hl. apply reachable_well_measured in Hr.
  unfold result, after, live, fresh_entry in *.
  destruct (status_of c key) as [Hd | d Hd He | d Hd He];
    rewrite Hd in Hl; try rewrite He in Hl; try discriminate.
  - rewrite get_absent by assumption. split; reflexivity.
  - destruct (own_measurable c _ d Hr Hd) as [n Hn].
    rewrite (get_expired key d n) by assumption. split; reflexivity.
Qed.

(** ** Lazy expiration through get *)

(** C5, as amended: for every stored entry with [t <> 0] and [t < now], a
    [get] of its key removes the entry from the map, leaves the statistics
    as [del] of that key would and then counts a miss, emits [del] and then
    [expired] with the key and the unwrapped value, and hands back
    [undefined] when the error-on-missing policy is inactive and fails with
    [ENOTFOUND] carrying the key when it is active: the stored value is
    never handed back. *)
Theorem get_expired_entry c key (d : entry) eom :
  reachable c ->
  valid_key key ->
  data c !! ToPropertyKey key = Some d ->
  t d <> 0 ->
  t d < clock c ->
  data (after (get key eom) c) = delete (ToPropertyKey key) (data c) /\
  stats (after (get key eom) c) = misses_incr (stats (after (del key) c)) /\
  keys (stats (after (get key eom) c)) = num_sub (keys (stats c)) (Fin 1) /\
  emitted (after (get key eom) c) =
    emitted c ++ [EvDel key (v d); EvExpired key (_unwrap (options c) d true)] /\
  result (get key eom) c =
    (if errorOnMissing (options c) || eom
     then Throw (ENOTFOUND key) else Return VUndefined).
Proof.
  intros Hr Hv Hd Ht0 Htn. apply reachable_well_measured in Hr.
  destruct (own_measurable c _ d Hr Hd) as [n Hn].
  assert (He : expired (clock c) d = true).
  { unfold expired. apply andb_true_intro. split.
    - apply negb_true_iff, Z.eqb_neq. exact Ht0.
    - apply Z.ltb_lt. exact Htn. }
  unfold result, after.
  rewrite (get_expired key d n) by assumption.
  rewrite (del_present key d n) by assumption.
  repeat split.
Qed.

(** ** mget *)

(** C6 at [mget(["toString"])] on a new cache.  No entry is stored under
    the key, but the read [this.data["toString"]] finds the function
    inherited from [Object.prototype]: [mget] counts a hit and includes the
    key in the mapping, with the value [null], where the claim has a miss
    and the key omitted. *)
Theorem mget_inherited_name_is_a_hit :
  Forall valid_key [VStr "toString"] /\
  data example_new !! "toString" = None /\
  live example_new (VStr "toString") = false /\
  (exists oRet,
     result (mget (VArr [VStr "toString"])) example_new = Return (Found oRet) /\
     props oRet !! "toString" = Some VNull) /\
  hits (stats (after (mget (VArr [VStr "toString"])) example_new)) = Fin 1 /\
  misses (stats (after (mget (VArr [VStr "toString"])) example_new)) = Fin 0.
Proof.
  split; [repeat constructor|]. split; [reflexivity|]. split; [reflexivity|].
  split; [| split; reflexivity].
  eexists. split; reflexivity.
Qed.

(** X22: for every array of valid keys whose names the map does not
    inherit, [mget] raises nothing (whatever the error-on-missing option says) and
    hands back a mapping; [hits] grows by the number of keys that are
    present and fresh, [misses] by the number of keys that are absent or
    stale; the mapping holds the unwrapped value of every key that is
    present and fresh and nothing else. *)
Theorem mget_hits_and_misses c ks :
  reachable c ->
  Forall valid_key ks ->
  Forall (fun k => not_inherited c (ToPropertyKey k)) ks ->
  exists oRet,
    result (mget (VArr ks)) c = Return (Found oRet) /\
    hits (stats (after (mget (VArr ks)) c)) =
      num_add (hits (stats c))
        (Fin (Z.of_nat (length (List.filter (live c) ks)))) /\
    misses (stats (after (mget (VArr ks)) c)) =
      num_add (misses (stats c))
        (Fin (Z.of_nat (length (List.filter (fun k => negb (live c k)) ks)))) /\
    (forall key d, key ∈ ks -> fresh_entry c (ToPropertyKey key) = Some d ->
       props oRet !! ToPropertyKey key = Some (_unwrap (options c) d true)) /\
    (forall key, key ∈ ks -> live c key = false ->
       props oRet !! ToPropertyKey key = None) /\
    (forall p, is_Some (props oRet !! p) ->
       exists key, key ∈ ks /\ p = ToPropertyKey key /\ live c key = true) /\
    props_proto oRet = None.
Proof.
  intros Hr Hvs His. apply reachable_well_measured in Hr.
  destruct (mget_loop_spec ks empty_object c Hr Hvs His)
    as (oRet & c' & Hloop & Hh & Hm & Hpp & Hret).
  exists oRet. unfold result, after, mget, bind. rewrite Hloop. simpl.
  split; [reflexivity|]. split; [exact Hh|]. split; [exact Hm|].
  split; [| split; [| split; [| exact Hpp]]].
  - intros key d Hin Hf. rewrite Hret, Hf.
    rewrite bool_decide_eq_true_2; [reflexivity|].
    apply list_elem_of_fmap. exists key. auto.
  - intros key Hin Hl. rewrite Hret. unfold live in Hl.
    destruct (fresh_entry c (ToPropertyKey key)); [discriminate|].
    apply lookup_empty.
  - intros p [x Hx]. rewrite Hret in Hx.
    destruct (fresh_entry c p) as [d|] eqn:Hf;
      [| simpl in Hx; rewrite lookup_empty in Hx; discriminate].
    destruct (bool_decide (p ∈ ToPropertyKey <$> ks)) eqn:Hin;
      [| simpl in Hx; rewrite lookup_empty in Hx; discriminate].
    apply bool_decide_eq_true_1, list_elem_of_fmap in Hin.
    destruct Hin as (key & -> & Hin). exists key.
    unfold live. rewrite Hf. auto.
Qed.

(** C10: called with an argument that is not an array, [mget] hands the
    [EKEYSTYPE] error object back as its return value, raises nothing and
    leaves the whole state (map and statistics) as it was; an invalid key
    inside an array is thrown as [EKEYTYPE]. *)
Theorem mget_not_an_array c :
  (forall ks, isArray ks = false -> mget ks c = (Return (Failed EKEYSTYPE), c)) /\
  (forall pre bad post,
     reachable c -> Forall valid_key pre -> ~ valid_key bad ->
     result (mget (VArr (pre ++ bad :: post))) c = Throw (EKEYTYPE (typeof bad))).
Proof.
  split.
  - intros ks Hks. destruct ks; try reflexivity. discriminate.
  - intros pre bad post Hr Hpre Hbad. apply reachable_well_measured in Hr.
    destruct (mget_loop_returns pre empty_object c Hr Hpre) as (o1 & c1 & Hloop).
    unfold result, mget. unfold bind at 1. rewrite mget_loop_app.
    unfold bind at 1. rewrite Hloop. simpl. unfold bind, mget_key.
    rewrite (invalid_key_error bad Hbad). reflexivity.
Qed.

(** ** The keys 0 and the empty string *)

(** C9: the number 0 and the empty string are valid keys, and [set], [get]
    and [del] treat them as any other key; [ttl] answers [false] and
    [getTtl] answers [undefined] for them whatever the TTL argument and
    whatever is stored, and leave the state untouched (no lookup, no
    freshness check). *)
Theorem falsy_key_ttl c key newTtl :
  reachable c ->
  key = VNum (Fin 0) \/ key = VStr EmptyString ->
  valid_key key /\
  ttl key newTtl c = (Return false, c) /\
  getTtl key c = (Return VUndefined, c) /\
  (forall value setTtl,
     data (after (set key value setTtl) c) !! ToPropertyKey key =
       Some (written c value setTtl)) /\
  (forall d, fresh_entry c (ToPropertyKey key) = Some d ->
     get key false c = (Return (_unwrap (options c) d true), hit c) /\
     result (del key) c = Return 1 /\
     data (after (del key) c) = delete (ToPropertyKey key) (data c)).
Proof.
  intros Hr Hk. apply reachable_well_measured in Hr.
  assert (Hv : valid_key key) by (destruct Hk as [-> | ->]; reflexivity).
  assert (Hf : truthy key = false) by (destruct Hk as [-> | ->]; reflexivity).
  assert (Hp : ToPropertyKey key <> "__proto__")
    by (destruct Hk as [-> | ->]; discriminate).
  split; [exact Hv|].
  split; [apply ttl_falsy; exact Hf|].
  split; [apply getTtl_falsy; exact Hf|].
  split.
  - intros value setTtl.
    destruct (set_stores key value setTtl c Hr Hv) as (Hd & _).
    rewrite Hd, assign_own by exact Hp. apply lookup_insert_eq.
  - intros d Hd. destruct (fresh_entry_inv _ _ _ Hd) as [Hd' He].
    destruct (own_measurable c _ d Hr Hd') as [n Hn].
    split; [apply get_fresh; assumption|].
    unfold result, after. rewrite (del_present key d n) by assumption.
    split; reflexivity.
Qed.

(** ** ttl with a negative TTL, against del *)

(** C7, as amended: for every valid key other than 0, [NaN] and the empty
    string whose name the map does not inherit, [ttl(key, z)] with [z < 0]
    and [del(key)] leave the same map: the one without the key.  [ttl]
    answers [true] exactly when the key is present and fresh, [del]
    answers 1 exactly when the key is present, fresh or stale, and 0
    otherwise; on a present and fresh key the two calls leave the same
    state. *)
Theorem ttl_negative_vs_del c key z :
  reachable c ->
  valid_key key ->
  truthy key = true ->
  not_inherited c (ToPropertyKey key) ->
  z < 0 ->
  data (after (ttl key (Some z)) c) = delete (ToPropertyKey key) (data c) /\
  data (after (del key) c) = delete (ToPropertyKey key) (data c) /\
  result (ttl key (Some z)) c = Return (live c key) /\
  result (del key) c =
    Return (match data c !! ToPropertyKey key with Some _ => 1 | None => 0 end) /\
  (live c key = true -> after (ttl key (Some z)) c = after (del key) c).
Proof.
  intros Hr Hv Hk Hi Hz. apply reachable_well_measured in Hr.
  assert (Hneg : effective_ttl c (Some z) < 0).
  { unfold effective_ttl. destruct (z =? 0) eqn:E; [| exact Hz].
    apply Z.eqb_eq in E. lia. }
  unfold result, after, live, fresh_entry.
  destruct (status_of c key) as [Hd | d Hd He | d Hd He]; rewrite Hd; try rewrite He.
  - rewrite ttl_absent, del_absent by assumption. simpl.
    rewrite delete_id by assumption. repeat split. discriminate.
  - destruct (own_measurable c _ d Hr Hd) as [n Hn].
    rewrite (ttl_fresh_delete key d n), (del_present key d n) by assumption.
    repeat split.
  - destruct (own_measurable c _ d Hr Hd) as [n Hn].
    rewrite (ttl_expired key d n), (del_present key d n) by assumption.
    repeat split. discriminate.
Qed.

(** ** getStats *)

Lemma _checkData_empty b c :
  data c = ∅ -> proto c = None ->
  _checkData TheCache b c =
    (Return tt,
     if b && (0 <? checkperiod (options c))
     then with_timeout (Some (checkperiod (options c) * 1000)) c else c).
Proof.
  intros He Hp. unfold _checkData, bind, this, enumerated.
  rewrite He, Hp, map_to_list_empty. simpl.
  destruct (b && (0 <? checkperiod (options c))); reflexivity.
Qed.

Lemma flushAll_eq b c : flushAll b c = (Return tt, flushed b c).
Proof.
  unfold flushAll. unfold bind at 1, modify at 1.
  unfold bind at 1, modify at 1. unfold bind at 1, _killCheckPeriod, modify at 1.
  unfold bind at 1. rewrite _checkData_empty by reflexivity.
  unfold flushed. simpl. destruct (b && _); reflexivity.
Qed.

Lemma flushAll_stats b c :
  stats (after (flushAll b) c) = zero_stats /\
  stats_id (after (flushAll b) c) = S (stats_id c) /\
  data (after (flushAll b) c) = ∅ /\
  retired (after (flushAll b) c) = <[stats_id c := stats c]> (retired c) /\
  proto (after (flushAll b) c) = None.
Proof.
  unfold after. rewrite flushAll_eq. unfold flushed. simpl.
  destruct (b && _); repeat split.
Qed.

(** C3, as amended: [getStats] hands back the engine's statistics record
    itself, not a snapshot.  A write [f] through the returned reference is
    a write to the engine's statistics: a later [getStats] shows the record
    as written, and every later operation updates the record as written,
    by its own assignments, and leaves the reference attached to the
    engine's record.  After any history without [flushAll] the reference
    is still the engine's record; [flushAll], which installs a new record,
    detaches it: the reference keeps the old contents and a write through
    it no longer reaches the engine. *)
Theorem getStats_returns_live_record c f :
  exists r,
    getStats c = (Return r, c) /\
    read_stats r c = Some (stats c) /\
    mutate_stats r f c = with_stats (f (stats c)) c /\
    result getStats (mutate_stats r f c) = Return r /\
    read_stats r (mutate_stats r f c) = Some (f (stats c)) /\
    (forall a, quiet a -> (forall b, a <> CallFlushAll b) ->
       stats_update (f (stats c)) (stats (step a (mutate_stats r f c))) /\
       read_stats r (step a (mutate_stats r f c)) =
         Some (stats (step a (mutate_stats r f c)))) /\
    (forall l, flushless l ->
       result getStats (run l c) = Return r /\
       read_stats r (run l c) = Some (stats (run l c))) /\
    (forall b,
       result getStats (after (flushAll b) c) = Return (S r) /\
       read_stats r (after (flushAll b) c) = Some (stats c) /\
       stats (mutate_stats r f (after (flushAll b) c)) = zero_stats).
Proof.
  exists (stats_id c).
  assert (Hm : mutate_stats (stats_id c) f c = with_stats (f (stats c)) c).
  { unfold mutate_stats. rewrite decide_True by reflexivity. reflexivity. }
  split; [reflexivity|].
  split; [unfold read_stats; rewrite decide_True by reflexivity; reflexivity|].
  split; [exact Hm|].
  split; [rewrite Hm; reflexivity|].
  split; [rewrite Hm; unfold read_stats; simpl;
          rewrite decide_True by reflexivity; reflexivity|].
  split; [| split].
  - intros a Hq Hnf. rewrite Hm. split.
    + apply (stats_update_step a (with_stats (f (stats c)) c) Hq Hnf).
    + unfold read_stats.
      rewrite (step_keeps_stats_object a (with_stats (f (stats c)) c) Hnf).
      simpl. rewrite decide_True by reflexivity. reflexivity.
  - intros l Hl. pose proof (run_keeps_stats_object l c Hl) as Hid.
    split.
    + unfold result, getStats, bind, this, ret. simpl. rewrite Hid. reflexivity.
    + unfold read_stats. rewrite Hid, decide_True by reflexivity. reflexivity.
  - intros b. destruct (flushAll_stats b c) as (Hs & Hid & _ & Hret & _).
    split; [| split].
    + unfold result, getStats, bind, this, ret. simpl. rewrite Hid. reflexivity.
    + unfold read_stats. rewrite Hid, decide_False by lia.
      rewrite Hret. apply lookup_insert_eq.
    + unfold mutate_stats. rewrite Hid, decide_False by lia. simpl. exact Hs.
Qed.

(** ** ttl with the TTL 0 *)

(** [if (!ttl)] cannot tell the TTL 0 from a missing TTL. *)
Lemma ttl_zero_is_ttl_omitted key c : ttl key (Some 0) c = ttl key None c.
Proof. reflexivity. Qed.

(** C4 at [ttl("a", 0)] on a cache with [stdTTL: 10]: the key is present
    and fresh, the call answers [true], and the entry is given the deadline
    of the default TTL (now + 10 s), not the deadline 0 ("never expires")
    that [_wrap] gives the TTL 0 when [set] passes it. *)
Theorem ttl_zero_takes_default :
  live example_default_ttl (VStr "a") = true /\
  clock example_default_ttl = 1500 /\
  result (ttl (VStr "a") (Some 0)) example_default_ttl = Return true /\
  data (after (ttl (VStr "a") (Some 0)) example_default_ttl) !! "a" =
    Some {| t := 11500; v := VStr "x" |} /\
  data (after (set (VStr "a") (VStr "x") (Some 0)) example_default_ttl) !! "a" =
    Some {| t := 0; v := VStr "x" |}.
Proof.
  repeat split.
Qed.

(** ** The size of a numeric key *)

(** On its own path a string key is measured by its length. *)
Lemma set_new_string_key s value newTtl n c :
  data c !! s = None ->
  not_inherited c s ->
  _getValLength (options c) (forced (options c) value) = Return n ->
  _getKeyLength (VStr s) = Some (strlen s) /\
  ksize (stats (after (set (VStr s) value newTtl) c)) =
    num_add (ksize (stats c)) (Fin (strlen s)).
Proof.
  intros Hd Hi Hn. split; [reflexivity|]. unfold after.
  rewrite (set_new (VStr s) value newTtl n) by (assumption || reflexivity).
  reflexivity.
Qed.

(** C2 at [set(1, "a")] on a new cache: the key is valid and is stored
    under its decimal name ["1"], of length 1, but [_getKeyLength] reads
    [(1).length], which is [undefined], and [ksize] becomes [NaN]. *)
Theorem numeric_key_size :
  valid_key (VNum (Fin 1)) /\
  ToPropertyKey (VNum (Fin 1)) = "1" /\
  strlen (ToPropertyKey (VNum (Fin 1))) = 1 /\
  _getKeyLength (VNum (Fin 1)) = None /\
  data example_new !! "1" = None /\
  ksize (stats example_new) = Fin 0 /\
  result (set (VNum (Fin 1)) (VStr "a") None) example_new = Return true /\
  ksize (stats (after (set (VNum (Fin 1)) (VStr "a") None) example_new)) = NaN.
Proof.
  repeat split.
Qed.

(** ** Statistics against the stored entries *)

Lemma total_empty w : total w ∅ = 0.
Proof. unfold total. apply map_fold_empty. Qed.

Lemma total_insert_new w k d m :
  m !! k = None -> total w (<[k := d]> m) = w k d + total w m.
Proof.
  intros Hk. unfold total.
  rewrite map_fold_insert_L; [reflexivity | | exact Hk].
  intros. lia.
Qed.

Lemma total_delete w k d m :
  m !! k = Some d -> total w (delete k m) = total w m - w k d.
Proof.
  intros Hk. unfold total.
  rewrite (map_fold_delete_L _ _ k d m); [lia | | exact Hk].
  intros. lia.
Qed.

Lemma total_insert_over w k d old m :
  m !! k = Some old -> total w (<[k := d]> m) = total w m - w k old + w k d.
Proof.
  intros Hk. rewrite <- insert_delete_eq.
  rewrite total_insert_new by apply lookup_delete_eq.
  rewrite (total_delete w k old) by exact Hk. lia.
Qed.

Lemma size_delete_present k d (m : gmap string entry) :
  m !! k = Some d -> Z.of_nat (size (delete k m)) = Z.of_nat (size m) - 1.
Proof.
  intros Hk. rewrite map_size_delete, Hk.
  assert (size m <> 0%nat).
  { apply map_size_ne_0_lookup. exists k. eauto. }
  lia.
Qed.

Lemma stored_size_measured o k (d : entry) n :
  measured o d n -> stored_size o k d = n.
Proof. intros Hn. unfold stored_size. red in Hn. rewrite Hn. reflexivity. Qed.


Lemma consistent_removed s (d : entry) n c :
  data c !! s = Some d ->
  measured (options c) d n ->
  consistent c -> consistent (removed (VStr s) d n c).
Proof.
  intros Hd Hn (H1 & H2 & H3). unfold consistent. simpl.
  rewrite H1, H2, H3. simpl.
  rewrite (size_delete_present s d) by exact Hd.
  rewrite !(total_delete _ s d) by exact Hd.
  rewrite (stored_size_measured _ s d n Hn). auto.
Qed.

Lemma consistent_lapsed s (d : entry) n c :
  data c !! s = Some d ->
  measured (options c) d n ->
  consistent c -> consistent (lapsed (VStr s) d n c).
Proof.
  intros Hd Hn Hc. apply (consistent_removed s d n c Hd Hn) in Hc. exact Hc.
Qed.

Lemma consistent_rewrap s d w c :
  data c !! s = Some d ->
  v w = v d ->
  consistent c -> consistent (with_data (<[s := w]> (data c)) c).
Proof.
  intros Hd Hv (H1 & H2 & H3). unfold consistent. simpl.
  rewrite map_size_insert_Some by eauto.
  rewrite !(total_insert_over _ s w d) by exact Hd.
  split; [exact H1|]. split.
  - rewrite H2. f_equal. unfold key_size. lia.
  - rewrite H3. f_equal. unfold stored_size, _unwrap. simpl. rewrite Hv. lia.
Qed.

(** A plain key is a string, or is not accepted. *)
Lemma plain_key_inv c key :
  plain_key c key ->
  (exists s, key = VStr s /\ not_inherited c s) \/ ~ valid_key key.
Proof.
  intros [Hk Hi]. destruct key; try discriminate; eauto; right; discriminate.
Qed.

(** A value measured at [n] when written is measured at [n] once stored. *)
Lemma measured_stored o (d : entry) n :
  _getValLength o (v d) = Return n -> measured o d n.
Proof.
  unfold measured, _unwrap. simpl.
  replace (if negb (useClones o) then false else false) with false
    by (destruct (useClones o); reflexivity).
  destruct (v d); simpl; try (intros H; exact H);
    unfold _getValLength; simpl; destruct (forceString o); simpl;
    intros H; try discriminate H; exact H.
Qed.

Lemma consistent_set_new s value newTtl n c :
  data c !! s = None ->
  _getValLength (options c) (forced (options c) value) = Return n ->
  consistent c ->
  consistent
    (with_emitted (emitted c ++ [EvSet (VStr s) (forced (options c) value)])
       (with_data (<[s := written c value newTtl]> (data c))
          (with_stats
             (keys_incr
                (ksize_add (operand (_getKeyLength (VStr s)))
                   (vsize_add (Fin n) (stats c)))) c))).
Proof.
  intros Hd Hn (H1 & H2 & H3). unfold consistent. simpl.
  rewrite H1, H2, H3. simpl.
  rewrite map_size_insert_None by exact Hd.
  rewrite !total_insert_new by exact Hd.
  rewrite (stored_size_measured _ s (written c value newTtl) n)
    by (apply measured_stored; exact Hn).
  repeat split; f_equal; unfold key_size; lia.
Qed.

Lemma consistent_set_over s value newTtl (old : entry) m n c :
  data c !! s = Some old ->
  measured (options c) old m ->
  _getValLength (options c) (forced (options c) value) = Return n ->
  consistent c ->
  consistent
    (with_emitted (emitted c ++ [EvSet (VStr s) (forced (options c) value)])
       (with_data (<[s := written c value newTtl]> (data c))
          (with_stats (vsize_add (Fin n) (vsize_sub (Fin m) (stats c))) c))).
Proof.
  intros Hd Hm Hn (H1 & H2 & H3). unfold consistent. simpl.
  rewrite H1, H2, H3. simpl.
  rewrite map_size_insert_Some by eauto.
  rewrite !(total_insert_over _ s _ old) by exact Hd.
  rewrite (stored_size_measured _ s (written c value newTtl) n)
    by (apply measured_stored; exact Hn).
  rewrite (stored_size_measured _ s old m Hm).
  repeat split; f_equal; unfold key_size; lia.
Qed.

Lemma consistent_set key value newTtl c :
  well_measured c ->
  plain_key c key ->
  (exists n, _getValLength (options c) (forced (options c) value) = Return n) ->
  consistent c -> consistent (after (set key value newTtl) c).
Proof.
  intros Hwm Hk [n Hn] Hc. unfold after.
  destruct (plain_key_inv c key Hk) as [(s & -> & Hi) | Hv];
    [| rewrite set_invalid by assumption; exact Hc].
  destruct (data c !! s) as [old|] eqn:Hd.
  - destruct (own_measurable c s old Hwm Hd) as [m Hm].
    rewrite (set_overwrite (VStr s) value newTtl old m n)
      by (assumption || reflexivity).
    apply (consistent_set_over s value newTtl old m n); assumption.
  - rewrite (set_new (VStr s) value newTtl n) by (assumption || reflexivity).
    apply consistent_set_new; assumption.
Qed.

Lemma consistent_get key eom c :
  well_measured c ->
  plain_key c key ->
  consistent c -> consistent (after (get key eom) c).
Proof.
  intros Hwm Hk Hc. unfold after.
  destruct (plain_key_inv c key Hk) as [(s & -> & Hi) | Hv];
    [| rewrite get_invalid by assumption; exact Hc].
  destruct (status_of c (VStr s)) as [Hd | d Hd He | d Hd He].
  - rewrite get_absent by (assumption || reflexivity). exact Hc.
  - rewrite (get_fresh (VStr s) d) by (assumption || reflexivity). exact Hc.
  - destruct (own_measurable c _ d Hwm Hd) as [n Hn].
    rewrite (get_expired (VStr s) d n) by (assumption || reflexivity).
    apply (consistent_lapsed s d n c Hd Hn) in Hc. exact Hc.
Qed.

Lemma consistent_del_key key cnt c :
  well_measured c ->
  plain_key c key ->
  consistent c -> consistent (snd (del_key key cnt c)).
Proof.
  intros Hwm Hk Hc.
  destruct (plain_key_inv c key Hk) as [(s & -> & Hi) | Hv].
  - destruct (data c !! s) as [d|] eqn:Hd.
    + destruct (own_measurable c s d Hwm Hd) as [n Hn].
      rewrite (del_key_present (VStr s) d n) by (assumption || reflexivity).
      apply consistent_removed; assumption.
    + rewrite del_key_absent by (assumption || reflexivity). exact Hc.
  - unfold del_key. rewrite (invalid_key_error key Hv). exact Hc.
Qed.

Lemma Forall_plain_key_same c c1 (ks : list jsval) :
  proto c1 = proto c -> Forall (plain_key c) ks -> Forall (plain_key c1) ks.
Proof.
  intros Hp H. eapply Forall_impl; [exact H|].
  intros k [H1 H2]. split; [exact H1|].
  apply (not_inherited_same c); assumption.
Qed.

Lemma consistent_del_loop ks : forall cnt c,
  well_measured c ->
  Forall (plain_key c) ks ->
  consistent c -> consistent (snd (del_loop ks cnt c)).
Proof.
  induction ks as [| key rest IH]; intros cnt c Hwm Hks Hc; [exact Hc|].
  inversion Hks as [| ? ? Hk Hrest]; subst.
  cbn [del_loop]. unfold bind.
  pose proof (well_measured_del_key key cnt c Hwm) as Hwm1.
  pose proof (consistent_del_key key cnt c Hwm Hk Hc) as Hc1.
  pose proof (del_key_same_chain key cnt c) as Hp1.
  destruct (del_key key cnt c) as [[cnt' | e] c1]; simpl in Hwm1, Hc1, Hp1.
  - apply IH; try assumption.
    apply (Forall_plain_key_same c); assumption.
  - exact Hc1.
Qed.

Lemma consistent_mget_key key oRet c :
  well_measured c ->
  plain_key c key ->
  consistent c -> consistent (snd (mget_key key oRet c)).
Proof.
  intros Hwm Hk Hc.
  destruct (plain_key_inv c key Hk) as [(s & -> & Hi) | Hv];
    [| unfold mget_key; rewrite (invalid_key_error key Hv); exact Hc].
  destruct (status_of c (VStr s)) as [Hd | d Hd He | d Hd He].
  - rewrite mget_key_missing
      by (try reflexivity; apply own_absent; assumption).
    exact Hc.
  - destruct (own_fresh c (VStr s) d Hd He) as (Hr & Hp & Hs).
    rewrite mget_key_found by (assumption || reflexivity). exact Hc.
  - destruct (own_measurable c _ d Hwm Hd) as [n Hn].
    destruct (own_expired c (VStr s) d Hd He) as (Hr & Hp & Hs).
    rewrite (mget_key_stale (VStr s) n)
      by (try reflexivity; try assumption; rewrite Hr; assumption).
    rewrite Hr.
    apply (consistent_lapsed s d n c Hd Hn) in Hc. exact Hc.
Qed.

Lemma consistent_mget_loop ks : forall oRet c,
  well_measured c ->
  Forall (plain_key c) ks ->
  consistent c -> consistent (snd (mget_loop ks oRet c)).
Proof.
  induction ks as [| key rest IH]; intros oRet c Hwm Hks Hc; [exact Hc|].
  inversion Hks as [| ? ? Hk Hrest]; subst.
  cbn [mget_loop]. unfold bind.
  pose proof (well_measured_mget_key key oRet c Hwm) as Hwm1.
  pose proof (consistent_mget_key key oRet c Hwm Hk Hc) as Hc1.
  pose proof (mget_key_same_chain key oRet c) as Hp1.
  destruct (mget_key key oRet c) as [[oRet' | e] c1]; simpl in Hwm1, Hc1, Hp1.
  - apply IH; try assumption.
    apply (Forall_plain_key_same c); assumption.
  - exact Hc1.
Qed.

Lemma consistent_ttl key newTtl c :
  well_measured c ->
  plain_key c key ->
  consistent c -> consistent (after (ttl key newTtl) c).
Proof.
  intros Hwm Hk Hc. unfold after.
  destruct (truthy key) eqn:Htr; [| rewrite ttl_falsy by assumption; exact Hc].
  destruct (plain_key_inv c key Hk) as [(s & -> & Hi) | Hv];
    [| rewrite ttl_invalid by assumption; exact Hc].
  destruct (status_of c (VStr s)) as [Hd | d Hd He | d Hd He].
  - rewrite ttl_absent by (assumption || reflexivity). exact Hc.
  - destruct (Z_le_gt_dec 0 (effective_ttl c newTtl)) as [Hle | Hgt].
    + rewrite (ttl_fresh_rewrap (VStr s) d) by (assumption || reflexivity).
      apply (consistent_rewrap s d); [exact Hd | reflexivity | exact Hc].
    + destruct (own_measurable c _ d Hwm Hd) as [n Hn].
      rewrite (ttl_fresh_delete (VStr s) d n) by (assumption || reflexivity || lia).
      apply consistent_removed; assumption.
  - destruct (own_measurable c _ d Hwm Hd) as [n Hn].
    rewrite (ttl_expired (VStr s) d n) by (assumption || reflexivity).
    apply (consistent_lapsed s d n c Hd Hn) in Hc. exact Hc.
Qed.

Lemma consistent_getTtl key c :
  well_measured c ->
  plain_key c key ->
  consistent c -> consistent (after (getTtl key) c).
Proof.
  intros Hwm Hk Hc. unfold after.
  destruct (truthy key) eqn:Htr; [| rewrite getTtl_falsy by assumption; exact Hc].
  destruct (plain_key_inv c key Hk) as [(s & -> & Hi) | Hv];
    [| rewrite getTtl_invalid by assumption; exact Hc].
  destruct (status_of c (VStr s)) as [Hd | d Hd He | d Hd He].
  - rewrite getTtl_absent by (assumption || reflexivity). exact Hc.
  - rewrite (getTtl_fresh (VStr s) d) by (assumption || reflexivity). exact Hc.
  - destruct (own_measurable c _ d Hwm Hd) as [n Hn].
    rewrite (getTtl_expired (VStr s) d n) by (assumption || reflexivity).
    apply (consistent_lapsed s d n c Hd Hn) in Hc. exact Hc.
Qed.

Lemma consistent_empty c :
  data c = ∅ -> stats c = zero_stats -> consistent c.
Proof.
  intros Hd Hs. unfold consistent. rewrite Hd, Hs, map_size_empty, !total_empty.
  repeat split.
Qed.

Lemma consistent_flushAll b c : consistent (after (flushAll b) c).
Proof.
  destruct (flushAll_stats b c) as (Hs & _ & Hd & _).
  apply consistent_empty; assumption.
Qed.

Lemma consistent_constructor o now : consistent (constructor o now).
Proof.
  unfold constructor. rewrite _checkData_empty by reflexivity. simpl.
  destruct (0 <? checkperiod o); apply consistent_empty; reflexivity.
Qed.

Lemma consistent_timer_fires c : consistent c -> consistent (after timer_fires c).
Proof.
  intros Hc. unfold after, timer_fires, bind, this.
  destruct (checkTimeout c); exact Hc.
Qed.

Lemma consistent_step a c :
  well_measured c -> tame c a -> consistent c -> consistent (step a c).
Proof.
  intros Hwm Ht Hc. destruct a; simpl in *.
  - destruct Ht as [Hk Hn]. apply consistent_set; assumption.
  - apply consistent_get; assumption.
  - unfold after, mget. destruct ks; try exact Hc. unfold bind.
    pose proof (consistent_mget_loop l empty_object c Hwm Ht Hc) as H1.
    destruct (mget_loop l empty_object c) as [[o | e] c1]; exact H1.
  - unfold after, del.
    destruct ks; apply consistent_del_loop; try assumption;
      repeat constructor; apply Ht.
  - apply consistent_ttl; assumption.
  - apply consistent_getTtl; assumption.
  - exact Hc.
  - apply consistent_flushAll.
  - exact Hc.
  - exact Hc.
  - apply consistent_timer_fires; assumption.
  - contradiction.
Qed.

(** The invariant holds along every history of tame calls. *)
Lemma consistent_run l : forall c,
  well_measured c -> consistent c -> tame_run l c -> consistent (run l c).
Proof.
  induction l as [| a rest IH]; intros c Hwm Hc Ht; [exact Hc|].
  destruct Ht as [Ha Hrest]. simpl. apply IH.
  - apply well_measured_step. exact Hwm.
  - apply consistent_step; assumption.
  - exact Hrest.
Qed.

(** Without numeric keys and inherited names, the statistics of a cache
    agree with its map after every history of calls. *)
Lemma stats_consistent_without_numeric_keys o now l :
  tame_run l (constructor o now) ->
  consistent (run l (constructor o now)).
Proof.
  apply consistent_run.
  - apply well_measured_constructor.
  - apply consistent_constructor.
Qed.

Example example_history_consistent :
  tame_run example_history example_new /\
  consistent (run example_history example_new) /\
  stats (run example_history example_new) =
    {| hits := Fin 1; misses := Fin 3; keys := Fin 0; ksize := Fin 0; vsize := Fin 0 |}.
Proof.
  assert (Ht : tame_run example_history example_new).
  { repeat split; repeat constructor; eexists; reflexivity. }
  split; [exact Ht|]. split; [| reflexivity].
  apply (stats_consistent_without_numeric_keys default_options 1000). exact Ht.
Qed.

(** C1 at [set(1, "a")] on a new cache, whose statistics agree with its
    empty map: the map then holds one entry, under the name ["1"] of
    length 1, and [keys] is 1, but [ksize] is [NaN]: the statistics no
    longer agree with the map, and a [del] of the key does not repair
    them. *)
Theorem stats_inconsistent_after_numeric_key :
  consistent example_new /\
  (result (set (VNum (Fin 1)) (VStr "a") None) example_new = Return true) /\
  (size (data example_numeric_key) = 1%nat) /\
  (total key_size (data example_numeric_key) = 1) /\
  (keys (stats example_numeric_key) = Fin 1) /\
  (ksize (stats example_numeric_key) = NaN) /\
  (~ consistent example_numeric_key) /\
  (data (after (del (VNum (Fin 1))) example_numeric_key) = ∅) /\
  (ksize (stats (after (del (VNum (Fin 1))) example_numeric_key)) = NaN).
Proof.
  split; [apply consistent_constructor|].
  split; [reflexivity|]. split; [reflexivity|]. split; [reflexivity|].
  split; [reflexivity|]. split; [reflexivity|].
  split; [| split; reflexivity].
  intros (_ & H & _). discriminate H.
Qed.

(** The same invariant fails on a name that the map inherits:
    [del("constructor")] on a new cache finds the inherited function,
    reports one deletion and takes the key off the counters of an empty
    map. *)
Example del_inherited_name_counts :
  data example_new = ∅ /\
  result (del (VStr "constructor")) example_new = Return 1 /\
  data (after (del (VStr "constructor")) example_new) = ∅ /\
  keys (stats (after (del (VStr "constructor")) example_new)) = Fin (-1) /\
  ksize (stats (after (del (VStr "constructor")) example_new)) = Fin (-11) /\
  emitted (after (del (VStr "constructor")) example_new) =
    [EvDel (VStr "constructor") VUndefined].
Proof. repeat split. Qed.

(** ** Scenarios of the specification *)

(** [set("a", "x", 1)]; a [get] half a second later returns ["x"]; a [get]
    one and a half seconds later returns [undefined] and emits [expired]
    with the key and the value. *)
Example scenario_expiry :
  result (get (VStr "a") false) (tick 500 example_one_key) = Return (VStr "x") /\
  result (get (VStr "a") false) (tick 1500 example_one_key) = Return VUndefined /\
  emitted (after (get (VStr "a") false) (tick 1500 example_one_key)) =
    [EvSet (VStr "a") (VStr "x");
     EvDel (VStr "a") (VStr "x");
     EvExpired (VStr "a") (VStr "x")].
Proof. repeat split. Qed.

(** [set("k", {a:1})] with the default [objectValueSize] adds 80 to
    [vsize]. *)
Example scenario_object_size :
  vsize (stats (after (set (VStr "k") (VObj [("a", VNum (Fin 1))]) None) example_new))
    = Fin 80.
Proof. reflexivity. Qed.

(** [flushAll] twice in a row: all-zero statistics and an empty map both
    times. *)
Example scenario_flush_twice :
  stats (after (flushAll true) example_one_key) = zero_stats /\
  data (after (flushAll true) example_one_key) = ∅ /\
  stats (after (flushAll true) (after (flushAll true) example_one_key)) = zero_stats /\
  data (after (flushAll true) (after (flushAll true) example_one_key)) = ∅.
Proof.
  destruct (flushAll_stats true example_one_key) as (H1 & _ & H2 & _).
  destruct (flushAll_stats true (after (flushAll true) example_one_key))
    as (H3 & _ & H4 & _).
  auto.
Qed.

(** Under [forceString], [set("k", undefined)] throws where it measures the
    new value, after the entry has been written and before [keys] and
    [ksize] are updated. *)
Example set_undefined_under_forceString :
  result (set (VStr "k") VUndefined None) example_force_string = Throw TypeError /\
  data (after (set (VStr "k") VUndefined None) example_force_string) !! "k" =
    Some {| t := 0; v := VUndefined |} /\
  keys (stats (after (set (VStr "k") VUndefined None) example_force_string)) = Fin 0.
Proof. repeat split. Qed.

(** A wrapper written under the name [__proto__] becomes the prototype of
    the map instead of an entry: the map has no entry, a [get] and a
    [getTtl] of the name find the wrapper, and the names [t] and [v] now
    read its members. *)
Example scenario_proto_key :
  data (after (set (VStr "__proto__") (VStr "x") None) example_new) = ∅ /\
  result (getTtl (VStr "__proto__"))
    (after (set (VStr "__proto__") (VStr "x") None) example_new) =
    Return (VNum (Fin 0)) /\
  proto (after (set (VStr "__proto__") (VStr "x") None) example_new) =
    Some {| t := 0; v := VStr "x" |} /\
  result (get (VStr "__proto__") false)
    (after (set (VStr "__proto__") (VStr "x") None) example_new) =
    Return (VStr "x") /\
  result (get (VStr "v") false)
    (after (set (VStr "__proto__") (VStr "x") None) example_new) = Return VNull /\
  result (del (VStr "__proto__"))
    (after (set (VStr "__proto__") (VStr "x") None) example_new) = Return 1 /\
  proto (after (del (VStr "__proto__"))
           (after (set (VStr "__proto__") (VStr "x") None) example_new)) =
    Some {| t := 0; v := VStr "x" |}.
Proof. repeat split. Qed.

(** * Further properties of the methods *)

Lemma expired_written_false c value newTtl ms :
  0 <= default (stdTTL (options c)) newTtl ->
  0 <= ms ->
  default (stdTTL (options c)) newTtl = 0 \/
    ms <= default (stdTTL (options c)) newTtl * 1000 ->
  expired (clock c + Z.max 0 ms) (written c value newTtl) = false.
Proof.
  intros Hpos Hms Hle. unfold expired, written, deadline. simpl.
  destruct (default (stdTTL (options c)) newTtl =? 0) eqn:E.
  - reflexivity.
  - apply Z.eqb_neq in E. destruct Hle as [H0 | Hle]; [contradiction|].
    apply andb_false_intro2. apply Z.ltb_ge. lia.
Qed.

Lemma expired_written_true c value newTtl ms :
  0 <= clock c ->
  0 < default (stdTTL (options c)) newTtl ->
  default (stdTTL (options c)) newTtl * 1000 < ms ->
  expired (clock c + Z.max 0 ms) (written c value newTtl) = true.
Proof.
  intros Hc Hpos Hlt. unfold expired, written, deadline. simpl.
  assert (E : (default (stdTTL (options c)) newTtl =? 0) = false)
    by (apply Z.eqb_neq; lia).
  rewrite E. apply andb_true_intro. split.
  - apply negb_true_iff, Z.eqb_neq. lia.
  - apply Z.ltb_lt. lia.
Qed.

Lemma unwrap_written c value newTtl b :
  _unwrap (options c) (written c value newTtl) b =
    if nullish (forced (options c) value) then VNull else forced (options c) value.
Proof.
  unfold _unwrap, written, clone. simpl.
  destruct (nullish (forced (options c) value)); simpl; [reflexivity|].
  destruct (if negb (useClones (options c)) then false else b); reflexivity.
Qed.

(** A [get] of a key right after time has passed on what [set] wrote. *)
Lemma get_written key value newTtl ms eom c :
  well_measured c ->
  valid_key key ->
  expired (clock c + Z.max 0 ms) (written c value newTtl) = false ->
  get key eom (tick ms (after (set key value newTtl) c)) =
    (Return (if nullish (forced (options c) value) then VNull
             else forced (options c) value),
     hit (tick ms (after (set key value newTtl) c))).
Proof.
  intros Hwm Hv Hex.
  destruct (set_stores key value newTtl c Hwm Hv) as (Hd & Hp & Ho & Hc).
  assert (Hr : data_read (tick ms (after (set key value newTtl) c))
                 (ToPropertyKey key) = Wrapper (written c value newTtl)).
  { rewrite <- (set_then_read key value newTtl c Hwm Hv).
    apply data_read_ext; reflexivity. }
  rewrite get_found.
  - rewrite Hr.
    change (options (tick ms (after (set key value newTtl) c)))
      with (options (after (set key value newTtl) c)).
    rewrite Ho, unwrap_written. reflexivity.
  - exact Hv.
  - rewrite Hr. reflexivity.
  - rewrite Hr, stale_wrapper. simpl. rewrite Hc. exact Hex.
Qed.

(** ** Writing and reading back *)

(** X1: after [set(key, value, ttl)] with a TTL that is 0 or positive (the
    argument, or [stdTTL] when it is omitted), a [get] of the key any time
    up to and including the deadline [now + ttl * 1000] hands back the
    stored value, whatever the error-on-missing setting; with the TTL 0
    there is no deadline.  A stored [undefined] or [null] is read back as
    [null]. *)
Theorem set_then_get c key value newTtl ms eom :
  reachable c ->
  valid_key key ->
  (exists n, _getValLength (options c) (forced (options c) value) = Return n) ->
  0 <= default (stdTTL (options c)) newTtl ->
  0 <= ms ->
  default (stdTTL (options c)) newTtl = 0 \/
    ms <= default (stdTTL (options c)) newTtl * 1000 ->
  result (set key value newTtl) c = Return true /\
  result (get key eom) (tick ms (after (set key value newTtl) c)) =
    Return (if nullish (forced (options c) value) then VNull
            else forced (options c) value) /\
  hits (stats (after (get key eom) (tick ms (after (set key value newTtl) c)))) =
    num_add (hits (stats (after (set key value newTtl) c))) (Fin 1).
Proof.
  intros Hr Hv [n Hn] Hpos Hms Hle. apply reachable_well_measured in Hr.
  split; [exact (set_returns_true key value newTtl n c Hr Hv Hn)|].
  pose proof (get_written key value newTtl ms eom c Hr Hv
                (expired_written_false c value newTtl ms Hpos Hms Hle)) as Hget.
  rewrite (result_eq _ _ _ _ Hget), (after_eq _ _ _ _ Hget).
  split; reflexivity.
Qed.

(** X2: after [set(key, value, ttl)] with a positive TTL, on a key whose
    name the map does not inherit, the first [get] later than the deadline
    misses, removes the entry and emits [del] and [expired] with the key
    and the value; a second [get] only counts another miss: the entry
    expires exactly once. *)
Theorem set_then_get_late c key value newTtl ms :
  reachable c ->
  valid_key key ->
  not_inherited c (ToPropertyKey key) ->
  (exists n, _getValLength (options c) (forced (options c) value) = Return n) ->
  0 <= clock c ->
  0 < default (stdTTL (options c)) newTtl ->
  default (stdTTL (options c)) newTtl * 1000 < ms ->
  exists c1 c2 c3,
    c1 = tick ms (after (set key value newTtl) c) /\
    get key false c1 = (miss_outcome c key false, c2) /\
    get key false c2 = (miss_outcome c key false, c3) /\
    data c2 = delete (ToPropertyKey key) (data c1) /\
    emitted c2 =
      emitted c1 ++
        [EvDel key (forced (options c) value);
         EvExpired key (if nullish (forced (options c) value) then VNull
                        else forced (options c) value)] /\
    c3 = missed c2.
Proof.
  intros Hr Hv Hi [n Hn] Hc0 Hpos Hlt.
  apply reachable_well_measured in Hr.
  destruct (set_stores key value newTtl c Hr Hv) as (Hd & Hp & Ho & Hc).
  rewrite assign_own in Hd, Hp by (eapply not_inherited_not_proto; exact Hi).
  simpl in Hd, Hp.
  set (c1 := tick ms (after (set key value newTtl) c)) in *.
  assert (Hd1 : data c1 !! ToPropertyKey key = Some (written c value newTtl)).
  { unfold c1. simpl. rewrite Hd. apply lookup_insert_eq. }
  assert (He : expired (clock c1) (written c value newTtl) = true).
  { unfold c1. simpl. rewrite Hc. apply expired_written_true; assumption. }
  assert (Hm : measured (options c1) (written c value newTtl) n).
  { unfold c1. simpl. rewrite Ho. apply measured_stored. exact Hn. }
  exists c1, (missed (lapsed key (written c value newTtl) n c1)),
    (missed (missed (lapsed key (written c value newTtl) n c1))).
  split; [reflexivity|].
  assert (Hmo : forall c', options c' = options c ->
                           miss_outcome c' key false = miss_outcome c key false).
  { intros c' H. unfold miss_outcome. rewrite H. reflexivity. }
  split.
  { rewrite (get_expired key (written c value newTtl) n) by assumption.
    rewrite (Hmo c1) by (unfold c1; simpl; exact Ho). reflexivity. }
  split.
  { rewrite get_absent.
    - rewrite Hmo by (unfold c1; simpl; exact Ho). reflexivity.
    - exact Hv.
    - simpl. apply lookup_delete_eq.
    - apply (not_inherited_same c); [| exact Hi]. unfold c1. simpl. exact Hp. }
  split; [reflexivity|].
  split; [| reflexivity].
  change (emitted (missed (lapsed key (written c value newTtl) n c1)))
    with (emitted c1 ++
            [EvDel key (v (written c value newTtl));
             EvExpired key (_unwrap (options c1) (written c value newTtl) true)]).
  replace (options c1) with (options c) by (symmetry; exact Ho).
  rewrite unwrap_written. reflexivity.
Qed.

(** X3: a [set] on a key that is already stored, stale or not, replaces
    the entry in place and takes the old value size off [vsize]: [keys],
    [ksize], [hits], [misses] and the number of entries are unchanged, and
    a stale entry overwritten this way never emits [expired] or [del].
    When the new value can be measured, [set] adds its size to [vsize],
    emits [set] and returns [true]; when it cannot, [set] throws with the
    entry written, nothing added to [vsize] and nothing emitted. *)
Theorem set_overwrites_in_place c key value newTtl (old : entry) :
  reachable c ->
  valid_key key ->
  data c !! ToPropertyKey key = Some old ->
  exists m,
    measured (options c) old m /\
    set key value newTtl c =
      match _getValLength (options c) (forced (options c) value) with
      | Return n =>
          (Return true,
           with_emitted (emitted c ++ [EvSet key (forced (options c) value)])
             (with_data (<[ToPropertyKey key := written c value newTtl]> (data c))
                (with_stats (vsize_add (Fin n) (vsize_sub (Fin m) (stats c))) c)))
      | Throw e =>
          (Throw e,
           with_data (<[ToPropertyKey key := written c value newTtl]> (data c))
             (with_stats (vsize_sub (Fin m) (stats c)) c))
      end /\
    size (data (after (set key value newTtl) c)) = size (data c).
Proof.
  intros Hr Hv Hd. apply reachable_well_measured in Hr.
  destruct (own_measurable c _ old Hr Hd) as [m Hm]. exists m.
  split; [exact Hm|].
  destruct (_getValLength (options c) (forced (options c) value)) as [n | e] eqn:Hn.
  - pose proof (set_overwrite key value newTtl old m n c Hv Hd Hm Hn) as Hset.
    split; [exact Hset|].
    rewrite (after_eq _ _ _ _ Hset). simpl.
    apply map_size_insert_Some. eauto.
  - pose proof (set_overwrite_throws key value newTtl old m e c Hv Hd Hm Hn) as Hset.
    split; [exact Hset|].
    rewrite (after_eq _ _ _ _ Hset). simpl.
    apply map_size_insert_Some. eauto.
Qed.

(** ** Keys that are not accepted *)

Lemma del_invalid key c :
  ~ valid_key key -> isArray key = false ->
  del key c = (Throw (EKEYTYPE (typeof key)), c).
Proof.
  intros Hv Ha. unfold del.
  destruct key; try discriminate; simpl; unfold bind, del_key;
    rewrite (invalid_key_error _ Hv); reflexivity.
Qed.

(** X4: a key is accepted exactly when it is a string or a number ([NaN]
    included).  With any other key, [get], [set] and a single-key [del]
    throw [EKEYTYPE] carrying the [typeof] of the key and leave the whole state
    as it was; [ttl] and [getTtl] do the same for a truthy key, but answer
    [false] and [undefined] without an error for [undefined], [null] and
    [false]. *)
Theorem invalid_key_rejected c key :
  (valid_key key <-> isString key = true \/ isNumber key = true) /\
  (~ valid_key key ->
     (forall eom, get key eom c = (Throw (EKEYTYPE (typeof key)), c)) /\
     (forall value newTtl,
        set key value newTtl c = (Throw (EKEYTYPE (typeof key)), c)) /\
     (isArray key = false -> del key c = (Throw (EKEYTYPE (typeof key)), c)) /\
     (forall newTtl,
        ttl key newTtl c =
          (if truthy key then Throw (EKEYTYPE (typeof key)) else Return false, c)) /\
     getTtl key c =
       (if truthy key then Throw (EKEYTYPE (typeof key)) else Return VUndefined, c)).
Proof.
  split.
  - destruct key; simpl; split; intros H;
      try (left; reflexivity); try (right; reflexivity); try reflexivity;
      try (vm_compute in H; discriminate H); destruct H; discriminate.
  - intros Hv.
    split; [intros eom; apply get_invalid; exact Hv|].
    split; [intros value newTtl; apply set_invalid; exact Hv|].
    split; [intros Ha; apply del_invalid; assumption|].
    split.
    + intros newTtl. destruct (truthy key) eqn:Hk.
      * apply ttl_invalid; assumption.
      * apply ttl_falsy; assumption.
    + destruct (truthy key) eqn:Hk.
      * apply getTtl_invalid; assumption.
      * apply getTtl_falsy; assumption.
Qed.

(** ** set undone by del *)



(** ** del on a batch of keys *)

(** One iteration of [del] on a valid key. *)
Lemma del_key_step key cnt c :
  well_measured c -> valid_key key ->
  exists cnt' c1,
    del_key key cnt c = (Return cnt', c1) /\
    well_measured c1 /\
    data c1 = delete (ToPropertyKey key) (data c).
Proof.
  intros Hwm Hv.
  destruct (present (data_read c (ToPropertyKey key))) eqn:Hp.
  - destruct (data_read_measurable c (ToPropertyKey key) Hwm) as [n Hn].
    rewrite (del_key_found key n) by assumption.
    eexists _, _. split; [reflexivity|]. split; [| reflexivity].
    apply well_measured_removed. exact Hwm.
  - rewrite del_key_missing by assumption.
    eexists _, _. split; [reflexivity|]. split; [exact Hwm|].
    simpl. symmetry. apply delete_id.
    destruct (data c !! ToPropertyKey key) as [d|] eqn:Hd; [| reflexivity].
    rewrite (data_read_own _ _ _ Hd) in Hp. discriminate.
Qed.

(** The loop of [del] over valid keys runs to its end, and every listed
    name is gone from the stored entries. *)
Lemma del_loop_runs ks : forall cnt c,
  well_measured c -> Forall valid_key ks ->
  exists cnt' c',
    del_loop ks cnt c = (Return cnt', c') /\
    well_measured c' /\
    (forall p, data c' !! p =
       if bool_decide (p ∈ ToPropertyKey <$> ks) then None else data c !! p).
Proof.
  induction ks as [| key rest IH]; intros cnt c Hwm Hvs.
  - exists cnt, c. split; [reflexivity|]. split; [exact Hwm|]. reflexivity.
  - inversion Hvs as [| ? ? Hv Hrest]; subst.
    destruct (del_key_step key cnt c Hwm Hv) as (cnt1 & c1 & Hrun & Hwm1 & Hd1).
    destruct (IH cnt1 c1 Hwm1 Hrest) as (cnt' & c' & Hloop & Hwm' & Hlk).
    exists cnt', c'. cbn [del_loop]. unfold bind. rewrite Hrun.
    split; [exact Hloop|]. split; [exact Hwm'|].
    intros p. rewrite Hlk, Hd1, fmap_cons.
    destruct (decide (p = ToPropertyKey key)) as [-> | Hne].
    + rewrite (bool_decide_eq_true_2 (_ ∈ _ :: _)) by left.
      rewrite lookup_delete_eq. destruct (bool_decide _); reflexivity.
    + rewrite lookup_delete_ne by congruence.
      destruct (bool_decide (p ∈ ToPropertyKey <$> rest)) eqn:Hin.
      * apply bool_decide_eq_true_1 in Hin.
        rewrite bool_decide_eq_true_2 by (right; exact Hin). reflexivity.
      * apply bool_decide_eq_false_1 in Hin.
        rewrite bool_decide_eq_false_2
          by (intros Hc; apply elem_of_cons in Hc; tauto).
        reflexivity.
Qed.

Lemma del_loop_spec ks : forall cnt c,
  well_measured c -> Forall valid_key ks ->
  Forall (fun k => not_inherited c (ToPropertyKey k)) ks ->
  exists c',
    del_loop ks cnt c =
      (Return (cnt + (Z.of_nat (size (data c)) - Z.of_nat (size (data c')))), c') /\
    well_measured c' /\
    (forall p, data c' !! p =
       if bool_decide (p ∈ ToPropertyKey <$> ks) then None else data c !! p) /\
    hits (stats c') = hits (stats c) /\
    misses (stats c') =
      num_add (misses (stats c))
        (Fin (Z.of_nat (length ks) -
              (Z.of_nat (size (data c)) - Z.of_nat (size (data c'))))) /\
    keys (stats c') =
      num_sub (keys (stats c))
        (Fin (Z.of_nat (size (data c)) - Z.of_nat (size (data c')))).
Proof.
  induction ks as [| key rest IH]; intros cnt c Hwm Hvs His.
  - exists c. cbn [del_loop length fmap list_fmap]. unfold ret.
    replace (Z.of_nat (size (data c)) - Z.of_nat (size (data c))) with 0 by lia.
    replace (Z.of_nat 0 - 0) with 0 by lia.
    rewrite Z.add_0_r, num_add_0, num_sub_0. repeat split; apply Hwm.
  - inversion Hvs as [| ? ? Hv Hrest]; subst.
    inversion His as [| ? ? Hi Hirest]; subst.
    cbn [del_loop]. unfold bind.
    destruct (data c !! ToPropertyKey key) as [d|] eqn:Hd.
    + destruct (own_measurable c _ d Hwm Hd) as [n Hn].
      rewrite (del_key_present key d n) by assumption.
      destruct (IH (cnt + 1) (removed key d n c)
                  (well_measured_removed key d n c Hwm) Hrest
                  (Forall_not_inherited_same c _ rest eq_refl Hirest))
        as (c' & Hloop & Hwm' & Hlk & Hh & Hm & Hk).
      assert (Hsz : Z.of_nat (size (data (removed key d n c))) =
                    Z.of_nat (size (data c)) - 1).
      { simpl. apply (size_delete_present _ d). exact Hd. }
      exists c'. rewrite Hloop, Hsz.
      split; [f_equal; f_equal; lia|]. split; [exact Hwm'|].
      split; [| split; [exact Hh | split]].
      * intros p. rewrite Hlk, fmap_cons. simpl.
        destruct (decide (p = ToPropertyKey key)) as [-> | Hne].
        -- rewrite (bool_decide_eq_true_2 (_ ∈ _ :: _)) by left.
           rewrite lookup_delete_eq. destruct (bool_decide _); reflexivity.
        -- rewrite lookup_delete_ne by congruence.
           destruct (bool_decide (p ∈ ToPropertyKey <$> rest)) eqn:Hin.
           ++ apply bool_decide_eq_true_1 in Hin.
              rewrite bool_decide_eq_true_2 by (right; exact Hin). reflexivity.
           ++ apply bool_decide_eq_false_1 in Hin.
              rewrite bool_decide_eq_false_2
                by (intros Hc; apply elem_of_cons in Hc; tauto).
              reflexivity.
      * rewrite Hm, Hsz. simpl misses. f_equal. f_equal.
        cbn [length]. lia.
      * rewrite Hk, Hsz. simpl keys. rewrite num_sub_assoc. f_equal. f_equal. lia.
    + rewrite del_key_absent by assumption.
      destruct (IH cnt (missed c) Hwm Hrest
                  (Forall_not_inherited_same c _ rest eq_refl Hirest))
        as (c' & Hloop & Hwm' & Hlk & Hh & Hm & Hk).
      exists c'. rewrite Hloop.
      split; [reflexivity|]. split; [exact Hwm'|].
      split; [| split; [exact Hh | split; [| exact Hk]]].
      * intros p. rewrite Hlk, fmap_cons. simpl.
        destruct (decide (p = ToPropertyKey key)) as [-> | Hne].
        -- rewrite (bool_decide_eq_true_2 (_ ∈ _ :: _)) by left.
           rewrite Hd. destruct (bool_decide _); reflexivity.
        -- destruct (bool_decide (p ∈ ToPropertyKey <$> rest)) eqn:Hin.
           ++ apply bool_decide_eq_true_1 in Hin.
              rewrite bool_decide_eq_true_2 by (right; exact Hin). reflexivity.
           ++ apply bool_decide_eq_false_1 in Hin.
              rewrite bool_decide_eq_false_2
                by (intros Hc; apply elem_of_cons in Hc; tauto).
              reflexivity.
      * rewrite Hm. simpl. rewrite num_add_assoc. f_equal. f_equal.
        cbn [length]. lia.
Qed.

(** X6: [del] of an array of valid keys, none of them a name that the map
    inherits, never throws; the count it returns is exactly the number of
    entries that left the map (a key listed twice, or listed under both its
    numeric and its string form, counts once); every listed key is gone
    afterwards and no other entry is touched; [keys] drops by the count and
    [misses] grows by the number of listed keys that found nothing. *)
Theorem del_batch_count c ks :
  reachable c ->
  Forall valid_key ks ->
  Forall (fun k => not_inherited c (ToPropertyKey k)) ks ->
  result (del (VArr ks)) c =
    Return (Z.of_nat (size (data c)) -
            Z.of_nat (size (data (after (del (VArr ks)) c)))) /\
  (forall p, data (after (del (VArr ks)) c) !! p =
     if bool_decide (p ∈ ToPropertyKey <$> ks) then None else data c !! p) /\
  keys (stats (after (del (VArr ks)) c)) =
    num_sub (keys (stats c))
      (Fin (Z.of_nat (size (data c)) -
            Z.of_nat (size (data (after (del (VArr ks)) c))))) /\
  misses (stats (after (del (VArr ks)) c)) =
    num_add (misses (stats c))
      (Fin (Z.of_nat (length ks) -
            (Z.of_nat (size (data c)) -
             Z.of_nat (size (data (after (del (VArr ks)) c)))))).
Proof.
  intros Hr Hvs His. apply reachable_well_measured in Hr.
  destruct (del_loop_spec ks 0 c Hr Hvs His) as (c' & Hloop & _ & Hlk & _ & Hm & Hk).
  change (del (VArr ks)) with (del_loop ks 0).
  rewrite (result_eq _ _ _ _ Hloop), (after_eq _ _ _ _ Hloop).
  split; [f_equal; lia|]. split; [exact Hlk|]. split; [exact Hk | exact Hm].
Qed.

Lemma del_loop_app l1 l2 cnt c :
  del_loop (l1 ++ l2) cnt c = bind (del_loop l1 cnt) (fun n => del_loop l2 n) c.
Proof.
  revert cnt c. induction l1 as [| key rest IH]; intros cnt c; [reflexivity|].
  cbn [app del_loop]. unfold bind.
  destruct (del_key key cnt c) as [[n | e] c1]; [| reflexivity].
  rewrite IH. reflexivity.
Qed.

(** X7: [del] of an array stops at the first key that is not accepted: it
    throws [EKEYTYPE] for that key, the keys before it have been deleted,
    and the keys after it are not looked at. *)
Theorem del_batch_aborts c pre bad post :
  reachable c ->
  Forall valid_key pre ->
  ~ valid_key bad ->
  result (del (VArr (pre ++ bad :: post))) c = Throw (EKEYTYPE (typeof bad)) /\
  after (del (VArr (pre ++ bad :: post))) c = after (del (VArr pre)) c /\
  (forall p, data (after (del (VArr (pre ++ bad :: post))) c) !! p =
     if bool_decide (p ∈ ToPropertyKey <$> pre) then None else data c !! p).
Proof.
  intros Hr Hpre Hbad. apply reachable_well_measured in Hr.
  destruct (del_loop_runs pre 0 c Hr Hpre) as (cnt' & c' & Hloop & _ & Hlk).
  assert (Hrun : del (VArr (pre ++ bad :: post)) c =
                 (Throw (EKEYTYPE (typeof bad)), c')).
  { unfold del. rewrite del_loop_app. unfold bind at 1. rewrite Hloop.
    cbn [del_loop]. unfold bind, del_key.
    rewrite (invalid_key_error bad Hbad). reflexivity. }
  rewrite (result_eq _ _ _ _ Hrun), (after_eq _ _ _ _ Hrun).
  change (del (VArr pre)) with (del_loop pre 0).
  rewrite (after_eq _ _ _ _ Hloop). auto.
Qed.

(** X8: when [mget] meets a key that is not accepted, the hits and misses
    counted for the keys before it stay counted: when none of those keys
    is a name that the map inherits, [hits] has grown by the number of
    them that are present and fresh, [misses] by the number of the
    others. *)
Theorem mget_abort_keeps_counts c pre bad post :
  reachable c ->
  Forall valid_key pre ->
  Forall (fun k => not_inherited c (ToPropertyKey k)) pre ->
  ~ valid_key bad ->
  hits (stats (after (mget (VArr (pre ++ bad :: post))) c)) =
    num_add (hits (stats c)) (Fin (Z.of_nat (length (List.filter (live c) pre)))) /\
  misses (stats (after (mget (VArr (pre ++ bad :: post))) c)) =
    num_add (misses (stats c))
      (Fin (Z.of_nat (length (List.filter (fun k => negb (live c k)) pre)))).
Proof.
  intros Hr Hpre Hipre Hbad. apply reachable_well_measured in Hr.
  destruct (mget_loop_spec pre empty_object c Hr Hpre Hipre)
    as (o1 & c1 & Hloop & Hh & Hm & _).
  assert (Hrun : mget (VArr (pre ++ bad :: post)) c =
                 (Throw (EKEYTYPE (typeof bad)), c1)).
  { unfold mget. unfold bind at 1. rewrite mget_loop_app.
    unfold bind at 1. rewrite Hloop. cbn [mget_loop]. unfold bind, mget_key.
    rewrite (invalid_key_error bad Hbad). reflexivity. }
  rewrite (after_eq _ _ _ _ Hrun). split; assumption.
Qed.

(** ** Reading without writing, and moving a deadline *)

(** X9: a [get] of a key that is present and fresh hands back the unwrapped
    value whatever the error-on-missing setting, and changes nothing in the
    state but [hits], which grows by one: no entry, no deadline and no other
    counter moves and nothing is emitted. *)
Theorem get_hit_only_counts c key d eom :
  valid_key key ->
  fresh_entry c (ToPropertyKey key) = Some d ->
  result (get key eom) c =
    Return (if nullish (v d) then VNull else v d) /\
  after (get key eom) c = with_stats (hits_incr (stats c)) c.
Proof.
  intros Hv Hf. destruct (fresh_entry_inv _ _ _ Hf) as [Hd He].
  pose proof (get_fresh key d eom c Hv Hd He) as Hget.
  rewrite (result_eq _ _ _ _ Hget), (after_eq _ _ _ _ Hget).
  split; [| reflexivity].
  unfold _unwrap, clone. simpl. destruct (nullish (v d)); simpl; [reflexivity|].
  destruct (if negb (useClones (options c)) then false else true); reflexivity.
Qed.

Lemma found_own c p (d : entry) :
  fresh_entry c p = Some d -> found c p = Some (Wrapper d).
Proof.
  intros Hf. destruct (fresh_entry_inv _ _ _ Hf) as [Hd He].
  unfold found. rewrite (data_read_own _ _ _ Hd), stale_wrapper, He. reflexivity.
Qed.

Lemma found_nothing c p :
  fresh_entry c p = None -> not_inherited c p -> found c p = None.
Proof.
  intros Hf Hi. unfold found, fresh_entry in *.
  destruct (data c !! p) as [d|] eqn:Hd.
  - rewrite (data_read_own _ _ _ Hd), stale_wrapper.
    destruct (expired (clock c) d); [reflexivity | discriminate].
  - rewrite (present_absent c p Hd Hi). reflexivity.
Qed.

(** On a map with its original prototype, what a read finds under a name
    without a fresh entry has no member [t]. *)
Lemma found_original c p :
  proto c = None ->
  fresh_entry c p = None ->
  match found c p with Some s => slot_t s | None => VUndefined end = VUndefined.
Proof.
  intros Hp0 Hf. unfold found, fresh_entry in *.
  destruct (data c !! p) as [d|] eqn:Hd.
  - rewrite (data_read_own _ _ _ Hd), stale_wrapper.
    destruct (expired (clock c) d); [reflexivity | discriminate].
  - rewrite (data_read_not_own _ _ Hd), Hp0. unfold inherited, Object_prototype_get.
    destruct (String.eqb p "__proto__"); [reflexivity|].
    destruct (bool_decide (p ∈ Object_prototype_functions)); reflexivity.
Qed.

(** X10: [getTtl] of a valid key other than 0, [NaN] and the empty string
    never changes [hits] or [misses].  It answers the member [t] of what
    the read of the key finds when that passes the freshness check, and
    [undefined] otherwise: the stored deadline (0 for an entry that never
    expires) when the key is present and fresh, and [undefined] when it is
    absent or stale and its name is not one that the map inherits; on a
    map that still has [Object.prototype] as its prototype these are the
    only answers, for every key.  A stale entry found this way is removed
    from the map, and no other entry is touched. *)
Theorem getTtl_counts_nothing c key :
  reachable c ->
  valid_key key ->
  truthy key = true ->
  result (getTtl key) c =
    Return (match found c (ToPropertyKey key) with
            | Some s => slot_t s
            | None => VUndefined
            end) /\
  (forall d, fresh_entry c (ToPropertyKey key) = Some d ->
     result (getTtl key) c = Return (VNum (Fin (t d)))) /\
  (fresh_entry c (ToPropertyKey key) = None ->
   not_inherited c (ToPropertyKey key) ->
   result (getTtl key) c = Return VUndefined) /\
  (proto c = None ->
   result (getTtl key) c =
     Return (match fresh_entry c (ToPropertyKey key) with
             | Some d => VNum (Fin (t d))
             | None => VUndefined
             end)) /\
  hits (stats (after (getTtl key) c)) = hits (stats c) /\
  misses (stats (after (getTtl key) c)) = misses (stats c) /\
  (forall p, data (after (getTtl key) c) !! p =
     if decide (p = ToPropertyKey key) then fresh_entry c p else data c !! p).
Proof.
  intros Hr Hv Hk. apply reachable_well_measured in Hr.
  assert (Hres : result (getTtl key) c =
                 Return (match found c (ToPropertyKey key) with
                         | Some s => slot_t s
                         | None => VUndefined
                         end)).
  { unfold found.
    destruct (read_status_of c key) as [Hp | Hp He | Hp He]; rewrite Hp, ?He; simpl.
    - apply (result_eq _ _ _ _ (getTtl_missing key c Hk Hv Hp)).
    - apply (result_eq _ _ _ _ (getTtl_found key c Hk Hv Hp He)).
    - destruct (data_read_measurable c (ToPropertyKey key) Hr) as [n Hn].
      apply (result_eq _ _ _ _ (getTtl_stale key n c Hk Hv Hp He Hn)). }
  split; [exact Hres|].
  split; [intros d Hf; rewrite Hres, (found_own _ _ _ Hf); reflexivity|].
  split; [intros Hf Hi; rewrite Hres, (found_nothing _ _ Hf Hi); reflexivity|].
  split.
  { intros Hp0. rewrite Hres.
    destruct (fresh_entry c (ToPropertyKey key)) as [d|] eqn:Hf;
      [rewrite (found_own _ _ _ Hf); reflexivity|].
    rewrite (found_original _ _ Hp0 Hf). reflexivity. }
  pose proof (getTtl_same_chain key c) as Hchain.
  destruct (data_read_measurable c (ToPropertyKey key) Hr) as [n Hn].
  destruct (read_status_of c key) as [Hp | Hp He | Hp He].
  - pose proof (getTtl_missing key c Hk Hv Hp) as H.
    rewrite (after_eq _ _ _ _ H).
    repeat split. intros p. destruct (decide _) as [-> |]; [| reflexivity].
    unfold fresh_entry.
    destruct (data c !! ToPropertyKey key) as [d|] eqn:Hd; [| reflexivity].
    rewrite (data_read_own _ _ _ Hd) in Hp. discriminate.
  - pose proof (getTtl_found key c Hk Hv Hp He) as H.
    rewrite (after_eq _ _ _ _ H).
    repeat split. intros p. destruct (decide _) as [-> |]; [| reflexivity].
    unfold fresh_entry.
    destruct (data c !! ToPropertyKey key) as [d|] eqn:Hd; [| reflexivity].
    rewrite (data_read_own _ _ _ Hd), stale_wrapper in He. rewrite He. reflexivity.
  - pose proof (getTtl_stale key n c Hk Hv Hp He Hn) as H.
    rewrite (after_eq _ _ _ _ H).
    repeat split. intros p. simpl.
    destruct (decide _) as [-> | Hne].
    + rewrite lookup_delete_eq. unfold fresh_entry.
      destruct (data c !! ToPropertyKey key) as [d|] eqn:Hd; [| reflexivity].
      rewrite (data_read_own _ _ _ Hd), stale_wrapper in He. rewrite He. reflexivity.
    + rewrite lookup_delete_ne by congruence. reflexivity.
Qed.

(** X11: [ttl(key, z)] with a positive [z] on a key other than 0, [NaN]
    and the empty string that is present and fresh answers [true] and
    moves the deadline to [now + z * 1000], which [getTtl] then reports;
    the value a [get] hands back, the statistics and the notifications are
    as before, and no other entry is touched. *)
Theorem ttl_moves_deadline c key d z eom :
  valid_key key ->
  truthy key = true ->
  fresh_entry c (ToPropertyKey key) = Some d ->
  0 < z ->
  result (ttl key (Some z)) c = Return true /\
  result (getTtl key) (after (ttl key (Some z)) c) =
    Return (VNum (Fin (clock c + z * 1000))) /\
  result (get key eom) (after (ttl key (Some z)) c) = result (get key eom) c /\
  stats (after (ttl key (Some z)) c) = stats c /\
  emitted (after (ttl key (Some z)) c) = emitted c /\
  data (after (ttl key (Some z)) c) =
    <[ToPropertyKey key := {| t := clock c + z * 1000; v := v d |}]> (data c).
Proof.
  intros Hv Hk Hf Hz. destruct (fresh_entry_inv _ _ _ Hf) as [Hd He].
  assert (Heff : effective_ttl c (Some z) = z).
  { unfold effective_ttl. destruct (z =? 0) eqn:E; [| reflexivity].
    apply Z.eqb_eq in E. lia. }
  assert (Hdl : deadline (clock c) z = clock c + z * 1000).
  { unfold deadline. destruct (z =? 0) eqn:E; [| reflexivity].
    apply Z.eqb_eq in E. lia. }
  pose proof (ttl_fresh_rewrap key d (Some z) c Hk Hv Hd He) as Httl.
  rewrite Heff, Hdl in Httl. specialize (Httl ltac:(lia)).
  rewrite (result_eq _ _ _ _ Httl), (after_eq _ _ _ _ Httl).
  set (w := {| t := clock c + z * 1000; v := v d |}).
  set (c1 := with_data (<[ToPropertyKey key := w]> (data c)) c).
  assert (Hd1 : data c1 !! ToPropertyKey key = Some w)
    by (unfold c1; simpl; apply lookup_insert_eq).
  assert (He1 : expired (clock c1) w = false).
  { unfold expired, w, c1. simpl. apply andb_false_intro2. apply Z.ltb_ge. lia. }
  split; [reflexivity|]. split.
  { rewrite (result_eq _ _ _ _ (getTtl_fresh key w c1 Hk Hv Hd1 He1)). reflexivity. }
  split.
  { rewrite (result_eq _ _ _ _ (get_fresh key w eom c1 Hv Hd1 He1)).
    rewrite (result_eq _ _ _ _ (get_fresh key d eom c Hv Hd He)). reflexivity. }
  repeat split.
Qed.

(** ** The check of all entries *)






(** ** flushAll and keys *)

(** X13: [flushAll] never throws and leaves the cache as the constructor
    would build it at the same time with the same options: empty map with
    [Object.prototype] as its prototype, all-zero statistics, and the
    timer of a new cache; it emits [flush].  Afterwards a [get] of a valid
    key whose name the map does not inherit is a miss, the first one
    counted as [misses = 1]. *)
Theorem flushAll_resets c :
  result (flushAll true) c = Return tt /\
  data (after (flushAll true) c) = data (constructor (options c) (clock c)) /\
  data (after (flushAll true) c) = ∅ /\
  proto (after (flushAll true) c) = None /\
  stats (after (flushAll true) c) = stats (constructor (options c) (clock c)) /\
  stats (after (flushAll true) c) = zero_stats /\
  checkTimeout (after (flushAll true) c) =
    checkTimeout (constructor (options c) (clock c)) /\
  options (after (flushAll true) c) = options c /\
  emitted (after (flushAll true) c) = emitted c ++ [EvFlush] /\
  (forall key eom, valid_key key ->
     not_inherited (after (flushAll true) c) (ToPropertyKey key) ->
     result (get key eom) (after (flushAll true) c) = miss_outcome c key eom /\
     stats (after (get key eom) (after (flushAll true) c)) =
       {| hits := Fin 0; misses := Fin 1; keys := Fin 0;
          ksize := Fin 0; vsize := Fin 0 |}).
Proof.
  rewrite (result_eq _ _ _ _ (flushAll_eq true c)),
          (after_eq _ _ _ _ (flushAll_eq true c)).
  unfold constructor. rewrite _checkData_empty by reflexivity.
  unfold flushed. cbn [andb options snd].
  split; [reflexivity|].
  destruct (0 <? checkperiod (options c)) eqn:E.
  - repeat split.
    + rewrite (result_eq _ _ _ _ (get_absent key eom _ H (lookup_empty _) H0)).
      reflexivity.
    + rewrite (after_eq _ _ _ _ (get_absent key eom _ H (lookup_empty _) H0)).
      reflexivity.
  - repeat split.
    + rewrite (result_eq _ _ _ _ (get_absent key eom _ H (lookup_empty _) H0)).
      reflexivity.
    + rewrite (after_eq _ _ _ _ (get_absent key eom _ H (lookup_empty _) H0)).
      reflexivity.
Qed.

(** X14: [keys] changes nothing in the state and lists, without
    repetition, exactly the names under which an entry is stored, stale
    entries included; the list is as long as the map is large. *)
Theorem keys_lists_stored_names c :
  exists l,
    keys_ c = (Return l, c) /\
    NoDup l /\
    (forall p, p ∈ l <-> is_Some (data c !! p)) /\
    length l = size (data c).
Proof.
  exists (map_to_list (data c)).*1.
  split; [reflexivity|]. split; [apply NoDup_fst_map_to_list|]. split.
  - intros p. rewrite list_elem_of_fmap. split.
    + intros ([k d] & -> & Hin). apply elem_of_map_to_list in Hin. eauto.
    + intros [d Hd]. exists (p, d). split; [reflexivity|].
      apply elem_of_map_to_list. exact Hd.
  - rewrite length_fmap. apply length_map_to_list.
Qed.

(** ** Numeric keys and their decimal names *)

Lemma NumberToString_small z :
  Z.abs z <= MAX_SAFE_INTEGER -> NumberToString z = pretty z.
Proof.
  intros Hz. unfold NumberToString.
  destruct (Z.abs z <=? MAX_SAFE_INTEGER) eqn:E; [reflexivity|].
  apply Z.leb_gt in E. lia.
Qed.

(** A [get] under any key with the property name of the key just set. *)
Lemma get_reads_written k1 k2 value newTtl eom c :
  well_measured c ->
  valid_key k1 -> valid_key k2 ->
  ToPropertyKey k2 = ToPropertyKey k1 ->
  0 <= default (stdTTL (options c)) newTtl ->
  result (get k2 eom) (after (set k1 value newTtl) c) =
    Return (if nullish (forced (options c) value) then VNull
            else forced (options c) value).
Proof.
  intros Hwm Hv1 Hv2 Hp Hpos.
  destruct (set_stores k1 value newTtl c Hwm Hv1) as (_ & _ & Ho & Hc).
  pose proof (set_then_read k1 value newTtl c Hwm Hv1) as Hr.
  rewrite <- Hp in Hr.
  assert (Hex : expired (clock c) (written c value newTtl) = false).
  { pose proof (expired_written_false c value newTtl 0 Hpos ltac:(lia)) as H.
    replace (clock c + Z.max 0 0) with (clock c) in H by lia.
    apply H.
    destruct (Z.eq_dec (default (stdTTL (options c)) newTtl) 0); [left | right]; lia. }
  rewrite (result_eq _ _ _ _
             (get_found k2 eom _ Hv2
                ltac:(rewrite Hr; reflexivity)
                ltac:(rewrite Hr, stale_wrapper, Hc; exact Hex))).
  rewrite Hr, Ho, unwrap_written. reflexivity.
Qed.

(** X15: a key that is a safe integer (of magnitude at most
    [Number.MAX_SAFE_INTEGER]) and the string of its
    decimal digits name the same entry: what [set] stores under one is
    what [get] finds under the other.  Two different such integers never
    name the same entry. *)
Theorem numeric_key_is_its_decimal_name c z value newTtl eom :
  reachable c ->
  Z.abs z <= MAX_SAFE_INTEGER ->
  (exists n, _getValLength (options c) (forced (options c) value) = Return n) ->
  0 <= default (stdTTL (options c)) newTtl ->
  result (get (VStr (pretty z)) eom) (after (set (VNum (Fin z)) value newTtl) c) =
    Return (if nullish (forced (options c) value) then VNull
            else forced (options c) value) /\
  result (get (VNum (Fin z)) eom) (after (set (VStr (pretty z)) value newTtl) c) =
    Return (if nullish (forced (options c) value) then VNull
            else forced (options c) value) /\
  (forall z', Z.abs z' <= MAX_SAFE_INTEGER -> z' <> z ->
     data (after (set (VNum (Fin z)) value newTtl) c) !! ToPropertyKey (VNum (Fin z')) =
       data c !! ToPropertyKey (VNum (Fin z'))).
Proof.
  intros Hr Hz [n Hn] Hpos. apply reachable_well_measured in Hr.
  assert (Hname : ToPropertyKey (VNum (Fin z)) = pretty z)
    by (apply NumberToString_small; exact Hz).
  split; [apply get_reads_written; try reflexivity; try assumption;
          symmetry; exact Hname|].
  split; [apply get_reads_written; try reflexivity; assumption|].
  intros z' Hz' Hne.
  destruct (set_stores (VNum (Fin z)) value newTtl c Hr eq_refl) as (Hd & _).
  rewrite Hd.
  destruct (assign_cases (ToPropertyKey (VNum (Fin z))) (written c value newTtl) c)
    as [-> | (_ & _ & ->)]; [| reflexivity].
  cbn [data with_data]. apply lookup_insert_ne. rewrite Hname.
  change (ToPropertyKey (VNum (Fin z'))) with (NumberToString z').
  rewrite (NumberToString_small z' Hz'). intros Heq.
  apply Hne. symmetry. apply (inj pretty). exact Heq.
Qed.

(** ** The errors the methods raise *)








(** ** The statistics invariant along a history *)


(** ** forceString *)


(** ** The counters along a history *)



(** X20: no method call other than [flushAll] ever lowers [hits] or
    [misses]. *)
Theorem hits_and_misses_never_decrease c a h m :
  reachable c ->
  quiet a ->
  (forall b, a <> CallFlushAll b) ->
  hits (stats c) = Fin h ->
  misses (stats c) = Fin m ->
  exists h' m',
    hits (stats (step a c)) = Fin h' /\ misses (stats (step a c)) = Fin m' /\
    h <= h' /\ m <= m'.
Proof.
  intros Hr Hq Hnf Hh Hm.
  apply (monotone_update (stats c)); [| exact Hh | exact Hm].
  apply stats_update_step; assumption.
Qed.

(** ** Names that the map inherits *)

Lemma inherited_function c s :
  s ∈ Object_prototype_functions ->
  data c !! s = None ->
  proto c = None ->
  s <> "__proto__" /\ data_read c s = Plain (VFun s).
Proof.
  intros Hin Hd Hp.
  assert (Hne : s <> "__proto__").
  { intros ->.
    apply (bool_decide_eq_true_2 ("__proto__" ∈ Object_prototype_functions)) in Hin.
    vm_compute in Hin. discriminate Hin. }
  split; [exact Hne|].
  rewrite data_read_not_own by exact Hd. rewrite Hp. unfold inherited.
  apply String.eqb_neq in Hne. rewrite Hne. unfold Object_prototype_get.
  rewrite bool_decide_eq_true_2 by exact Hin. reflexivity.
Qed.

Lemma measured_null o :
  _getValLength o VNull = Return (if forceString o then 4 else 0).
Proof. unfold _getValLength. simpl. destruct (forceString o); reflexivity. Qed.

(** X23: the name of a function that the map object inherits from
    [Object.prototype] ([toString], [constructor], [hasOwnProperty], ...)
    is found although nothing is stored under it.  On a map with its
    original prototype and no entry under such a name, [get] counts a hit
    and hands back [null], whatever the error-on-missing setting; [del]
    reports one deletion, leaves the map as it is, lowers [keys] by one
    and emits [del] with the value [undefined]; and [set] writes the entry
    without counting a new key. *)
Theorem inherited_name_is_found c s eom :
  s ∈ Object_prototype_functions ->
  data c !! s = None ->
  proto c = None ->
  get (VStr s) eom c = (Return VNull, hit c) /\
  result (del (VStr s)) c = Return 1 /\
  data (after (del (VStr s)) c) = data c /\
  keys (stats (after (del (VStr s)) c)) = num_sub (keys (stats c)) (Fin 1) /\
  emitted (after (del (VStr s)) c) = emitted c ++ [EvDel (VStr s) VUndefined] /\
  (forall value newTtl n,
     _getValLength (options c) (forced (options c) value) = Return n ->
     result (set (VStr s) value newTtl) c = Return true /\
     keys (stats (after (set (VStr s) value newTtl) c)) = keys (stats c) /\
     data (after (set (VStr s) value newTtl) c) !! s =
       Some (written c value newTtl)).
Proof.
  intros Hin Hd Hp. destruct (inherited_function c s Hin Hd Hp) as [Hne Hr].
  assert (Hm : measured (options c) (data_read c (ToPropertyKey (VStr s)))
                 (if forceString (options c) then 4 else 0)).
  { change (ToPropertyKey (VStr s)) with s. rewrite Hr. apply measured_null. }
  split.
  { rewrite get_found; change (ToPropertyKey (VStr s)) with s; rewrite ?Hr;
      reflexivity. }
  pose proof (del_found (VStr s) _ c eq_refl
                ltac:(change (ToPropertyKey (VStr s)) with s; rewrite Hr; reflexivity)
                Hm) as Hdel.
  change (ToPropertyKey (VStr s)) with s in Hdel. rewrite Hr in Hdel.
  rewrite (result_eq _ _ _ _ Hdel), (after_eq _ _ _ _ Hdel).
  split; [reflexivity|]. split; [simpl; apply delete_id; exact Hd|].
  split; [reflexivity|]. split; [reflexivity|].
  intros value newTtl n Hn.
  pose proof (set_seen (VStr s) value newTtl _ n c eq_refl
                ltac:(change (ToPropertyKey (VStr s)) with s; rewrite Hr; reflexivity)
                Hm Hn) as Hset.
  change (ToPropertyKey (VStr s)) with s in Hset.
  rewrite assign_own in Hset by exact Hne.
  rewrite (result_eq _ _ _ _ Hset), (after_eq _ _ _ _ Hset).
  split; [reflexivity|]. split; [reflexivity|].
  simpl. apply lookup_insert_eq.
Qed.

End NodeCache.

(** * The properties at concrete inputs

    The examples are run on an engine that prints every number in plain
    decimal digits and whose coercing comparison of a non-number is
    [false]; none of them reaches either case. *)

Existing Instance example_engine.

Lemma get_expired_entry_witness :
  (reachable example_stale /\ valid_key (VStr "a") /\
   data example_stale !! ToPropertyKey (VStr "a") = Some {| t := 2000; v := VStr "x" |} /\
   2000 <> 0 /\ 2000 < clock example_stale) /\
  data (after (get (VStr "a") false) example_stale) = delete "a" (data example_stale) /\
  result (get (VStr "a") false) example_stale = Return VUndefined.
Proof.
  pose proof (get_expired_entry example_stale (VStr "a")
                {| t := 2000; v := VStr "x" |} false
                example_stale_reachable eq_refl eq_refl
                ltac:(discriminate) ltac:(reflexivity)) as (H1 & _ & _ & _ & H5).
  split; [| split; [exact H1 | exact H5]].
  split; [exact example_stale_reachable|].
  split; [reflexivity|]. split; [reflexivity|]. split; [discriminate | reflexivity].
Defined.

(** C5 as stated promises [undefined] for every stale entry; on a cache
    built with [errorOnMissing: true] the same [get] throws. *)
Lemma get_expired_entry_counterexample :
  data example_strict_stale !! ToPropertyKey (VStr "a") =
    Some {| t := 2000; v := VStr "x" |} /\
  clock example_strict_stale = 2500 /\
  result (get (VStr "a") false) example_strict_stale = Throw (ENOTFOUND (VStr "a")) /\
  result (get (VStr "a") false) example_strict_stale <> Return VUndefined.
Proof.
  split; [reflexivity|]. split; [reflexivity|].
  split; [reflexivity | discriminate].
Qed.

Lemma mget_not_an_array_witness :
  mget (VStr "a") example_one_key = (Return (Failed EKEYSTYPE), example_one_key) /\
  result (mget (VArr [VStr "a"; VNull; VStr "b"])) example_one_key =
    Throw (EKEYTYPE "object").
Proof.
  destruct (mget_not_an_array example_one_key) as [H1 H2].
  split.
  - apply (H1 (VStr "a")). reflexivity.
  - apply (H2 [VStr "a"] VNull [VStr "b"]).
    + exact example_one_key_reachable.
    + repeat constructor.
    + discriminate.
Defined.

Lemma falsy_key_ttl_witness :
  (reachable example_zero_key /\
   fresh_entry example_zero_key "0" = Some {| t := 0; v := VStr "z" |}) /\
  ttl (VNum (Fin 0)) (Some 5) example_zero_key = (Return false, example_zero_key) /\
  getTtl (VNum (Fin 0)) example_zero_key = (Return VUndefined, example_zero_key) /\
  result (get (VNum (Fin 0)) false) example_zero_key = Return (VStr "z") /\
  result (del (VNum (Fin 0))) example_zero_key = Return 1.
Proof.
  destruct (falsy_key_ttl example_zero_key (VNum (Fin 0)) (Some 5)
              example_zero_key_reachable (or_introl eq_refl))
    as (_ & Httl & HgetTtl & _ & Hops).
  destruct (Hops {| t := 0; v := VStr "z" |} eq_refl) as (Hget & Hdel & _).
  split; [split; [exact example_zero_key_reachable | reflexivity]|].
  split; [exact Httl|]. split; [exact HgetTtl|].
  split; [| exact Hdel].
  unfold result. rewrite Hget. reflexivity.
Defined.

Lemma ttl_negative_vs_del_witness :
  (reachable example_one_key /\ valid_key (VStr "a") /\
   truthy (VStr "a") = true /\ not_inherited example_one_key "a" /\ -1 < 0) /\
  data (after (ttl (VStr "a") (Some (-1))) example_one_key) = delete "a" (data example_one_key) /\
  result (ttl (VStr "a") (Some (-1))) example_one_key = Return true /\
  result (del (VStr "a")) example_one_key = Return 1 /\
  after (ttl (VStr "a") (Some (-1))) example_one_key = after (del (VStr "a")) example_one_key.
Proof.
  destruct (ttl_negative_vs_del example_one_key (VStr "a") (-1)
              example_one_key_reachable eq_refl eq_refl eq_refl ltac:(reflexivity))
    as (H1 & _ & H3 & H4 & H5).
  split.
  - split; [exact example_one_key_reachable|]. repeat split.
  - split; [exact H1|]. split; [exact H3|]. split; [exact H4|].
    apply H5. reflexivity.
Defined.

(** C7 as stated fails on a stored key 0, which [ttl] refuses and [del]
    removes, and on a stale entry, where [del] reports a deletion and [ttl]
    reports that the key was not found. *)
Lemma ttl_negative_vs_del_counterexample :
  (valid_key (VNum (Fin 0)) /\
   data example_zero_key !! "0" = Some {| t := 0; v := VStr "z" |} /\
   ttl (VNum (Fin 0)) (Some (-1)) example_zero_key = (Return false, example_zero_key) /\
   result (del (VNum (Fin 0))) example_zero_key = Return 1 /\
   data (after (del (VNum (Fin 0))) example_zero_key) !! "0" = None) /\
  (valid_key (VStr "a") /\
   data example_stale !! "a" = Some {| t := 2000; v := VStr "x" |} /\
   live example_stale (VStr "a") = false /\
   result (ttl (VStr "a") (Some (-1))) example_stale = Return false /\
   result (del (VStr "a")) example_stale = Return 1).
Proof.
  split; repeat split.
Qed.

(** C3 as stated: a write to the object returned by [getStats] would leave
    the engine's statistics unchanged.  On a new cache it changes them, and
    the following [get] counts its miss on the written record. *)
Lemma getStats_returns_live_record_counterexample :
  result getStats example_new = Return O /\
  hits (stats example_new) = Fin 0 /\
  hits (stats (mutate_stats O write_hits_42 (after getStats example_new))) = Fin 42 /\
  stats (mutate_stats O write_hits_42 (after getStats example_new)) <> stats example_new /\
  stats (after (get (VStr "k") false)
           (mutate_stats O write_hits_42 (after getStats example_new))) =
    {| hits := Fin 42; misses := Fin 1; keys := Fin 0; ksize := Fin 0; vsize := Fin 0 |}.
Proof.
  repeat split. discriminate.
Qed.

Lemma set_then_get_witness :
  (reachable example_new /\ valid_key (VStr "k") /\ 0 <= 2 /\ 0 <= 2000) /\
  result (get (VStr "k") true)
    (tick 2000 (after (set (VStr "k") (VNum (Fin 7)) (Some 2)) example_new)) =
    Return (VNum (Fin 7)).
Proof.
  split; [split; [exact example_new_reachable | repeat split; discriminate]|].
  refine (proj1 (proj2 (set_then_get example_new (VStr "k") (VNum (Fin 7)) (Some 2)
            2000 true example_new_reachable eq_refl _ _ _ _))).
  - exists 8. reflexivity.
  - discriminate.
  - discriminate.
  - right. discriminate.
Defined.

Lemma set_then_get_late_witness :
  (reachable example_new /\ valid_key (VStr "a") /\
   not_inherited example_new "a" /\ 0 <= clock example_new /\
   0 < 1 /\ 1 * 1000 < 1500) /\
  exists c1 c2 c3,
    c1 = tick 1500 (after (set (VStr "a") (VStr "x") (Some 1)) example_new) /\
    get (VStr "a") false c1 = (Return VUndefined, c2) /\
    get (VStr "a") false c2 = (Return VUndefined, c3) /\
    data c2 = delete "a" (data c1) /\
    emitted c2 =
      emitted c1 ++ [EvDel (VStr "a") (VStr "x"); EvExpired (VStr "a") (VStr "x")] /\
    c3 = missed c2.
Proof.
  split.
  - split; [exact example_new_reachable|]. repeat split; discriminate.
  - apply (set_then_get_late example_new (VStr "a") (VStr "x") (Some 1) 1500).
    + exact example_new_reachable.
    + reflexivity.
    + reflexivity.
    + exists 1. reflexivity.
    + discriminate.
    + reflexivity.
    + reflexivity.
Defined.

Lemma set_overwrites_in_place_witness :
  (reachable example_stale /\ valid_key (VStr "a") /\
   data example_stale !! ToPropertyKey (VStr "a") = Some {| t := 2000; v := VStr "x" |}) /\
  result (set (VStr "a") (VStr "yy") None) example_stale = Return true /\
  emitted (after (set (VStr "a") (VStr "yy") None) example_stale) =
    [EvSet (VStr "a") (VStr "x"); EvSet (VStr "a") (VStr "yy")] /\
  stats (after (set (VStr "a") (VStr "yy") None) example_stale) =
    {| hits := Fin 0; misses := Fin 0; keys := Fin 1; ksize := Fin 1; vsize := Fin 2 |}.
Proof.
  split; [split; [exact example_stale_reachable | split; reflexivity]|].
  destruct (set_overwrites_in_place example_stale (VStr "a") (VStr "yy") None
              {| t := 2000; v := VStr "x" |} example_stale_reachable eq_refl eq_refl)
    as (m & Hm & Hset & _).
  rewrite (result_eq _ _ _ _ Hset), (after_eq _ _ _ _ Hset).
  injection Hm as <-. repeat split.
Defined.

Lemma invalid_key_rejected_witness :
  ~ valid_key (VObj []) /\
  get (VObj []) false example_one_key = (Throw (EKEYTYPE "object"), example_one_key) /\
  ttl VNull (Some 5) example_one_key = (Return false, example_one_key) /\
  ttl (VBool true) (Some 5) example_one_key =
    (Throw (EKEYTYPE "boolean"), example_one_key).
Proof.
  assert (H1 : ~ valid_key (VObj [])) by discriminate.
  assert (H2 : ~ valid_key VNull) by discriminate.
  assert (H3 : ~ valid_key (VBool true)) by discriminate.
  split; [exact H1|].
  split; [exact (proj1 (proj2 (invalid_key_rejected example_one_key (VObj [])) H1) false)|].
  split.
  - exact (proj1 (proj2 (proj2 (proj2
             (proj2 (invalid_key_rejected example_one_key VNull) H2)))) (Some 5)).
  - exact (proj1 (proj2 (proj2 (proj2
             (proj2 (invalid_key_rejected example_one_key (VBool true)) H3)))) (Some 5)).
Defined.


Lemma del_batch_count_witness :
  (reachable example_one_key /\ Forall valid_key [VStr "a"; VStr "zz"; VStr "a"] /\
   Forall (fun k => not_inherited example_one_key (ToPropertyKey k))
     [VStr "a"; VStr "zz"; VStr "a"]) /\
  result (del (VArr [VStr "a"; VStr "zz"; VStr "a"])) example_one_key = Return 1 /\
  misses (stats (after (del (VArr [VStr "a"; VStr "zz"; VStr "a"])) example_one_key)) = Fin 2.
Proof.
  assert (Hvs : Forall valid_key [VStr "a"; VStr "zz"; VStr "a"])
    by (repeat constructor).
  assert (His : Forall (fun k => not_inherited example_one_key (ToPropertyKey k))
                  [VStr "a"; VStr "zz"; VStr "a"])
    by (repeat constructor).
  split; [split; [exact example_one_key_reachable | split; [exact Hvs | exact His]]|].
  destruct (del_batch_count example_one_key [VStr "a"; VStr "zz"; VStr "a"]
              example_one_key_reachable Hvs His) as (H1 & _ & _ & H4).
  split; [exact H1 | exact H4].
Defined.

Lemma del_batch_aborts_witness :
  result (del (VArr [VStr "a"; VNull; VStr "zz"])) example_one_key =
    Throw (EKEYTYPE "object") /\
  data (after (del (VArr [VStr "a"; VNull; VStr "zz"])) example_one_key) !! "a" = None /\
  misses (stats (after (del (VArr [VStr "a"; VNull; VStr "zz"])) example_one_key)) = Fin 0.
Proof.
  destruct (del_batch_aborts example_one_key [VStr "a"] VNull [VStr "zz"]
              example_one_key_reachable ltac:(repeat constructor)
              ltac:(discriminate)) as (H1 & H2 & H3).
  split; [exact H1|]. split.
  - exact (H3 "a").
  - exact (eq_trans (f_equal (fun c' => misses (stats c')) H2) eq_refl).
Defined.

Lemma mget_abort_keeps_counts_witness :
  hits (stats (after (mget (VArr [VStr "a"; VStr "b"; VNull; VStr "a"])) example_one_key))
    = Fin 1 /\
  misses (stats (after (mget (VArr [VStr "a"; VStr "b"; VNull; VStr "a"])) example_one_key))
    = Fin 1.
Proof.
  exact (mget_abort_keeps_counts example_one_key [VStr "a"; VStr "b"] VNull [VStr "a"]
           example_one_key_reachable ltac:(repeat constructor)
           ltac:(repeat constructor) ltac:(discriminate)).
Defined.

Lemma get_hit_only_counts_witness :
  (valid_key (VStr "a") /\
   fresh_entry example_one_key (ToPropertyKey (VStr "a")) =
     Some {| t := 2000; v := VStr "x" |}) /\
  result (get (VStr "a") true) example_one_key = Return (VStr "x") /\
  after (get (VStr "a") true) example_one_key =
    with_stats (hits_incr (stats example_one_key)) example_one_key.
Proof.
  split; [split; reflexivity|].
  exact (get_hit_only_counts example_one_key (VStr "a")
           {| t := 2000; v := VStr "x" |} true eq_refl eq_refl).
Defined.

Lemma getTtl_counts_nothing_witness :
  (reachable example_stale /\ valid_key (VStr "a") /\ truthy (VStr "a") = true) /\
  result (getTtl (VStr "a")) example_one_key = Return (VNum (Fin 2000)) /\
  result (getTtl (VStr "a")) example_stale = Return VUndefined /\
  misses (stats (after (getTtl (VStr "a")) example_stale)) = Fin 0 /\
  data (after (getTtl (VStr "a")) example_stale) !! "a" = None.
Proof.
  split; [split; [exact example_stale_reachable | split; reflexivity]|].
  destruct (getTtl_counts_nothing example_one_key (VStr "a")
              example_one_key_reachable eq_refl eq_refl) as (_ & H1 & _).
  destruct (getTtl_counts_nothing example_stale (VStr "a")
              example_stale_reachable eq_refl eq_refl)
    as (_ & _ & H2 & _ & _ & H3 & H4).
  split; [exact (H1 {| t := 2000; v := VStr "x" |} eq_refl)|].
  split; [exact (H2 eq_refl eq_refl)|]. split; [exact H3 | exact (H4 "a")].
Defined.

Lemma ttl_moves_deadline_witness :
  (valid_key (VStr "a") /\ truthy (VStr "a") = true /\
   fresh_entry example_one_key "a" = Some {| t := 2000; v := VStr "x" |} /\ 0 < 60) /\
  result (getTtl (VStr "a")) (after (ttl (VStr "a") (Some 60)) example_one_key) =
    Return (VNum (Fin 61000)).
Proof.
  split; [repeat split|].
  exact (proj1 (proj2 (ttl_moves_deadline example_one_key (VStr "a")
           {| t := 2000; v := VStr "x" |} 60 false eq_refl eq_refl eq_refl eq_refl))).
Defined.


Lemma flushAll_resets_witness :
  (valid_key (VStr "a") /\
   not_inherited (after (flushAll true) example_one_key) "a") /\
  result (get (VStr "a") false) (after (flushAll true) example_one_key) =
    Return VUndefined /\
  stats (after (get (VStr "a") false) (after (flushAll true) example_one_key)) =
    {| hits := Fin 0; misses := Fin 1; keys := Fin 0; ksize := Fin 0; vsize := Fin 0 |}.
Proof.
  split; [split; reflexivity|].
  destruct (flushAll_resets example_one_key)
    as (_ & _ & _ & _ & _ & _ & _ & _ & _ & H).
  exact (H (VStr "a") false eq_refl eq_refl).
Defined.

Lemma numeric_key_is_its_decimal_name_witness :
  (reachable example_new /\ Z.abs 42 <= MAX_SAFE_INTEGER /\ 0 <= 0) /\
  result (get (VStr "42") false) (after (set (VNum (Fin 42)) (VStr "x") None) example_new)
    = Return (VStr "x") /\
  result (get (VNum (Fin 42)) false) (after (set (VStr "42") (VStr "x") None) example_new)
    = Return (VStr "x").
Proof.
  split; [split; [exact example_new_reachable | split; discriminate]|].
  destruct (numeric_key_is_its_decimal_name example_new 42 (VStr "x") None false
              example_new_reachable ltac:(discriminate)
              (ex_intro _ 1 eq_refl) ltac:(discriminate))
    as (H1 & H2 & _).
  split; [exact H1 | exact H2].
Defined.





Lemma hits_and_misses_never_decrease_witness :
  (reachable example_stale /\ quiet (CallDel (VArr [VStr "a"; VStr "b"])) /\
   hits (stats example_stale) = Fin 0 /\ misses (stats example_stale) = Fin 0) /\
  exists h' m',
    hits (stats (step (CallDel (VArr [VStr "a"; VStr "b"])) example_stale)) = Fin h' /\
    misses (stats (step (CallDel (VArr [VStr "a"; VStr "b"])) example_stale)) = Fin m' /\
    0 <= h' /\ 0 <= m'.
Proof.
  split; [split; [exact example_stale_reachable | repeat split]|].
  apply (hits_and_misses_never_decrease example_stale
           (CallDel (VArr [VStr "a"; VStr "b"])) 0 0 example_stale_reachable I).
  - discriminate.
  - reflexivity.
  - reflexivity.
Defined.

Lemma get_missing_policy_witness :
  (reachable example_stale /\ valid_key (VStr "a") /\
   not_inherited example_stale "a" /\
   live example_stale (VStr "a") = false) /\
  (result (get (VStr "a") true) example_stale = Throw (ENOTFOUND (VStr "a")) /\
   misses (stats (after (get (VStr "a") true) example_stale)) = Fin 1).
Proof.
  split.
  - split; [exact example_stale_reachable | repeat split].
  - apply (get_missing_policy example_stale (VStr "a") true).
    + exact example_stale_reachable.
    + reflexivity.
    + reflexivity.
    + reflexivity.
Defined.

(** [mget(["a","b"])] where only ["a"] is stored. *)
Lemma mget_hits_and_misses_witness :
  (reachable example_one_key /\ Forall valid_key [VStr "a"; VStr "b"] /\
   Forall (fun k => not_inherited example_one_key (ToPropertyKey k))
     [VStr "a"; VStr "b"]) /\
  exists oRet,
    result (mget (VArr [VStr "a"; VStr "b"])) example_one_key = Return (Found oRet) /\
    hits (stats (after (mget (VArr [VStr "a"; VStr "b"])) example_one_key)) = Fin 1 /\
    misses (stats (after (mget (VArr [VStr "a"; VStr "b"])) example_one_key)) = Fin 1 /\
    props oRet !! "a" = Some (VStr "x") /\
    props oRet !! "b" = None.
Proof.
  assert (Hvs : Forall valid_key [VStr "a"; VStr "b"])
    by (repeat constructor).
  assert (His : Forall (fun k => not_inherited example_one_key (ToPropertyKey k))
                  [VStr "a"; VStr "b"])
    by (repeat constructor).
  split; [split; [exact example_one_key_reachable | split; [exact Hvs | exact His]]|].
  destruct (mget_hits_and_misses example_one_key [VStr "a"; VStr "b"]
              example_one_key_reachable Hvs His)
    as (oRet & Hres & Hh & Hm & Hin & Hout & _).
  exists oRet. split; [exact Hres|]. split; [exact Hh|]. split; [exact Hm|].
  split.
  - apply (Hin (VStr "a") {| t := 2000; v := VStr "x" |});
      [left | reflexivity].
  - apply (Hout (VStr "b")); [right; left | reflexivity].
Defined.

Lemma inherited_name_is_found_witness :
  ("hasOwnProperty" ∈ Object_prototype_functions /\
   data example_one_key !! "hasOwnProperty" = None /\
   proto example_one_key = None) /\
  get (VStr "hasOwnProperty") true example_one_key = (Return VNull, hit example_one_key) /\
  result (del (VStr "hasOwnProperty")) example_one_key = Return 1 /\
  keys (stats (after (del (VStr "hasOwnProperty")) example_one_key)) = Fin 0 /\
  size (data (after (del (VStr "hasOwnProperty")) example_one_key)) = 1%nat.
Proof.
  assert (Hin : "hasOwnProperty" ∈ Object_prototype_functions)
    by (repeat constructor).
  split; [split; [exact Hin | split; reflexivity]|].
  destruct (inherited_name_is_found example_one_key "hasOwnProperty" true
              Hin eq_refl eq_refl) as (H1 & H2 & H3 & H4 & _).
  split; [exact H1|]. split; [exact H2|]. split; [exact H4|].
  rewrite H3. reflexivity.
Defined.
